(** * Hubcloud extractor: extraction pipeline, engine lifecycle, edge proxy

    A shallow embedding of [railway_service.py] (compute tier) and of
    [api/proxy.py] / [api/api_proxy.py] (edge proxy), with the properties
    the design document states about them.

    Conventions of the embedding.
    - A Python [str] is a [list ascii]: a sequence of 8-bit code points
      (the Latin-1 range).  On this range the regular-expression classes
      of the source are: [\d] = [0-9]; [\s] = the twelve code points for
      which [str.isspace] holds (9-13, 28-31, 32, 133, 160); [.] = every
      character but the line feed; under IGNORECASE the letters g, m, k, b
      match their two ASCII cases only.
    - Text produced by decoding bytes as UTF-8 can leave that range, so it
      is a [list N] of code points ([ustr]).
    - Each regular expression of the source is written out as the scanner
      it denotes (leftmost match, greedy or lazy as written). *)

From Stdlib Require Import ZArith NArith Ascii String List Bool Lia.
From Stdlib Require Import DecimalString.
From stdpp Require Import base option list strings gmap.

Local Open Scope Z_scope.
Local Open Scope list_scope.

(** ** Python strings *)

Definition str := list ascii.

Notation "'py' s" := (list_ascii_of_string s%string)
  (at level 1, s at level 0, format "'py'  s").

Definition ch (n : nat) : ascii := ascii_of_nat n.

Definition code (c : ascii) : Z := Z.of_nat (nat_of_ascii c).

(** [str.isspace] / [\s] on the modelled range. *)
Definition is_space (c : ascii) : bool :=
  let n := code c in
  ((9 <=? n) && (n <=? 13)) || ((28 <=? n) && (n <=? 32))
  || (n =? 133) || (n =? 160).

(** [\d] on the modelled range. *)
Definition is_digit (c : ascii) : bool :=
  let n := code c in (48 <=? n) && (n <=? 57).

Definition is_upper_az (c : ascii) : bool :=
  let n := code c in (65 <=? n) && (n <=? 90).

Definition is_lower_az (c : ascii) : bool :=
  let n := code c in (97 <=? n) && (n <=? 122).

(** [str.upper] on ASCII letters; the source applies it only to the unit
    matched by [(GB|MB|KB|B)], which consists of ASCII letters. *)
Definition upper_char (c : ascii) : ascii :=
  if is_lower_az c then ascii_of_nat (nat_of_ascii c - 32) else c.

Definition upper (s : str) : str := map upper_char s.

(** Equality of characters ignoring ASCII case (IGNORECASE on a letter). *)
Definition eqb_nocase (a b : ascii) : bool :=
  Ascii.eqb (upper_char a) (upper_char b).

Fixpoint str_eqb (a b : str) : bool :=
  match a, b with
  | [], [] => true
  | x :: a', y :: b' => Ascii.eqb x y && str_eqb a' b'
  | _, _ => false
  end.

(** [s.startswith(p)] *)
Fixpoint startswith (p s : str) : bool :=
  match p, s with
  | [], _ => true
  | a :: p', b :: s' => Ascii.eqb a b && startswith p' s'
  | _ :: _, [] => false
  end.

(** [p in s] *)
Fixpoint contains (p s : str) : bool :=
  startswith p s
  || match s with
     | [] => false
     | _ :: s' => contains p s'
     end.

(** The longest prefix of [s] whose characters satisfy [f], and the rest. *)
Fixpoint span (f : ascii -> bool) (s : str) : str * str :=
  match s with
  | [] => ([], [])
  | c :: s' =>
      if f c then let '(a, b) := span f s' in (c :: a, b) else ([], s)
  end.

Fixpoint lstrip (s : str) : str :=
  match s with
  | [] => []
  | c :: s' => if is_space c then lstrip s' else s
  end.

Definition rstrip (s : str) : str := rev (lstrip (rev s)).

(** [s.strip()] *)
Definition strip (s : str) : str := rstrip (lstrip s).

(** [str(n)]: the decimal digits, after a minus sign when [n] is
    negative. *)
Definition str_of_Z (n : Z) : str :=
  list_ascii_of_string (NilZero.string_of_int (Z.to_int n)).

(** ** Exceptions *)

Inductive exn : Type :=
| ValueError (msg : str)
| OverflowError
| RequestError          (* requests: connection error, timeout, HTTPError *)
| BrowserError          (* playwright: launch, navigation or page failure *)
| ParserError           (* bs4: the markup is rejected *)
| TypeError.            (* an operation the value does not support *)

Inductive res (A : Type) : Type :=
| Ok (a : A)
| Raise (e : exn).
Arguments Ok {A} a.
Arguments Raise {A} e.

(** ** Binary64 arithmetic, as far as [parse_size_from_text] uses it

    Only non-negative values occur.  [Fin m e] is the number [m * 2^e];
    [Inf] is the positive infinity. *)

Inductive float : Type :=
| Fin (m e : Z)
| Inf.

Definition pow2 (k : Z) : Z := 2 ^ k.

(** [round_q p q]: the binary64 nearest to [p / q] (ties to even), for
    [0 <= p] and [0 < q]: 53 significant bits, least exponent [-1074],
    overflow at [2^1024]. *)
Definition round_q (p q : Z) : float :=
  if p =? 0 then Fin 0 0 else
  let e0 := Z.log2 p - Z.log2 q in
  let ge := if 0 <=? e0 then q * pow2 e0 <=? p else q <=? p * pow2 (- e0) in
  let e := if ge then e0 else e0 - 1 in
  let u := Z.max (e - 52) (-1074) in
  let num := if 0 <=? u then p else p * pow2 (- u) in
  let den := if 0 <=? u then q * pow2 u else q in
  let qt := num / den in
  let r := num mod den in
  let m := if 2 * r <? den then qt
           else if den <? 2 * r then qt + 1
           else if Z.even qt then qt else qt + 1 in
  if (0 <=? u) && (pow2 1024 <=? m * pow2 u) then Inf else Fin m u.

(** [float(n)] for an integer literal such as [1024]. *)
Definition float_of_Z (n : Z) : float := round_q n 1.

(** [a * b] *)
Definition fmul (a b : float) : float :=
  match a, b with
  | Fin m1 e1, Fin m2 e2 =>
      let e := e1 + e2 in
      if 0 <=? e then round_q (m1 * m2 * pow2 e) 1
      else round_q (m1 * m2) (pow2 (- e))
  | _, _ => Inf      (* no zero meets an infinity here: see [parse_size_from_text] *)
  end.

(** [int(v)]: truncation; raises OverflowError on an infinity. *)
Definition py_int (v : float) : res Z :=
  match v with
  | Fin m e => Ok (if 0 <=? e then m * pow2 e else m / pow2 (- e))
  | Inf => Raise OverflowError
  end.

(** ** [parse_size_from_text] *)

Definition digit_val (c : ascii) : Z := code c - 48.

Fixpoint digits_val (acc : Z) (s : str) : Z :=
  match s with
  | [] => acc
  | c :: s' => digits_val (10 * acc + digit_val c) s'
  end.

Definition dot : ascii := "."%char.
Definition comma : ascii := ","%char.

(** [float(num)] for [num] made of digits and dots (what is left of a
    match of [[\d\.,]+] once the commas are removed): a [ValueError] unless
    there is at least one digit and at most one dot; else the decimal
    value, correctly rounded. *)
Definition py_float (num : str) : option float :=
  let '(ip, r) := span is_digit num in
  match r with
  | [] =>
      match ip with
      | [] => None
      | _ => Some (round_q (digits_val 0 ip) 1)
      end
  | c :: r' =>
      if Ascii.eqb c dot then
        let '(fp, r'') := span is_digit r' in
        match r'' with
        | [] =>
            match ip ++ fp with
            | [] => None
            | ds => Some (round_q (digits_val 0 ds) (10 ^ Z.of_nat (length fp)))
            end
        | _ :: _ => None
        end
      else None
  end.

(** The class [[\d\.,]]. *)
Definition is_numch (c : ascii) : bool :=
  is_digit c || Ascii.eqb c dot || Ascii.eqb c comma.

Fixpoint startswith_nocase (p s : str) : bool :=
  match p, s with
  | [], _ => true
  | a :: p', b :: s' => eqb_nocase a b && startswith_nocase p' s'
  | _ :: _, [] => false
  end.

(** The alternation [(GB|MB|KB|B)] under IGNORECASE at the head of [s]:
    the text of the first alternative that matches. *)
Definition match_unit (s : str) : option str :=
  if startswith_nocase (py "GB") s then Some (firstn 2 s)
  else if startswith_nocase (py "MB") s then Some (firstn 2 s)
  else if startswith_nocase (py "KB") s then Some (firstn 2 s)
  else if startswith_nocase (py "B") s then Some (firstn 1 s)
  else None.

(** A match of [([\d\.,]+)\s*(GB|MB|KB|B)] starting at the head of [s]:
    groups 1 and 2.  The three parts are over disjoint sets of characters,
    so the greedy match of each part is the only one that can succeed. *)
Definition size_match_at (s : str) : option (str * str) :=
  let '(num, r) := span is_numch s in
  match num with
  | [] => None
  | _ :: _ =>
      let '(_, r') := span is_space r in
      match match_unit r' with
      | Some u => Some (num, u)
      | None => None
      end
  end.

(** [re.search]: the match at the leftmost position that has one. *)
Fixpoint size_search (s : str) : option (str * str) :=
  match size_match_at s with
  | Some m => Some m
  | None =>
      match s with
      | [] => None
      | _ :: s' => size_search s'
      end
  end.

Definition remove_commas (s : str) : str :=
  List.filter (fun c => negb (Ascii.eqb c comma)) s.

Definition parse_size_from_text (text : str) : res (option Z) :=
  match text with
  | [] => Ok None
  | _ =>
      match size_search text with
      | None => Ok None
      | Some (g1, g2) =>
          let num := remove_commas g1 in
          let unit := upper g2 in
          match py_float num with
          | None => Ok None
          | Some val =>
              let k := float_of_Z 1024 in
              if str_eqb unit (py "B") then
                match py_int val with Ok n => Ok (Some n) | Raise e => Raise e end
              else if str_eqb unit (py "KB") then
                match py_int (fmul val k) with Ok n => Ok (Some n) | Raise e => Raise e end
              else if str_eqb unit (py "MB") then
                match py_int (fmul (fmul val k) k) with Ok n => Ok (Some n) | Raise e => Raise e end
              else if str_eqb unit (py "GB") then
                match py_int (fmul (fmul (fmul val k) k) k) with Ok n => Ok (Some n) | Raise e => Raise e end
              else Ok None
          end
      end
  end.

(** ** [normalize_telegram] *)

Definition is_alnum (c : ascii) : bool :=
  is_upper_az c || is_lower_az c || is_digit c.

(** The class [[A-Za-z0-9+/=]]. *)
Definition is_tokch (c : ascii) : bool :=
  is_alnum c || Ascii.eqb c "+"%char || Ascii.eqb c "/"%char || Ascii.eqb c "="%char.

(** The alternation [(?:/foo/|/re2/|[?&]r=|id=)] at the head of [s]: what
    follows the first alternative that matches. *)
Definition match_marker (s : str) : option str :=
  if startswith (py "/foo/") s then Some (skipn 5 s)
  else if startswith (py "/re2/") s then Some (skipn 5 s)
  else if startswith (py "?r=") s || startswith (py "&r=") s then Some (skipn 3 s)
  else if startswith (py "id=") s then Some (skipn 3 s)
  else None.

(** A match of [(?:/foo/|/re2/|[?&]r=|id=)([A-Za-z0-9+/=]+)] at the head of
    [s]: group 1.  At most one alternative matches at a given position, and
    the group is greedy with nothing after it. *)
Definition token_match_at (s : str) : option str :=
  match match_marker s with
  | None => None
  | Some r =>
      match fst (span is_tokch r) with
      | [] => None
      | tok => Some tok
      end
  end.

Fixpoint token_search (s : str) : option str :=
  match token_match_at s with
  | Some t => Some t
  | None =>
      match s with
      | [] => None
      | _ :: s' => token_search s'
      end
  end.

(** [urllib.parse.unquote] returns its argument when it has no ['%']; a
    token of [[A-Za-z0-9+/=]+] has none. *)
Definition unquote (s : str) : str := s.

(** [while len(encoded) % 4 != 0: encoded += "="] *)
Definition pad4 (s : str) : str :=
  s ++ repeat "="%char ((4 - length s mod 4) mod 4)%nat.

(** [binascii.a2b_base64] (CPython 3.11, the mode [base64.b64decode] uses
    by default): [table_a2b_base64] and the quad automaton. *)
Definition b64_value (c : ascii) : option Z :=
  let n := code c in
  if is_upper_az c then Some (n - 65)
  else if is_lower_az c then Some (n - 97 + 26)
  else if is_digit c then Some (n - 48 + 52)
  else if Ascii.eqb c "+"%char then Some 62
  else if Ascii.eqb c "/"%char then Some 63
  else None.

Definition byte_of (z : Z) : Z := Z.land z 255.

Fixpoint a2b_base64 (quad_pos leftchar pads : Z) (out : list Z) (s : str)
  : option (list Z) :=
  match s with
  | [] => if quad_pos =? 0 then Some (rev out) else None
  | c :: s' =>
      if Ascii.eqb c "="%char then
        if (2 <=? quad_pos) && (4 <=? quad_pos + (pads + 1)) then Some (rev out)
        else a2b_base64 quad_pos leftchar (if 2 <=? quad_pos then pads + 1 else pads) out s'
      else
        match b64_value c with
        | None => a2b_base64 quad_pos leftchar pads out s'
        | Some v =>
            if quad_pos =? 0 then a2b_base64 1 v 0 out s'
            else if quad_pos =? 1 then
              a2b_base64 2 (Z.land v 15) 0
                (byte_of (Z.lor (Z.shiftl leftchar 2) (Z.shiftr v 4)) :: out) s'
            else if quad_pos =? 2 then
              a2b_base64 3 (Z.land v 3) 0
                (byte_of (Z.lor (Z.shiftl leftchar 4) (Z.shiftr v 2)) :: out) s'
            else
              a2b_base64 0 0 0
                (byte_of (Z.lor (Z.shiftl leftchar 6) v) :: out) s'
        end
  end.

(** [base64.b64decode(s)]: [None] stands for [binascii.Error]. *)
Definition b64decode (s : str) : option (list Z) := a2b_base64 0 0 0 [] s.

(** Text decoded from bytes: a sequence of code points. *)
Definition ustr := list N.

Definition ustr_of (s : str) : ustr := map N_of_ascii s.

Definition is_cont (b : Z) : bool := (128 <=? b) && (b <=? 191).

Definition in_range (lo hi b : Z) : bool := (lo <=? b) && (b <=? hi).

(** [bytes.decode("utf-8", errors="ignore")]: well-formed sequences give
    their code point, every other byte is dropped.  A byte that cannot
    continue a sequence cannot start one either, so dropping the lead byte
    alone leaves the same text as dropping the whole ill-formed prefix. *)
Fixpoint utf8_decode_ignore (bs : list Z) : ustr :=
  match bs with
  | [] => []
  | b0 :: r0 =>
      if b0 <? 128 then Z.to_N b0 :: utf8_decode_ignore r0
      else if in_range 194 223 b0 then
        match r0 with
        | b1 :: r1 =>
            if is_cont b1
            then Z.to_N (Z.lor (Z.shiftl (Z.land b0 31) 6) (Z.land b1 63))
                 :: utf8_decode_ignore r1
            else utf8_decode_ignore r0
        | [] => []
        end
      else if in_range 224 239 b0 then
        match r0 with
        | b1 :: (b2 :: r2) as r1 =>
            if (if b0 =? 224 then in_range 160 191 b1
                else if b0 =? 237 then in_range 128 159 b1
                else is_cont b1) && is_cont b2
            then Z.to_N (Z.lor (Z.shiftl (Z.land b0 15) 12)
                          (Z.lor (Z.shiftl (Z.land b1 63) 6) (Z.land b2 63)))
                 :: utf8_decode_ignore r2
            else utf8_decode_ignore r0
        | _ => utf8_decode_ignore r0
        end
      else if in_range 240 244 b0 then
        match r0 with
        | b1 :: b2 :: b3 :: r3 =>
            if (if b0 =? 240 then in_range 144 191 b1
                else if b0 =? 244 then in_range 128 143 b1
                else is_cont b1) && is_cont b2 && is_cont b3
            then Z.to_N (Z.lor (Z.shiftl (Z.land b0 7) 18)
                          (Z.lor (Z.shiftl (Z.land b1 63) 12)
                             (Z.lor (Z.shiftl (Z.land b2 63) 6) (Z.land b3 63))))
                 :: utf8_decode_ignore r3
            else utf8_decode_ignore r0
        | _ => utf8_decode_ignore r0
        end
      else utf8_decode_ignore r0
  end.

Definition normalize_telegram (href : option str) : option ustr :=
  match href with
  | None => None
  | Some [] => None
  | Some h =>
      match token_search h with
      | Some g1 =>
          let encoded := pad4 (unquote g1) in
          match b64decode encoded with
          | Some bytes => Some (utf8_decode_ignore bytes)
          | None => Some (ustr_of h)
          end
      | None => Some (ustr_of h)
      end
  end.

(** ** Link classification *)

Inductive label : Type := FSLv2 | FSL | L10Gbps | PixelServer | Telegram.

Definition label_eqb (a b : label) : bool :=
  match a, b with
  | FSLv2, FSLv2 | FSL, FSL | L10Gbps, L10Gbps
  | PixelServer, PixelServer | Telegram, Telegram => true
  | _, _ => false
  end.

(** The key the source uses for a label. *)
Definition label_key (l : label) : str :=
  match l with
  | FSLv2 => py "FSLv2"
  | FSL => py "FSL"
  | L10Gbps => py "10Gbps"
  | PixelServer => py "PixelServer"
  | Telegram => py "Telegram"
  end.

(** [re.search(r'/u/([A-Za-z0-9]+)', href)]: group 1. *)
Fixpoint pixel_search (s : str) : option str :=
  match (if startswith (py "/u/") s then fst (span is_alnum (skipn 3 s)) else []) with
  | (_ :: _) as g => Some g
  | [] =>
      match s with
      | [] => None
      | _ :: s' => pixel_search s'
      end
  end.

Definition newline : ascii := ch 10.

Definition amp_literal : str := py "ampproject.org/c/s/".

(** [.*?ampproject\.org/c/s/] at the head of [s]: the length of the
    shortest match ([.] does not match a line feed). *)
Fixpoint amp_tail (s : str) : option nat :=
  if startswith amp_literal s then Some (length amp_literal)
  else match s with
       | [] => None
       | c :: s' =>
           if Ascii.eqb c newline then None else option_map S (amp_tail s')
       end.

(** [https://.*?ampproject\.org/c/s/] at the head of [s]: length of the match. *)
Definition amp_match_at (s : str) : option nat :=
  if startswith (py "https://") s
  then option_map (Nat.add 8) (amp_tail (skipn 8 s))
  else None.

(** [re.sub(r'https://.*?ampproject\.org/c/s/', 'https://', s)]: every
    match, left to right and without overlap, is replaced.  [skip] counts
    the characters of the current match still to be passed over. *)
Fixpoint amp_sub_go (skip : nat) (s : str) : str :=
  match s with
  | [] => []
  | c :: s' =>
      match skip with
      | S k => amp_sub_go k s'
      | O =>
          match amp_match_at s with
          | Some n => py "https://" ++ amp_sub_go (n - 1) s'
          | None => c :: amp_sub_go 0 s'
          end
      end
  end.

Definition amp_sub (s : str) : str := amp_sub_go 0 s.

Definition tme_prefix : str := py "https://t.me/".

(** [https://t\.me/[^...]+] at the head of [s], where [stop] is the
    excluded class. *)
Definition tme_match_at (stop : ascii -> bool) (s : str) : option str :=
  if startswith tme_prefix s then
    match fst (span (fun c => negb (stop c)) (skipn (length tme_prefix) s)) with
    | [] => None
    | run => Some (tme_prefix ++ run)
    end
  else None.

Fixpoint tme_search (stop : ascii -> bool) (s : str) : option str :=
  match tme_match_at stop s with
  | Some g => Some g
  | None =>
      match s with
      | [] => None
      | _ :: s' => tme_search stop s'
      end
  end.

(** The class excluded on the requests path: white space, the double
    quote and the single quote. *)
Definition stop_space_quote (c : ascii) : bool :=
  is_space c || Ascii.eqb c (ch 34) || Ascii.eqb c (ch 39).

(** The class excluded on the browser path: white space. *)
Definition stop_space (c : ascii) : bool := is_space c.

Definition pixeldrain (token : str) : str :=
  py "https://pixeldrain.com/api/file/" ++ token ++ py "?download".

(** An [a.btn] element as both loops see it: [get_text(strip=True)] and
    [get("href")]. *)
Record anchor : Type := Anchor { a_text : str; a_href : option str }.

(** The body of the loop of [extract_links_requests]: the assignment
    [links[label] = value] it makes for one anchor, if any. *)
Definition classify_requests (a : anchor) : option (label * str) :=
  let text := a_text a in
  let href := match a_href a with Some h => h | None => [] end in
  match href with
  | [] => None
  | _ :: _ =>
      if contains (py "FSLv2") text then Some (FSLv2, href)
      else if contains (py "FSL Server") text
              || (contains (py "FSL") text && negb (contains (py "FSLv2") text))
      then Some (FSL, href)
      else if contains (py "10Gbps") text then Some (L10Gbps, href)
      else if contains (py "PixelServer") text then
        match pixel_search href with
        | Some g => Some (PixelServer, pixeldrain g)
        | None => Some (PixelServer, href)
        end
      else if contains (py "Telegram") text then
        let href := if contains (py "ampproject.org") href then amp_sub href else href in
        match tme_search stop_space_quote href with
        | Some g => Some (Telegram, g)
        | None => Some (Telegram, href)
        end
      else None
  end.

(** The body of the loop of [extract_buttons_with_browser], up to the
    second page of the [10Gbps] case: either no assignment, or an
    assignment, or the request to resolve [href] through a second page. *)
Inductive browser_class : Type :=
| BSkip
| BAssign (l : label) (v : str)
| BResolve10 (href : str).

Definition classify_browser (a : anchor) : browser_class :=
  let text := a_text a in
  match a_href a with
  | None | Some [] => BSkip
  | Some href =>
      if contains (py "FSLv2") text then BAssign FSLv2 href
      else if contains (py "FSL Server") text then BAssign FSL href
      else if contains (py "10Gbps") text then BResolve10 href
      else if contains (py "PixelServer") text then
        match pixel_search href with
        | Some g => BAssign PixelServer (pixeldrain g)
        | None => BAssign PixelServer href
        end
      else if contains (py "Telegram") text then
        let href := if contains (py "ampproject.org") href then amp_sub href else href in
        let href :=
          if negb (startswith tme_prefix href) then
            match tme_search stop_space href with
            | Some g => g
            | None => href
            end
          else href in
        BAssign Telegram href
      else BSkip
  end.

(** ** Data model *)

(** [links]: a Python dict, so insertion-ordered; a value can be [None]
    (the [href] attribute of the button on the second page). *)
Definition links_t := list (label * option str).

(** [links[k] = v] *)
Fixpoint dict_set (k : label) (v : option str) (d : links_t) : links_t :=
  match d with
  | [] => [(k, v)]
  | (k', v') :: d' =>
      if label_eqb k k' then (k, v) :: d' else (k', v') :: dict_set k v d'
  end.

Record meta_t : Type := Meta {
  m_url : str;
  m_title : str;
  m_content_type : option str;
  m_content_length : option str
}.

Record entry : Type := Entry {
  e_meta : meta_t;
  e_links : links_t;
  e_resolved : list ustr
}.

(** ** The outside world

    What the HTTP client, the HTML parser and the browser give back is
    not decided by the program: it is read from an oracle, indexed by the
    moment of the call (the number of events logged so far) and by the
    address. *)

(** A page: its text; whether [BeautifulSoup] accepts it; and, when it
    does, the four elements [extract_metadata] selects (their
    [get_text(strip=True)], when the element exists) and its [a.btn]
    elements in document order. *)
Record document : Type := Document {
  d_text : str;
  d_parses : bool;
  d_card_header : option str;
  d_title : option str;
  d_li1_i : option str;
  d_li2_i : option str;
  d_buttons : list anchor
}.

(** An answer to [requests.get]: status, final address, body. *)
Record response : Type := Response {
  r_status : Z;
  r_url : str;
  r_doc : document
}.

(** An answer to [requests.head]: the two headers and the status. *)
Record head_info : Type := HeadInfo {
  h_content_type : option str;
  h_content_length : option str;
  h_status : Z
}.

(** What the button [a#vd] of a rendered page gives. *)
Inductive vd_state : Type :=
| VdTimeout                      (* [wait_for_selector] raised *)
| VdGone                         (* [query_selector] returned [None] *)
| VdHref (h : option str).       (* [get_attribute("href")] *)

(** A page the browser has navigated to. *)
Record rendered : Type := Rendered {
  p_url : str;                   (* [page.url] *)
  p_has_btn : bool;              (* [wait_for_selector("a.btn")] succeeds *)
  p_idle : bool;                 (* [wait_for_load_state("networkidle")] succeeds *)
  p_doc : document;              (* [page.content()] *)
  p_vd : vd_state
}.

Record oracle : Type := Oracle {
  http_head : nat -> str -> option head_info;     (* [None]: the call raised *)
  http_get : nat -> str -> option response;
  launch : nat -> bool;                            (* the engine starts *)
  page_opens : nat -> bool;                        (* [browser.new_page()] returns *)
  navigate : nat -> str -> option rendered;        (* [None]: [goto] or the wait after it raised *)
  page_closes : nat -> bool                        (* [page.close()] returns *)
}.

Inductive event : Type :=
| EvHead (url : str)
| EvGet (url : str)
| EvLaunch (ok : bool)
| EvNewPage
| EvNavigate (url : str)
| EvClose.

(** A value of the cache object: an entry as [save_cache] wrote it, or
    any other JSON value, which the code hands back without looking
    into it. *)
Inductive cached : Type :=
| Stored (e : entry)
| Foreign (json : str).

(** What [json.load] gives for the cache file: whatever JSON value the
    file holds. *)
Inductive json_top : Type :=
| JObject (c : gmap str cached)
| JArray (strings : list str)          (* an array: the strings among its items *)
| JString (s : str)
| JScalar.                             (* [null], [true], [false] or a number *)

Record world : Type := World {
  cache_file : option json_top;          (* [None]: missing or unparsable *)
  cache_writable : bool;
  started : bool;                        (* [_playwright_state["started"]] *)
  trace : list event
}.

Definition clock (w : world) : nat := length (trace w).

Definition log_event (e : event) (w : world) : world :=
  World (cache_file w) (cache_writable w) (started w) (trace w ++ [e]).

Definition set_started (w : world) : world :=
  World (cache_file w) (cache_writable w) true (trace w).

Definition is_network (e : event) : bool :=
  match e with
  | EvHead _ | EvGet _ | EvNavigate _ => true
  | EvLaunch _ | EvNewPage | EvClose => false
  end.

(** The number of engine instances created along a trace. *)
Definition engines_created (t : list event) : nat :=
  length (List.filter (fun e => match e with EvLaunch true => true | _ => false end) t).

(** ** Computations: state and exceptions *)

Definition M (A : Type) : Type := world -> res A * world.

Definition ret {A} (a : A) : M A := fun w => (Ok a, w).

Definition raise {A} (e : exn) : M A := fun w => (Raise e, w).

Definition bind {A B} (m : M A) (k : A -> M B) : M B :=
  fun w =>
    match m w with
    | (Ok a, w') => k a w'
    | (Raise e, w') => (Raise e, w')
    end.

(** [try: m  except Exception: h] *)
Definition try_except {A} (m : M A) (h : M A) : M A :=
  fun w =>
    match m w with
    | (Ok a, w') => (Ok a, w')
    | (Raise _, w') => h w'
    end.

(** [try: m  finally: f]: [f] runs however [m] ends, and what [f] raises
    takes the place of the outcome of [m]. *)
Definition try_finally {A} (m : M A) (f : M unit) : M A :=
  fun w =>
    let '(r, w1) := m w in
    match f w1 with
    | (Ok _, w2) => (r, w2)
    | (Raise e, w2) => (Raise e, w2)
    end.

Notation "x <-- m ;; k" := (bind m (fun x => k))
  (at level 100, m at next level, right associativity).
Notation "m ;;; k" := (bind m (fun _ => k))
  (at level 100, right associativity).

(** ** Cache store *)

Definition load_cache : M json_top :=
  fun w =>
    (Ok (match cache_file w with Some j => j | None => JObject ∅ end), w).

Definition save_cache (cache : json_top) : M unit :=
  fun w =>
    if cache_writable w
    then (Ok tt, World (Some cache) true (started w) (trace w))
    else (Ok tt, w).

(** [url in cache], and [cache[url]] when it is: a dict is looked up by
    key; in a list [in] compares the items and in a string it looks for
    a substring, and neither can be indexed by a string; nothing else
    supports [in]. *)
Definition cache_lookup (url : str) (cache : json_top) : res (option cached) :=
  match cache with
  | JObject c => Ok (c !! url)
  | JArray items => if existsb (str_eqb url) items then Raise TypeError else Ok None
  | JString s => if contains url s then Raise TypeError else Ok None
  | JScalar => Raise TypeError
  end.

(** [cache[url] = entry]: only a dict takes it. *)
Definition cache_set (url : str) (e : entry) (cache : json_top) : res json_top :=
  match cache with
  | JObject c => Ok (JObject (<[url := Stored e]> c))
  | _ => Raise TypeError
  end.

(** [bool(x)] for an optional string: neither [None] nor empty. *)
Definition truthy (o : option str) : bool :=
  match o with
  | Some (_ :: _) => true
  | _ => false
  end.

(** [a or b] on optional strings. *)
Definition py_or (a b : option str) : option str :=
  if truthy a then a else b.

Definition or_empty (a : option str) : str :=
  match py_or a (Some []) with Some s => s | None => [] end.

(** [resp.raise_for_status()] raises on a 4xx or 5xx status. *)
Definition is_error_status (s : Z) : bool := (400 <=? s) && (s <? 600).

Definition gamerxyt_prefix : str := py "https://gamerxyt.com/?r=".

(** [https://gamerxyt\.com/\?r=[A-Za-z0-9+/=]+] at the head of [s]. *)
Definition gamerxyt_match_at (s : str) : option str :=
  if startswith gamerxyt_prefix s then
    match fst (span is_tokch (skipn (length gamerxyt_prefix) s)) with
    | [] => None
    | run => Some (gamerxyt_prefix ++ run)
    end
  else None.

Fixpoint gamerxyt_search (s : str) : option str :=
  match gamerxyt_match_at s with
  | Some g => Some g
  | None =>
      match s with
      | [] => None
      | _ :: s' => gamerxyt_search s'
      end
  end.

(** [any(x in link_url for x in (...))] *)
Definition needs_resolution (link_url : str) : bool :=
  contains (py "ampproject.org") link_url
  || contains (py "bloggingvector.shop/foo/") link_url
  || contains (py "gamerxyt.com") link_url.

Record head_dict : Type := HeadDict {
  hd_content_type : option str;
  hd_content_length : option str;
  hd_status_code : option str
}.

Record meta_dict : Type := MetaDict {
  md_title : str;
  md_file_size : str;
  md_file_type : str
}.

Definition lift {A} (r : res A) : M A := fun w => (r, w).

(** Run [m] and hand back how it ended, as a value. *)
Definition attempt {A} (m : M A) : M (res A) :=
  fun w => let '(r, w') := m w in (Ok r, w').

Section Pipeline.

Variable net : oracle.

(** *** Network helpers (requests-based) *)

Definition head_request (url : str) : M head_dict :=
  fun w =>
    let w' := log_event (EvHead url) w in
    match http_head net (clock w) url with
    | Some h =>
        (Ok (HeadDict (h_content_type h) (h_content_length h)
               (Some (str_of_Z (h_status h)))), w')
    | None => (Ok (HeadDict None None None), w')
    end.

(** [requests.get]: a connection error or a timeout raises. *)
Definition requests_get (url : str) : M response :=
  fun w =>
    let w' := log_event (EvGet url) w in
    match http_get net (clock w) url with
    | Some r => (Ok r, w')
    | None => (Raise RequestError, w')
    end.

Definition raise_for_status (r : response) : M unit :=
  if is_error_status (r_status r) then raise RequestError else ret tt.

(** [BeautifulSoup(text, "html.parser")] *)
Definition BeautifulSoup (d : document) : M document :=
  if d_parses d then ret d else raise ParserError.

Definition extract_metadata (url : str) : M meta_dict :=
  resp <-- requests_get url ;;
  raise_for_status resp ;;;
  soup <-- BeautifulSoup (r_doc resp) ;;
  let title := py_or (d_card_header soup) (d_title soup) in
  let file_size := d_li1_i soup in
  let file_type := d_li2_i soup in
  ret (MetaDict (or_empty title) (or_empty file_size) (or_empty file_type)).

Definition requests_step (links : links_t) (a : anchor) : links_t :=
  match classify_requests a with
  | Some (l, v) => dict_set l (Some v) links
  | None => links
  end.

(** The [try] covers the request and the test of its status only. *)
Definition extract_links_requests (url : str) : M links_t :=
  resp <-- try_except
             (resp <-- requests_get url ;;
              raise_for_status resp ;;;
              ret (Some resp))
             (ret None) ;;
  match resp with
  | None => ret []
  | Some resp =>
      soup <-- BeautifulSoup (r_doc resp) ;;
      ret (fold_left requests_step (d_buttons soup) [])
  end.

Definition get_gamerxyt_requests (start_url : str) : M (option str) :=
  try_except
    (resp <-- requests_get start_url ;;
     let final := r_url resp in
     if contains (py "gamerxyt.com/?r=") final then ret (Some final)
     else ret (gamerxyt_search (d_text (r_doc resp))))
    (ret None).

(** *** Playwright lazy-start helpers *)

(** One caller at a time (the interleaving of several callers is the
    subject of the module [Lifecycle] below). *)
Definition ensure_playwright_started : M unit :=
  fun w =>
    if started w then (Ok tt, w)
    else
      let ok := launch net (clock w) in
      let w' := log_event (EvLaunch ok) w in
      if ok then (Ok tt, set_started w') else (Raise BrowserError, w').

(** [page = await browser.new_page()] *)
Definition new_page : M unit :=
  fun w =>
    let w' := log_event EvNewPage w in
    if page_opens net (clock w) then (Ok tt, w') else (Raise BrowserError, w').

(** [await page.goto(url)] and the wait that follows it. *)
Definition page_goto (url : str) : M rendered :=
  fun w =>
    let w' := log_event (EvNavigate url) w in
    match navigate net (clock w) url with
    | Some r => (Ok r, w')
    | None => (Raise BrowserError, w')
    end.

(** [await page.close()] *)
Definition page_close : M unit :=
  fun w =>
    let w' := log_event EvClose w in
    if page_closes net (clock w) then (Ok tt, w') else (Raise BrowserError, w').

Fixpoint browser_loop (bs : list anchor) (links : links_t) : M links_t :=
  match bs with
  | [] => ret links
  | b :: bs' =>
      match classify_browser b with
      | BSkip => browser_loop bs' links
      | BAssign l v => browser_loop bs' (dict_set l (Some v) links)
      | BResolve10 href =>
          new_page ;;;
          final_url <-- try_finally
                          (page2 <-- page_goto href ;;
                           ret (match p_vd page2 with
                                | VdTimeout | VdGone => Some href
                                | VdHref h => h
                                end))
                          page_close ;;
          browser_loop bs' (dict_set L10Gbps final_url links)
      end
  end.

(** The engine is started and the page opened before the [try]; the
    [try] has no [except], and its [finally] closes the page. *)
Definition extract_buttons_with_browser (start_url : str) : M links_t :=
  ensure_playwright_started ;;;
  new_page ;;;
  try_finally
    (page <-- page_goto start_url ;;
     if p_has_btn page then
       soup <-- BeautifulSoup (p_doc page) ;;
       browser_loop (d_buttons soup) []
     else ret [])
    page_close.

(** The engine is started and the page opened before the [try]; the
    [except] covers the navigation and the search, and the [finally]
    closes the page. *)
Definition get_gamerxyt_with_browser (start_url : str) : M (option str) :=
  ensure_playwright_started ;;;
  new_page ;;;
  try_finally
    (try_except
       (let start_url :=
          if contains (py "ampproject.org") start_url then amp_sub start_url
          else start_url in
        page <-- page_goto start_url ;;
        if negb (p_idle page) then raise BrowserError
        else
          let current := p_url page in
          if contains (py "gamerxyt.com/?r=") current then ret (Some current)
          else ret (gamerxyt_search (d_text (p_doc page))))
       (ret None))
    page_close.

(** *** Core processing (requests first, browser as a fallback) *)

(** The browser step of the resolution loop: taken only when the HTTP
    step found nothing and the engine runs already. *)
Definition resolve_with_browser (gamerxyt : option str) (link_url : str)
  : M (option str) :=
  fun w =>
    if negb (truthy gamerxyt) && started w
    then try_except (get_gamerxyt_with_browser link_url) (ret None) w
    else (Ok gamerxyt, w).

Fixpoint resolve_loop (items : links_t) (resolved_list : list ustr)
  : M (list ustr) :=
  match items with
  | [] => ret resolved_list
  | (_, link_url) :: rest =>
      match link_url with
      | None | Some [] => resolve_loop rest resolved_list
      | Some u =>
          if needs_resolution u then
            gamerxyt <-- get_gamerxyt_requests u ;;
            gamerxyt <-- resolve_with_browser gamerxyt u ;;
            match normalize_telegram gamerxyt with
            | Some ((_ :: _) as hubcloud) =>
                resolve_loop rest (resolved_list ++ [hubcloud])
            | _ => resolve_loop rest resolved_list
            end
          else resolve_loop rest resolved_list
      end
  end.

(** The fallback, run when the requests path classified no link. *)
Definition browser_fallback (url : str) (links : links_t) : M links_t :=
  match links with
  | [] =>
      try_except
        (pl_links <-- extract_buttons_with_browser url ;;
         match pl_links with
         | [] => ret links
         | _ :: _ => ret pl_links
         end)
        (ret links)
  | _ :: _ => ret links
  end.

Definition assemble (url : str) (head : head_dict) (extracted : meta_dict)
    (links : links_t) (resolved_list : list ustr) : M entry :=
  let title := md_title extracted in
  let fs_text := md_file_size extracted in
  size_bytes <-- match fs_text with
                 | [] => ret None
                 | _ :: _ => lift (parse_size_from_text fs_text)
                 end ;;
  let content_type :=
    py_or (hd_content_type head) (Some (md_file_type extracted)) in
  let content_length :=
    if truthy (hd_content_length head) then hd_content_length head
    else match size_bytes with
         | Some n => Some (str_of_Z n)
         | None => None
         end in
  ret (Entry (Meta url title content_type content_length) links resolved_list).

(** The work done on a cache miss, up to the entry.  The three probes
    are started together and all three run to their end;
    [asyncio.gather] then re-raises what the first probe to fail raised
    (the model runs the probes one after the other, so the metadata
    probe fails before the links probe). *)
Definition extract_fresh (url : str) : M entry :=
  head <-- head_request url ;;
  extracted <-- attempt (extract_metadata url) ;;
  links <-- attempt (extract_links_requests url) ;;
  extracted <-- lift extracted ;;
  links <-- lift links ;;
  links <-- browser_fallback url links ;;
  resolved_list <-- resolve_loop links [] ;;
  assemble url head extracted links resolved_list.

Definition process_single_url (url : str) (force_refresh : bool)
  : M (str * cached) :=
  let url := strip url in
  match url with
  | [] => raise (ValueError (py "Empty URL"))
  | _ :: _ =>
      cache <-- load_cache ;;
      hit <-- (if force_refresh then ret None else lift (cache_lookup url cache)) ;;
      match hit with
      | Some stored => ret (url, stored)
      | None =>
          entry <-- extract_fresh url ;;
          cache <-- lift (cache_set url entry cache) ;;
          save_cache cache ;;;
          ret (url, Stored entry)
      end
  end.

End Pipeline.

(** ** Engine lifecycle under interleaving

    [ensure_playwright_started] suspends twice: at
    [await async_playwright().start()] and at [await p.chromium.launch()].
    Between two suspensions a task runs alone; at a suspension any other
    task may run.  A task is therefore at one of four points, and a step
    takes it from one point to the next. *)

Module Lifecycle.

Inductive point : Type :=
| AtEntry                      (* called, nothing run yet *)
| AwaitStart                   (* suspended in [async_playwright().start()] *)
| AwaitLaunch (p : nat)        (* suspended in [p.chromium.launch()] *)
| Returned.

(** [_playwright_state], and the driver and browser processes that
    exist (each is named by its rank of creation). *)
Record sys : Type := Sys {
  s_started : bool;
  s_playwright : option nat;
  s_browser : option nat;
  s_drivers : nat;
  s_browsers : nat;
  s_tasks : list point
}.

Definition init (callers : nat) : sys :=
  Sys false None None 0 0 (repeat AtEntry callers).

Definition set_task (i : nat) (p : point) (s : sys) : list point :=
  <[i := p]> (s_tasks s).

(** Task [i] runs from its point to its next suspension or to its return. *)
Definition step (s : sys) (i : nat) : sys :=
  match s_tasks s !! i with
  | None | Some Returned => s
  | Some AtEntry =>
      if s_started s
      then Sys (s_started s) (s_playwright s) (s_browser s)
               (s_drivers s) (s_browsers s) (set_task i Returned s)
      else Sys (s_started s) (s_playwright s) (s_browser s)
               (s_drivers s) (s_browsers s) (set_task i AwaitStart s)
  | Some AwaitStart =>
      let p := S (s_drivers s) in
      Sys (s_started s) (s_playwright s) (s_browser s)
          p (s_browsers s) (set_task i (AwaitLaunch p) s)
  | Some (AwaitLaunch p) =>
      let b := S (s_browsers s) in
      Sys true (Some p) (Some b) (s_drivers s) b (set_task i Returned s)
  end.

(** A schedule names the task that runs at each turn. *)
Definition run (schedule : list nat) (s : sys) : sys :=
  fold_left step schedule s.

Definition all_returned (s : sys) : bool :=
  forallb (fun p => match p with Returned => true | _ => false end) (s_tasks s).

End Lifecycle.

(** ** Edge proxy ([api/proxy.py]; [api/api_proxy.py] differs by the name
    of the compute tier only) *)

Module Proxy.

(** How a call of the HTTP client ends badly: the two exceptions the
    fast forward catches by name, and any other. *)
Inductive failure : Type := ConnectError | ReadTimeout | OtherError.

(** An answer of the compute tier: its status and its body, [None] when
    the body is not JSON ([r.json()] raises). *)
Record reply : Type := Reply { status_code : Z; json : option str }.

Inductive outcome : Type :=
| Answered (r : reply)
| Failed (f : failure).

Inductive request : Type :=
| GetExtract (timeout : Z)
| PostWake
| GetHealth.

(** The compute tier as the proxy meets it: the outcome of the [n]-th
    request the proxy sends. *)
Definition tier := nat -> request -> outcome.

Record config : Type := Config {
  RAILWAY_URL : option str;
  SUGGESTED_RETRY_AFTER : Z;
  MAX_BLOCK_WAIT : Z
}.

Inductive content : Type :=
| Relayed (body : str)
| Waking (message : str).

(** What the client receives. *)
Inductive client_response : Type :=
| JSONResponse (status : Z) (c : content) (headers : list (str * str))
| HTTPException (status : Z) (detail : str)
| Unhandled (f : option failure).   (* an exception left the handler: the framework answers 500 *)

Definition waking_response (cfg : config) : client_response :=
  JSONResponse 202
    (Waking (py "Railway is starting. Retry after "
             ++ str_of_Z (SUGGESTED_RETRY_AFTER cfg) ++ py " seconds."))
    [(py "Retry-After", str_of_Z (SUGGESTED_RETRY_AFTER cfg))].

Section Handler.

Variable cfg : config.
Variable compute : tier.

(** The [while] loop of the blocking wait; [n] counts the requests
    sent so far.  [fuel] bounds the number of turns. *)
Fixpoint poll (fuel : nat) (total_waited : Z) (n : nat) : client_response :=
  match fuel with
  | O => waking_response cfg
  | S fuel' =>
      if total_waited <? MAX_BLOCK_WAIT cfg then
        let total_waited := total_waited + 2 in
        match compute n GetHealth with
        | Answered r2 =>
            if status_code r2 =? 200 then
              match compute (S n) (GetExtract 30) with
              | Answered r3 =>
                  match json r3 with
                  | Some body => JSONResponse (status_code r3) (Relayed body) []
                  | None => poll fuel' total_waited (S (S n))
                  end
              | Failed _ => poll fuel' total_waited (S (S n))
              end
            else poll fuel' total_waited (S n)
        | Failed _ => poll fuel' total_waited (S n)
        end
      else waking_response cfg
  end.

(** Turns the loop can take from [total_waited]. *)
Definition turns (total_waited : Z) : nat :=
  Z.to_nat ((MAX_BLOCK_WAIT cfg - total_waited + 1) / 2).

Definition proxy_get (url : option str) (force wait : bool) : client_response :=
  if negb (truthy (RAILWAY_URL cfg))
  then HTTPException 500 (py "RAILWAY_SERVICE_URL not configured")
  else if negb (truthy url)
  then HTTPException 400 (py "Missing 'url' query parameter")
  else
    let after_wake :=
      (* [post_wake] is the request of rank 1; how it ends is ignored *)
      if wait then poll (turns 0) 0 2 else waking_response cfg in
    match compute 0%nat (GetExtract 8) with
    | Failed OtherError => Unhandled (Some OtherError)
    | Failed _ => after_wake
    | Answered r =>
        if status_code r =? 200 then
          match json r with
          | Some body => JSONResponse 200 (Relayed body) []
          | None => Unhandled None
          end
        else after_wake
    end.

End Handler.

End Proxy.

(** ** Specification-side definitions *)

(** [u] spells one of the units B, KB, MB, GB, in any letter case; the
    power of 1024 it stands for. *)
Definition unit_exp (u : str) : option nat :=
  if str_eqb (upper u) (py "B") then Some 0%nat
  else if str_eqb (upper u) (py "KB") then Some 1%nat
  else if str_eqb (upper u) (py "MB") then Some 2%nat
  else if str_eqb (upper u) (py "GB") then Some 3%nat
  else None.

(** A recognizable size: a run of digits, dots and commas, then white
    space or none, then a unit. *)
Definition recognizable (text : str) : Prop :=
  exists pre num ws u post,
    text = pre ++ num ++ ws ++ u ++ post
    /\ num <> []
    /\ forallb is_numch num = true
    /\ forallb is_space ws = true
    /\ unit_exp u <> None.

(** [v * 1024 * ... * 1024], [k] factors, as the source multiplies. *)
Fixpoint scale (v : float) (k : nat) : float :=
  match k with
  | O => v
  | S k' => fmul (scale v k') (float_of_Z 1024)
  end.

Definition int_result (v : float) : res (option Z) :=
  match py_int v with
  | Ok n => Ok (Some n)
  | Raise e => Raise e
  end.

(** The labels in the order the design gives them priority. *)
Definition priority : list label := [FSLv2; FSL; L10Gbps; PixelServer; Telegram].

(** The marker of each label on the requests path. *)
Definition marker_requests (text : str) (l : label) : bool :=
  match l with
  | FSLv2 => contains (py "FSLv2") text
  | FSL => contains (py "FSL Server") text
           || (contains (py "FSL") text && negb (contains (py "FSLv2") text))
  | L10Gbps => contains (py "10Gbps") text
  | PixelServer => contains (py "PixelServer") text
  | Telegram => contains (py "Telegram") text
  end.

(** The marker of each label on the browser path. *)
Definition marker_browser (text : str) (l : label) : bool :=
  match l with
  | FSLv2 => contains (py "FSLv2") text
  | FSL => contains (py "FSL Server") text
  | L10Gbps => contains (py "10Gbps") text
  | PixelServer => contains (py "PixelServer") text
  | Telegram => contains (py "Telegram") text
  end.

Definition requests_label (a : anchor) : option label :=
  option_map fst (classify_requests a).

Definition browser_label (a : anchor) : option label :=
  match classify_browser a with
  | BSkip => None
  | BAssign l _ => Some l
  | BResolve10 _ => Some L10Gbps
  end.

(** The two classifications agree on an anchor: same label and same
    rewritten address, the browser path resolving a [10Gbps] address
    further. *)
Definition same_classification (a : anchor) : Prop :=
  match classify_requests a, classify_browser a with
  | None, BSkip => True
  | Some (L10Gbps, v), BResolve10 h => v = h
  | Some (l, v), BAssign l' v' => l = l' /\ v = v'
  | _, _ => False
  end.

(** The text settles the [FSL] label the same way on both paths. *)
Definition fsl_settled (text : str) : bool :=
  contains (py "FSLv2") text
  || contains (py "FSL Server") text
  || negb (contains (py "FSL") text).

(** No white space and no quote in an address. *)
Definition plain_href (o : option str) : bool :=
  match o with
  | Some h => forallb (fun c => negb (stop_space_quote c)) h
  | None => true
  end.

(** Every key of the cache is a canonical address: stripped, not empty. *)
Definition canonical_keys (c : gmap str cached) : Prop :=
  forall k e, c !! k = Some e -> strip k = k /\ k <> [].

(** The events of [w'] that [w] does not have. *)
Definition new_events (w w' : world) : list event :=
  skipn (length (trace w)) (trace w').

Definition is_get (e : event) : bool :=
  match e with EvGet _ => true | _ => false end.

Definition is_launch (e : event) : bool :=
  match e with EvLaunch _ => true | _ => false end.

Definition is_navigate (e : event) : bool :=
  match e with EvNavigate _ => true | _ => false end.

(** [v] holds the integer [V] without rounding. *)
Definition exact (v : float) (V : Z) : Prop :=
  exists u, -1074 <= u <= 0 /\ v = Fin (V * 2 ^ (- u)) u.

(** The class of a count written with thousands separators. *)
Definition is_count_ch (c : ascii) : bool := is_digit c || Ascii.eqb c comma.

(** Neither white space nor a quote. *)
Definition plain_ch (c : ascii) : bool := negb (stop_space_quote c).

Definition anchor_fsl : anchor :=
  Anchor (py "Download [FSL]") (Some (py "https://hub.example/f1")).

Definition anchor_quote : anchor :=
  Anchor (py "Telegram") (Some (py "https://t.me/file'x")).

(** The markers that introduce a token. *)
Definition markers : list str :=
  [py "/foo/"; py "/re2/"; py "?r="; py "&r="; py "id="].

(** The intermediate address of the design's example, and its target. *)
Definition example_token : str := py "aHR0cHM6Ly90Lm1lL2NoYW5uZWwvMTIz".
Definition example_href : str := py "https://gamerxyt.com/?r=" ++ example_token.
Definition example_target : str := py "https://t.me/channel/123".

(** A string [strip] leaves alone at its left end. *)
Definition lstripped (s : str) : Prop :=
  match s with
  | [] => True
  | c :: _ => is_space c = false
  end.

(** [s] is [u] without its leading and trailing white space: [u] is [s]
    between two runs of white space, and [s] neither begins nor ends
    with white space. *)
Definition stripped_of (u s : str) : Prop :=
  exists l r,
    u = l ++ s ++ r
    /\ forallb is_space l = true /\ forallb is_space r = true
    /\ lstripped s /\ lstripped (rev s).

(** Every run of [m] relates the world before to the world after by [R]. *)
Definition preserves {A} (R : world -> world -> Prop) (m : M A) : Prop :=
  forall w, R w (snd (m w)).

(** The cache file and its access rights are left alone. *)
Definition same_store (w w' : world) : Prop :=
  cache_file w' = cache_file w /\ cache_writable w' = cache_writable w.

Definition launches (t : list event) : nat := length (List.filter is_launch t).

Definition navigations (t : list event) : nat := length (List.filter is_navigate t).

(** The engine is left as it is: the flag keeps its value, no start is
    attempted, and a sleeping engine is not asked for a page. *)
Definition engine_untouched (w w' : world) : Prop :=
  started w' = started w
  /\ launches (trace w') = launches (trace w)
  /\ engines_created (trace w') = engines_created (trace w)
  /\ (started w = false -> navigations (trace w') = navigations (trace w)).

(** The cache file is missing or unreadable, or holds a JSON object. *)
Definition object_store (w : world) : bool :=
  match cache_file w with
  | None | Some (JObject _) => true
  | Some _ => false
  end.

(** With the engine running, the flag stays set and no engine start is
    attempted. *)
Definition running_kept (w w' : world) : Prop :=
  started w = true ->
  started w' = true
  /\ launches (trace w') = launches (trace w)
  /\ engines_created (trace w') = engines_created (trace w).

(** What [load_cache] returns. *)
Definition cache_of (w : world) : json_top :=
  match cache_file w with Some j => j | None => JObject ∅ end.

(** What the cache holds, as [load_cache] reads it (nothing when the
    file holds no object). *)
Definition loaded (w : world) : gmap str cached :=
  match cache_file w with Some (JObject c) => c | _ => ∅ end.


(** Every value [m] returns satisfies [Q]. *)
Definition returns {A} (Q : A -> Prop) (m : M A) : Prop :=
  forall w a w', m w = (Ok a, w') -> Q a.


(** A page of the kind the pipeline is written for, and a network that
    serves it. *)
Definition demo_url : str := py "https://hubcloud.example/drive/abc".

Definition demo_redirector : str := py "https://bloggingvector.shop/foo/xyz".

Definition demo_doc : document :=
  Document (py "<html>...</html>") true
    (Some (py "Some.Movie.2024.mkv")) (Some (py "HubCloud"))
    (Some (py "1.5 GB")) (Some (py "video/x-matroska"))
    [Anchor (py "Download [FSLv2 Server]") (Some (py "https://fsl.example/f/1"));
     Anchor (py "Download From Telegram") (Some demo_redirector)].

Definition empty_doc : document := Document [] true None None None None [].

Definition demo_net : oracle :=
  Oracle
    (fun _ url =>
       if str_eqb url demo_url
       then Some (HeadInfo (Some (py "text/html")) None 200) else None)
    (fun _ url =>
       if str_eqb url demo_url then Some (Response 200 demo_url demo_doc)
       else if str_eqb url demo_redirector
       then Some (Response 200 example_href empty_doc)
       else None)
    (fun _ => true)
    (fun _ => true)
    (fun _ _ => None)
    (fun _ => true).

Definition demo_entry : entry :=
  Entry
    (Meta demo_url (py "Some.Movie.2024.mkv") (Some (py "text/html"))
       (Some (py "1610612736")))
    [(FSLv2, Some (py "https://fsl.example/f/1")); (Telegram, Some demo_redirector)]
    [ustr_of example_target].

(** An empty, writable cache and a sleeping engine. *)
Definition world0 : world := World None true false [].

Definition world_cached : world :=
  World (Some (JObject (<[demo_url := Stored demo_entry]> ∅))) true false [].


(** The metadata probe fails at moment [n] on [url]: the request raises,
    or the answer has a 4xx or 5xx status. *)
Definition metadata_probe_fails (net : oracle) (n : nat) (url : str) : Prop :=
  match http_get net n url with
  | None => True
  | Some r => is_error_status (r_status r) = true
  end.

(** A network on which nothing answers. *)
Definition down_net : oracle :=
  Oracle (fun _ _ => None) (fun _ _ => None) (fun _ => false)
    (fun _ => false) (fun _ _ => None) (fun _ => false).

(** Two callers, the second one running while the first is suspended. *)
Definition racing_schedule : list nat := [0; 1; 0; 0; 1; 1]%nat.

(** Two callers, one after the other. *)
Definition serial_schedule : list nat := [0; 0; 0; 1]%nat.

(** A caller that has returned has seen the flag set. *)
Definition returned_sees_started (s : Lifecycle.sys) : Prop :=
  In Lifecycle.Returned (Lifecycle.s_tasks s) -> Lifecycle.s_started s = true.


(** The proxy hands the client an error: a status of 500 or more, or an
    exception that left the handler. *)
Definition surfaces_error (r : Proxy.client_response) : bool :=
  match r with
  | Proxy.JSONResponse s _ _ => 500 <=? s
  | Proxy.HTTPException s _ => 500 <=? s
  | Proxy.Unhandled _ => true
  end.

Definition demo_cfg : Proxy.config := Proxy.Config (Some (py "https://compute.example")) 30 20.

(** A compute tier that is down at first, answers the first health poll,
    and then fails the extraction with a 500. *)
Definition tier_500 : Proxy.tier :=
  fun n req =>
    match n, req with
    | 0%nat, _ => Proxy.Failed Proxy.ReadTimeout
    | 1%nat, _ => Proxy.Answered (Proxy.Reply 202 (Some (py "[202]")))
    | 2%nat, _ => Proxy.Answered (Proxy.Reply 200 (Some (py "[200]")))
    | _, _ => Proxy.Answered (Proxy.Reply 500 (Some (py "[500]")))
    end.

(** A compute tier that never answers. *)
Definition tier_down : Proxy.tier := fun _ _ => Proxy.Failed Proxy.ConnectError.

(** A compute tier the connection to which times out
    ([httpx.ConnectTimeout], neither a [ConnectError] nor a
    [ReadTimeout]). *)
Definition tier_timeout : Proxy.tier := fun _ _ => Proxy.Failed Proxy.OtherError.

(** A cache file that cannot be written. *)
Definition world_readonly : world := World None false false [].

(** An address with white space around it, and a cache file (not one
    the pipeline wrote) that has it as a key. *)
Definition padded_url : str := py "  https://hubcloud.example/drive/abc ".

Definition world_padded : world :=
  World (Some (JObject (<[padded_url := Foreign (py "1")]> ∅))) true false [].

(** A cache file (not one the pipeline wrote) that has the empty string
    as a key. *)
Definition world_blank_key : world :=
  World (Some (JObject (<[[] := Foreign (py "1")]> ∅))) true false [].

(** The answer to a re-issued extraction is relayed as it is. *)
Definition relays_reissued (compute : Proxy.tier) (r : Proxy.client_response) : Prop :=
  exists n r2 r3 body,
    compute n Proxy.GetHealth = Proxy.Answered r2
    /\ Proxy.status_code r2 = 200
    /\ compute (S n) (Proxy.GetExtract 30) = Proxy.Answered r3
    /\ Proxy.json r3 = Some body
    /\ r = Proxy.JSONResponse (Proxy.status_code r3) (Proxy.Relayed body) [].

(** The fast forward ends in one of the ways the handler provides for. *)
Definition fast_forward_handled (compute : Proxy.tier) : Prop :=
  match compute 0%nat (Proxy.GetExtract 8) with
  | Proxy.Failed Proxy.OtherError => False
  | Proxy.Failed _ => True
  | Proxy.Answered r => Proxy.status_code r = 200 -> Proxy.json r <> None
  end.

(** The base64 alphabet. *)
Definition b64_char (v : Z) : ascii :=
  if v <? 26 then ascii_of_nat (Z.to_nat (v + 65))
  else if v <? 52 then ascii_of_nat (Z.to_nat (v - 26 + 97))
  else if v <? 62 then ascii_of_nat (Z.to_nat (v - 52 + 48))
  else if v =? 62 then "+"%char
  else "/"%char.

(** The standard base64 encoding of a sequence of bytes, with padding. *)
Fixpoint b64encode (bs : list Z) : str :=
  match bs with
  | [] => []
  | [b0] =>
      [b64_char (b0 / 4); b64_char ((b0 mod 4) * 16); "="%char; "="%char]
  | [b0; b1] =>
      [b64_char (b0 / 4); b64_char ((b0 mod 4) * 16 + b1 / 16);
       b64_char ((b1 mod 16) * 4); "="%char]
  | b0 :: b1 :: b2 :: r =>
      b64_char (b0 / 4) :: b64_char ((b0 mod 4) * 16 + b1 / 16)
      :: b64_char ((b1 mod 16) * 4 + b2 / 64) :: b64_char (b2 mod 64)
      :: b64encode r
  end.

Definition is_byte (b : Z) : bool := (0 <=? b) && (b <? 256).

(** A character of the ASCII range. *)
Definition is_ascii (c : ascii) : bool := code c <? 128.

(** The bytes of an ASCII text. *)
Definition ascii_bytes (t : str) : list Z := map code t.

(** The checks on which the round trip rests, over all the values they
    concern. *)
Definition zrange (n : nat) : list Z := map Z.of_nat (seq 0 n).

Definition check_alphabet : bool :=
  forallb (fun v => match b64_value (b64_char v) with
                    | Some v' => (v' =? v) && is_tokch (b64_char v)
                                 && negb (Ascii.eqb (b64_char v) "="%char)
                    | None => false
                    end) (zrange 64).

Definition check_second : bool :=
  forallb (fun b0 =>
    forallb (fun x =>
      let v1 := (b0 mod 4) * 16 + x in
      (byte_of (Z.lor (Z.shiftl (b0 / 4) 2) (Z.shiftr v1 4)) =? b0)
      && (Z.land v1 15 =? x)) (zrange 16)) (zrange 256).

Definition check_third : bool :=
  forallb (fun b1 =>
    forallb (fun y =>
      let v2 := (b1 mod 16) * 4 + y in
      (byte_of (Z.lor (Z.shiftl (b1 / 16) 4) (Z.shiftr v2 2)) =? b1)
      && (Z.land v2 3 =? y)) (zrange 4)) (zrange 256).

Definition check_fourth : bool :=
  forallb (fun b2 =>
    byte_of (Z.lor (Z.shiftl (b2 / 64) 6) (b2 mod 64)) =? b2) (zrange 256).

(** ** Definitions for the further properties *)

(** The trace only grows. *)
Definition trace_extends (w w' : world) : Prop :=
  exists evs, trace w' = trace w ++ evs.

(** The engine flag, once set, stays set. *)
Definition started_kept (w w' : world) : Prop :=
  started w = true -> started w' = true.

(** A run of calls of [process_single_url], one after the other; the
    results are dropped, the world is handed on. *)
Definition run_calls (net : oracle) (calls : list (str * bool)) (w : world) : world :=
  fold_left (fun w c => snd (process_single_url net (fst c) (snd c) w)) calls w.

(** Every exception [m] raises satisfies [P]. *)
Definition raises_only {A} (P : exn -> Prop) (m : M A) : Prop :=
  forall w e w', m w = (Raise e, w') -> P e.

(** [d.get(k)] on a dict of links. *)
Fixpoint dict_get (k : label) (d : links_t) : option (option str) :=
  match d with
  | [] => None
  | (k', v) :: d' => if label_eqb k k' then Some v else dict_get k d'
  end.

(** The value the requests loop leaves under [l]: that of the last anchor
    given the label [l], if there is one. *)
Definition last_assigned (l : label) (bs : list anchor) : option (option str) :=
  fold_left
    (fun acc a =>
       match classify_requests a with
       | Some (l', v) => if label_eqb l l' then Some (Some v) else acc
       | None => acc
       end) bs None.

(** No exception at all. *)
Definition no_exn : exn -> Prop := fun _ => False.

(** The match of [/u/([A-Za-z0-9]+)] at the head of [s]: group 1, or
    nothing. *)
Definition pixel_at (s : str) : str :=
  if startswith (py "/u/") s then fst (span is_alnum (skipn 3 s)) else [].

(** The standard base64 encoding without its padding. *)
Fixpoint b64encode_nopad (bs : list Z) : str :=
  match bs with
  | [] => []
  | [b0] => [b64_char (b0 / 4); b64_char ((b0 mod 4) * 16)]
  | [b0; b1] =>
      [b64_char (b0 / 4); b64_char ((b0 mod 4) * 16 + b1 / 16);
       b64_char ((b1 mod 16) * 4)]
  | b0 :: b1 :: b2 :: r =>
      b64_char (b0 / 4) :: b64_char ((b0 mod 4) * 16 + b1 / 16)
      :: b64_char ((b1 mod 16) * 4 + b2 / 64) :: b64_char (b2 mod 64)
      :: b64encode_nopad r
  end.

(** A finite value is not negative. *)
Definition fin_nonneg (v : float) : Prop :=
  match v with
  | Fin m _ => 0 <= m
  | Inf => True
  end.

(** ** Endpoints of the compute tier *)

(** The JSON bodies the endpoints send. *)
Inductive body : Type :=
| BStatus (status : str) (message : option str)
| BResult (url : str) (e : cached).

(** The [detail] of an HTTPException: a text, or [str(e)]. *)
Inductive detail : Type :=
| DetailText (s : str)
| DetailOf (e : exn).

Inductive http_answer : Type :=
| JSONResponse (status_code : Z) (content : body)
| HTTPException (status_code : Z) (d : detail).

(** The process: its world, and the engine starts handed to
    [asyncio.create_task] that have not run yet. *)
Record server : Type := Server { sv_world : world; sv_tasks : nat }.

Definition health (s : server) : http_answer :=
  if started (sv_world s)
  then JSONResponse 200 (BStatus (py "ready") None)
  else JSONResponse 503 (BStatus (py "sleeping") None).

Definition wake_background (s : server) : http_answer * server :=
  (JSONResponse 202 (BStatus (py "waking") None),
   Server (sv_world s) (S (sv_tasks s))).

Definition waking_message : str :=
  py "Railway instance is waking. Retry the request after ~30s.".

Definition api_hubcloud (net : oracle) (url : option str) (force : option bool)
    (s : server) : http_answer * server :=
  match url with
  | None | Some [] =>
      (HTTPException 400 (DetailText (py "Missing 'url' query parameter")), s)
  | Some u =>
      match process_single_url net u (match force with Some b => b | None => false end)
              (sv_world s) with
      | (Ok (k, e), w') => (JSONResponse 200 (BResult k e), Server w' (sv_tasks s))
      | (Raise ex, w') =>
          if negb (started w')
          then (JSONResponse 202 (BStatus (py "waking") (Some waking_message)),
                Server w' (S (sv_tasks s)))
          else (HTTPException 500 (DetailOf ex), Server w' (sv_tasks s))
      end
  end.

(** A task created by [asyncio.create_task] gets its turn and runs
    [ensure_playwright_started] to its end, no other coroutine coming in
    between; what it raises is lost. *)
Definition run_task (net : oracle) (s : server) : server :=
  match sv_tasks s with
  | O => s
  | S n => Server (snd (ensure_playwright_started net (sv_world s))) n
  end.

(** Callers that have not returned yet. *)
Definition unreturned (l : list Lifecycle.point) : nat :=
  length (List.filter
            (fun p => match p with Lifecycle.Returned => false | _ => true end) l).

(** [n] callers that all test the flag before any of them sets it, then
    all start a driver, then all launch a browser. *)
Definition all_racing (n : nat) : list nat := seq 0 n ++ seq 0 n ++ seq 0 n.

(** [n] callers, each one running to its return before the next is
    called. *)
Definition one_by_one (n : nat) : list nat :=
  flat_map (fun i => [i; i; i]) (seq 0 n).

(** What holds of the engine in every reachable state. *)
Definition engine_invariant (s : Lifecycle.sys) : Prop :=
  (Lifecycle.s_browsers s + unreturned (Lifecycle.s_tasks s)
     <= length (Lifecycle.s_tasks s))%nat
  /\ (Lifecycle.s_started s = true ->
      Lifecycle.s_browser s = Some (Lifecycle.s_browsers s)
      /\ (1 <= Lifecycle.s_browsers s)%nat)
  /\ (Lifecycle.s_started s = false -> Lifecycle.s_browsers s = 0%nat).

(** A health poll that does not show the compute tier ready: an answer
    other than 200, or an exception. *)
Definition health_down (o : Proxy.outcome) : Prop :=
  match o with
  | Proxy.Answered r => Proxy.status_code r <> 200
  | Proxy.Failed _ => True
  end.

(** The fast forward finds the compute tier unavailable: an answer other
    than 200, a connect error or a read timeout. *)
Definition fast_forward_unavailable (compute : Proxy.tier) : Prop :=
  match compute 0%nat (Proxy.GetExtract 8) with
  | Proxy.Failed Proxy.OtherError => False
  | Proxy.Failed _ => True
  | Proxy.Answered r => Proxy.status_code r <> 200
  end.

(** Two compute tiers that answer the first [k] requests alike. *)
Definition agree_before (k : nat) (c1 c2 : Proxy.tier) : Prop :=
  forall n req, (n < k)%nat -> c1 n req = c2 n req.

(** A compute tier that times out, then sleeps through three health
    polls, is ready at the fourth and answers the extraction. *)
Definition tier_slow : Proxy.tier :=
  fun n req =>
    match n with
    | 0%nat => Proxy.Failed Proxy.ReadTimeout
    | 1%nat => Proxy.Answered (Proxy.Reply 202 (Some (py "[202]")))
    | 2%nat => Proxy.Failed Proxy.ConnectError
    | 3%nat | 4%nat => Proxy.Answered (Proxy.Reply 503 (Some (py "[503]")))
    | 5%nat => Proxy.Answered (Proxy.Reply 200 (Some (py "[200]")))
    | _ => Proxy.Answered (Proxy.Reply 200 (Some (py "[result]")))
    end.

(** [tier_500] up to the request of rank 22, failing afterwards. *)
Definition tier_500_cut : Proxy.tier :=
  fun n req =>
    if (n <? 22)%nat then tier_500 n req else Proxy.Failed Proxy.OtherError.

(** * Properties *)

(** ** Strings *)

Lemma span_spec f s a b :
  span f s = (a, b) -> s = a ++ b /\ forallb f a = true.
Proof.
  revert a b. induction s as [|c s IH]; intros a b H; simpl in H.
  - inversion H. auto.
  - destruct (f c) eqn:Hc.
    + destruct (span f s) as [a' b'] eqn:Hs. inversion H; subst.
      destruct (IH a' b eq_refl) as [-> Hall]. split; [reflexivity|].
      simpl. rewrite Hc. exact Hall.
    + inversion H; subst. auto.
Qed.

Lemma span_stop f s a b :
  span f s = (a, b) -> match b with [] => True | c :: _ => f c = false end.
Proof.
  revert a b. induction s as [|c s IH]; intros a b H; simpl in H.
  - inversion H. exact I.
  - destruct (f c) eqn:Hc.
    + destruct (span f s) as [a' b'] eqn:Hs. inversion H; subst.
      apply (IH a' b eq_refl).
    + inversion H; subst. exact Hc.
Qed.

Lemma span_app f a b :
  forallb f a = true ->
  match b with [] => True | c :: _ => f c = false end ->
  span f (a ++ b) = (a, b).
Proof.
  intros Ha Hb. induction a as [|c a IH]; simpl in *.
  - destruct b as [|c b]; simpl; [reflexivity|]. rewrite Hb. reflexivity.
  - apply andb_true_iff in Ha as [Hc Ha]. rewrite Hc, (IH Ha). reflexivity.
Qed.

Lemma eqb_nocase_upper a b : eqb_nocase a b = true -> upper_char b = upper_char a.
Proof. unfold eqb_nocase. intros H. apply Ascii.eqb_eq in H. congruence. Qed.

Lemma startswith_nocase_2 a b s :
  startswith_nocase [a; b] s = true ->
  exists c1 c2 post, s = c1 :: c2 :: post
    /\ upper_char c1 = upper_char a /\ upper_char c2 = upper_char b.
Proof.
  destruct s as [|c1 [|c2 post]]; simpl; intros H; try discriminate.
  - apply andb_true_iff in H as [_ H]. discriminate.
  - apply andb_true_iff in H as [H1 H2]. apply andb_true_iff in H2 as [H2 _].
    exists c1, c2, post. auto using eqb_nocase_upper.
Qed.

Lemma startswith_nocase_1 a s :
  startswith_nocase [a] s = true ->
  exists c1 post, s = c1 :: post /\ upper_char c1 = upper_char a.
Proof.
  destruct s as [|c1 post]; simpl; intros H; try discriminate.
  apply andb_true_iff in H as [H1 _].
  exists c1, post. auto using eqb_nocase_upper.
Qed.

Lemma unit_exp_upper u v : upper u = upper v -> unit_exp u = unit_exp v.
Proof. unfold unit_exp. intros ->. reflexivity. Qed.

Lemma match_unit_spec s u :
  match_unit s = Some u -> exists post, s = u ++ post /\ unit_exp u <> None.
Proof.
  unfold match_unit. intros H.
  destruct (startswith_nocase (py "GB") s) eqn:E1;
    [|destruct (startswith_nocase (py "MB") s) eqn:E2;
      [|destruct (startswith_nocase (py "KB") s) eqn:E3;
        [|destruct (startswith_nocase (py "B") s) eqn:E4; [|discriminate]]]].
  1-3: match goal with E : startswith_nocase _ _ = true |- _ =>
         apply startswith_nocase_2 in E as (c1 & c2 & post & -> & H1 & H2) end;
       inversion H; subst; exists post; split; [reflexivity|];
       unfold unit_exp, upper; cbn [map firstn]; rewrite H1, H2; vm_compute; discriminate.
  apply startswith_nocase_1 in E4 as (c1 & post & -> & H1).
  inversion H; subst; exists post; split; [reflexivity|].
  unfold unit_exp, upper; cbn [map firstn]; rewrite H1; vm_compute; discriminate.
Qed.

Lemma size_match_at_spec s g1 g2 :
  size_match_at s = Some (g1, g2) ->
  exists ws post, s = g1 ++ ws ++ g2 ++ post
    /\ g1 <> [] /\ forallb is_numch g1 = true
    /\ forallb is_space ws = true /\ unit_exp g2 <> None.
Proof.
  unfold size_match_at. intros H.
  destruct (span is_numch s) as [num r] eqn:E1.
  destruct num as [|c num]; [discriminate|].
  destruct (span is_space r) as [ws r'] eqn:E2.
  destruct (match_unit r') as [u|] eqn:E3; [|discriminate].
  inversion H; subst.
  apply span_spec in E1 as [-> Hn]. apply span_spec in E2 as [-> Hw].
  apply match_unit_spec in E3 as (post & -> & Hu).
  exists ws, post. repeat split; auto; discriminate.
Qed.

Lemma size_search_recognizable s g1 g2 :
  size_search s = Some (g1, g2) -> recognizable s.
Proof.
  induction s as [|c s IH]; simpl; intros H.
  - destruct (size_match_at []) as [[a b]|] eqn:E; [|discriminate].
    vm_compute in E. discriminate.
  - destruct (size_match_at (c :: s)) as [[a b]|] eqn:E.
    + inversion H; subst.
      apply size_match_at_spec in E as (ws & post & E & ? & ? & ? & ?).
      exists [], g1, ws, g2, post. rewrite E. auto.
    + destruct (IH H) as (pre & num & ws & u & post & -> & ?).
      exists (c :: pre), num, ws, u, post. auto.
Qed.

Lemma parse_size_unrecognizable text :
  ~ recognizable text -> parse_size_from_text text = Ok None.
Proof.
  intros Hn. unfold parse_size_from_text.
  destruct text as [|c t]; [reflexivity|].
  destruct (size_search (c :: t)) as [[g1 g2]|] eqn:E; [|reflexivity].
  exfalso. apply Hn. eapply size_search_recognizable; eauto.
Qed.

Lemma str_eqb_eq a b : str_eqb a b = true <-> a = b.
Proof.
  revert b. induction a as [|x a IH]; destruct b as [|y b]; simpl;
    try (split; [discriminate|congruence]); [tauto|].
  rewrite andb_true_iff, Ascii.eqb_eq, IH. split; [intros [-> ->]|intros [= -> ->]]; auto.
Qed.

Lemma upper_letter_not_class c x :
  upper_char c = x -> is_upper_az x = true ->
  is_numch c = false /\ is_space c = false.
Proof.
  intros <-.
  destruct c as [[] [] [] [] [] [] [] []]; vm_compute; intros; first [discriminate | auto].
Qed.

(** The shapes of a unit. *)
Lemma unit_exp_shape u k :
  unit_exp u = Some k ->
  (exists c, u = [c] /\ upper_char c = "B"%char /\ k = 0%nat)
  \/ (exists c1 c2 x, u = [c1; c2] /\ upper_char c1 = x /\ upper_char c2 = "B"%char
        /\ ((x = "K"%char /\ k = 1%nat) \/ (x = "M"%char /\ k = 2%nat)
            \/ (x = "G"%char /\ k = 3%nat))).
Proof.
  unfold unit_exp. intros H.
  destruct (str_eqb (upper u) (py "B")) eqn:E0;
    [|destruct (str_eqb (upper u) (py "KB")) eqn:E1;
      [|destruct (str_eqb (upper u) (py "MB")) eqn:E2;
        [|destruct (str_eqb (upper u) (py "GB")) eqn:E3; [|discriminate]]]];
    inversion H; subst; clear H.
  - apply str_eqb_eq in E0. left. destruct u as [|c [|? ?]]; try discriminate.
    inversion E0. eauto.
  - apply str_eqb_eq in E1. right. destruct u as [|c1 [|c2 [|? ?]]]; try discriminate.
    inversion E1. exists c1, c2, "K"%char. rewrite H0. auto 10.
  - apply str_eqb_eq in E2. right. destruct u as [|c1 [|c2 [|? ?]]]; try discriminate.
    inversion E2. exists c1, c2, "M"%char. rewrite H0. auto 10.
  - apply str_eqb_eq in E3. right. destruct u as [|c1 [|c2 [|? ?]]]; try discriminate.
    inversion E3. exists c1, c2, "G"%char. rewrite H0. auto 10.
Qed.

Lemma match_unit_complete u k post :
  unit_exp u = Some k -> match_unit (u ++ post) = Some u.
Proof.
  intros H. apply unit_exp_shape in H as [(c & -> & Hc & _)|(c1 & c2 & x & -> & H1 & H2 & Hx)].
  - unfold match_unit. cbn [app startswith_nocase list_ascii_of_string firstn].
    unfold eqb_nocase. rewrite Hc. vm_compute. reflexivity.
  - unfold match_unit. cbn [app startswith_nocase list_ascii_of_string firstn].
    unfold eqb_nocase. rewrite H1, H2.
    destruct Hx as [[-> _]|[[-> _]|[-> _]]]; vm_compute; reflexivity.
Qed.

Lemma unit_head_not_class u k :
  unit_exp u = Some k ->
  match u with [] => False | c :: _ => is_numch c = false /\ is_space c = false end.
Proof.
  intros H. apply unit_exp_shape in H as [(c & -> & Hc & _)|(c1 & c2 & x & -> & H1 & H2 & Hx)].
  - eapply upper_letter_not_class; eauto.
  - eapply upper_letter_not_class; eauto.
    destruct Hx as [[-> _]|[[-> _]|[-> _]]]; reflexivity.
Qed.

Lemma forallb_space_not_numch ws :
  forallb is_space ws = true ->
  match ws with [] => True | c :: _ => is_numch c = false end.
Proof.
  destruct ws as [|c ws]; simpl; [auto|]. intros H. apply andb_true_iff in H as [H _].
  revert H. destruct c as [[] [] [] [] [] [] [] []]; vm_compute; intros; first [discriminate | auto].
Qed.

Lemma size_match_at_complete num ws u k post :
  num <> [] -> forallb is_numch num = true -> forallb is_space ws = true ->
  unit_exp u = Some k ->
  size_match_at (num ++ ws ++ u ++ post) = Some (num, u).
Proof.
  intros Hne Hn Hw Hu. unfold size_match_at.
  pose proof (unit_head_not_class _ _ Hu) as Hh.
  rewrite (span_app is_numch num (ws ++ u ++ post) Hn).
  2:{ destruct ws as [|c ws]; simpl.
      - destruct u; [contradiction|]. simpl. tauto.
      - apply (forallb_space_not_numch (c :: ws) Hw). }
  destruct num as [|c num]; [congruence|].
  rewrite (span_app is_space ws (u ++ post) Hw).
  2:{ destruct u; [contradiction|]. simpl. tauto. }
  rewrite (match_unit_complete _ _ _ Hu). reflexivity.
Qed.

Lemma parse_size_shape num ws u k post :
  num <> [] -> forallb is_numch num = true -> forallb is_space ws = true ->
  unit_exp u = Some k ->
  parse_size_from_text (num ++ ws ++ u ++ post) =
    match py_float (remove_commas num) with
    | None => Ok None
    | Some v => int_result (scale v k)
    end.
Proof.
  intros Hne Hn Hw Hu. unfold parse_size_from_text.
  destruct (num ++ ws ++ u ++ post) as [|c0 t0] eqn:Et.
  { destruct num; [congruence|discriminate]. }
  rewrite <- Et. clear Et c0 t0.
  assert (Hs : size_search (num ++ ws ++ u ++ post) = Some (num, u)).
  { destruct num as [|c num]; [congruence|]. cbn [app size_search].
    change (c :: num ++ ws ++ u ++ post) with ((c :: num) ++ ws ++ u ++ post).
    rewrite (size_match_at_complete _ _ _ _ _ Hne Hn Hw Hu). reflexivity. }
  rewrite Hs. destruct (py_float (remove_commas num)) as [v|]; [|reflexivity].
  revert Hu. unfold unit_exp.
  destruct (str_eqb (upper u) (py "B")); [intros [= <-]; reflexivity|].
  destruct (str_eqb (upper u) (py "KB")); [intros [= <-]; reflexivity|].
  destruct (str_eqb (upper u) (py "MB")); [intros [= <-]; reflexivity|].
  destruct (str_eqb (upper u) (py "GB")); [intros [= <-]; reflexivity|].
  discriminate.
Qed.

(** ** Binary64: integers below [2^53] are held and multiplied exactly *)

Lemma round_q_exact p q V :
  0 < q -> 0 <= V < 2 ^ 53 -> p = V * q -> exact (round_q p q) V.
Proof.
  intros Hq [HV0 HV] Hp. unfold round_q, pow2.
  destruct (Z.eqb_spec p 0) as [E|E].
  { exists 0. split; [lia|]. assert (V = 0) by nia. subst V. reflexivity. }
  assert (HVpos : 0 < V) by nia.
  assert (Hppos : 0 < p) by nia.
  set (e0 := Z.log2 p - Z.log2 q).
  assert (He0 : 0 <= e0).
  { unfold e0. assert (Z.log2 q <= Z.log2 p) by (apply Z.log2_le_mono; nia). lia. }
  assert (He0' : e0 <= 53).
  { unfold e0.
    assert (Z.log2 p <= Z.log2 (q * 2 ^ 53)) by (apply Z.log2_le_mono; nia).
    rewrite Z.log2_mul_pow2 in H by lia. lia. }
  destruct (Z.leb_spec 0 e0) as [_|]; [|lia].
  set (e := if q * 2 ^ e0 <=? p then e0 else e0 - 1).
  assert (He : -1 <= e <= 52).
  { unfold e. destruct (Z.leb_spec (q * 2 ^ e0) p) as [L|L]; [|lia].
    assert (2 ^ e0 <= V) by nia.
    assert (e0 < 53); [|lia].
    apply (Z.pow_lt_mono_r_iff 2); lia. }
  set (u := Z.max (e - 52) (-1074)).
  assert (Hu : -1074 <= u <= 0) by (unfold u; lia).
  exists u. split; [exact Hu|].
  assert (Hpow : 0 < 2 ^ (- u)) by (apply Z.pow_pos_nonneg; lia).
  assert (Hnum : (if 0 <=? u then p else p * 2 ^ (- u)) = V * 2 ^ (- u) * q).
  { destruct (Z.leb_spec 0 u).
    - assert (u = 0) by lia. replace (- u) with 0 by lia. rewrite Z.pow_0_r. lia.
    - subst p. ring. }
  assert (Hden : (if 0 <=? u then q * 2 ^ u else q) = q).
  { destruct (Z.leb_spec 0 u); [|reflexivity].
    assert (u = 0) by lia. replace u with 0 by lia. rewrite Z.pow_0_r. lia. }
  rewrite Hnum, Hden.
  rewrite Z.div_mul by lia. rewrite Z.mod_mul by lia.
  destruct (Z.ltb_spec (2 * 0) q); [|lia].
  destruct (Z.leb_spec 0 u) as [L|L]; cbn [andb]; [|reflexivity].
  assert (u = 0) by lia.
  replace (V * 2 ^ (- u) * 2 ^ u) with V by (replace u with 0 by lia; simpl; lia).
  destruct (Z.leb_spec (2 ^ 1024) V) as [L'|L']; [|reflexivity].
  exfalso. assert (2 ^ 53 < 2 ^ 1024) by (apply Z.pow_lt_mono_r; lia). lia.
Qed.

Lemma fmul_exact a b V1 V2 :
  exact a V1 -> exact b V2 -> 0 <= V1 -> 0 <= V2 -> V1 * V2 < 2 ^ 53 ->
  exact (fmul a b) (V1 * V2).
Proof.
  intros (u1 & Hu1 & ->) (u2 & Hu2 & ->) H1 H2 H. unfold fmul, pow2.
  destruct (Z.leb_spec 0 (u1 + u2)).
  - assert (u1 = 0) by lia. assert (u2 = 0) by lia. subst.
    change (- 0) with 0. change (0 + 0) with 0. rewrite !Z.pow_0_r.
    apply round_q_exact; [lia| nia | ring].
  - apply round_q_exact.
    + apply Z.pow_pos_nonneg; lia.
    + nia.
    + replace (- (u1 + u2)) with (- u1 + - u2) by lia.
      rewrite Z.pow_add_r by lia. ring.
Qed.

Lemma scale_exact v V k :
  exact v V -> 0 <= V -> V * 1024 ^ Z.of_nat k < 2 ^ 53 ->
  exact (scale v k) (V * 1024 ^ Z.of_nat k).
Proof.
  intros Hv HV. induction k as [|k IH]; intros Hk.
  - change (Z.of_nat 0) with 0. rewrite Z.pow_0_r, Z.mul_1_r. exact Hv.
  - cbn [scale]. rewrite Nat2Z.inj_succ, Z.pow_succ_r in * by lia.
    replace (V * (1024 * 1024 ^ Z.of_nat k)) with (V * 1024 ^ Z.of_nat k * 1024) in * by ring.
    assert (0 < 1024 ^ Z.of_nat k) by (apply Z.pow_pos_nonneg; lia).
    apply fmul_exact; try nia.
    + apply IH. nia.
    + apply round_q_exact; [lia| |ring]. split; [lia|reflexivity].
Qed.

Lemma py_int_exact v V : exact v V -> py_int v = Ok V.
Proof.
  intros (u & Hu & ->). unfold py_int, pow2. f_equal.
  destruct (Z.leb_spec 0 u).
  - assert (u = 0) by lia. subst. simpl. lia.
  - apply Z.div_mul. assert (0 < 2 ^ (- u)) by (apply Z.pow_pos_nonneg; lia). lia.
Qed.

(** ** Size parsing *)

Lemma digit_val_range c : is_digit c = true -> 0 <= digit_val c <= 9.
Proof.
  unfold is_digit, digit_val. intros H. apply andb_true_iff in H as [H1 H2].
  apply Z.leb_le in H1, H2. lia.
Qed.

Lemma digits_val_nonneg ds acc :
  forallb is_digit ds = true -> 0 <= acc -> 0 <= digits_val acc ds.
Proof.
  revert acc. induction ds as [|c ds IH]; simpl; intros acc H Ha; [exact Ha|].
  apply andb_true_iff in H as [Hc Hd]. apply IH; [exact Hd|].
  pose proof (digit_val_range c Hc). lia.
Qed.

Lemma py_float_digits ds :
  ds <> [] -> forallb is_digit ds = true ->
  py_float ds = Some (round_q (digits_val 0 ds) 1).
Proof.
  intros Hne Hd. unfold py_float.
  pose proof (span_app is_digit ds [] Hd I) as Hs. rewrite app_nil_r in Hs.
  rewrite Hs. destruct ds; [congruence|reflexivity].
Qed.

Lemma remove_commas_digits num :
  forallb is_count_ch num = true -> forallb is_digit (remove_commas num) = true.
Proof.
  unfold remove_commas. induction num as [|c num IH]; simpl; [reflexivity|].
  intros H. apply andb_true_iff in H as [Hc Hn]. unfold is_count_ch in Hc.
  destruct (Ascii.eqb c comma) eqn:E; simpl; [auto|].
  rewrite orb_false_r in Hc. rewrite Hc. auto.
Qed.

Lemma count_ch_numch num :
  forallb is_count_ch num = true -> forallb is_numch num = true.
Proof.
  induction num as [|c num IH]; simpl; [reflexivity|].
  intros H. apply andb_true_iff in H as [Hc Hn]. rewrite (IH Hn), andb_true_r.
  unfold is_count_ch in Hc. unfold is_numch.
  destruct (is_digit c); [reflexivity|]. simpl in *. rewrite Hc. apply orb_true_r.
Qed.

Lemma remove_commas_nonempty num : remove_commas num <> [] -> num <> [].
Proof. intros H ->. apply H. reflexivity. Qed.

(** A whole number of units below [2^53] bytes is computed without any
    rounding: the result is the count times the power of 1024. *)
Lemma parse_size_integer num ws u k post :
  forallb is_count_ch num = true -> remove_commas num <> [] ->
  forallb is_space ws = true -> unit_exp u = Some k ->
  digits_val 0 (remove_commas num) * 1024 ^ Z.of_nat k < 2 ^ 53 ->
  parse_size_from_text (num ++ ws ++ u ++ post)
  = Ok (Some (digits_val 0 (remove_commas num) * 1024 ^ Z.of_nat k)).
Proof.
  intros Hc Hne Hw Hu Hb.
  rewrite (parse_size_shape num ws u k post
             (remove_commas_nonempty _ Hne) (count_ch_numch _ Hc) Hw Hu).
  pose proof (remove_commas_digits _ Hc) as Hd.
  rewrite (py_float_digits _ Hne Hd).
  pose proof (digits_val_nonneg _ 0 Hd ltac:(lia)) as Hn.
  set (n := digits_val 0 (remove_commas num)) in *.
  assert (Hp : 0 < 1024 ^ Z.of_nat k) by (apply Z.pow_pos_nonneg; lia).
  assert (Hx : exact (round_q n 1) n).
  { apply round_q_exact; [lia| |ring]. split; [lia|nia]. }
  unfold int_result.
  rewrite (py_int_exact _ _ (scale_exact _ _ k Hx Hn Hb)). reflexivity.
Qed.

(** C6. [parse_size_from_text] maps "1.5 GB" to 1610612736, "500 KB" to
    512000 and "10B" to 10; a text with no recognizable size (no run of
    digits, dots and commas followed, after optional white space, by a
    unit) gives [None]; the units B, KB, MB and GB are read in any letter
    case as the powers 0 to 3 of 1024, commas are dropped from the number
    and a dot is its decimal point. *)
Theorem parse_size_from_text_spec :
  parse_size_from_text (py "1.5 GB") = Ok (Some 1610612736)
  /\ parse_size_from_text (py "500 KB") = Ok (Some 512000)
  /\ parse_size_from_text (py "10B") = Ok (Some 10)
  /\ (forall text, ~ recognizable text -> parse_size_from_text text = Ok None)
  /\ (forall num ws u k post,
        num <> [] -> forallb is_numch num = true ->
        forallb is_space ws = true -> unit_exp u = Some k ->
        parse_size_from_text (num ++ ws ++ u ++ post) =
          match py_float (remove_commas num) with
          | None => Ok None
          | Some v => int_result (scale v k)
          end)
  /\ (forall num ws u k post,
        forallb is_count_ch num = true -> remove_commas num <> [] ->
        forallb is_space ws = true -> unit_exp u = Some k ->
        digits_val 0 (remove_commas num) * 1024 ^ Z.of_nat k < 2 ^ 53 ->
        parse_size_from_text (num ++ ws ++ u ++ post)
        = Ok (Some (digits_val 0 (remove_commas num) * 1024 ^ Z.of_nat k)))
  /\ parse_size_from_text (py "1,024 kb") = Ok (Some 1048576)
  /\ parse_size_from_text (py "0.5 mB") = Ok (Some 524288).
Proof.
  split; [vm_compute; reflexivity|].
  split; [vm_compute; reflexivity|].
  split; [vm_compute; reflexivity|].
  split; [exact parse_size_unrecognizable|].
  split; [exact parse_size_shape|].
  split; [exact parse_size_integer|].
  split; vm_compute; reflexivity.
Qed.

Lemma parse_size_from_text_spec_witness :
  parse_size_from_text (py "3 Gb and more") = Ok (Some 3221225472).
Proof.
  pose proof parse_size_from_text_spec as (_ & _ & _ & _ & _ & H & _).
  apply (H (py "3") (py " ") (py "Gb") 3%nat (py " and more")).
  - reflexivity.
  - vm_compute. discriminate.
  - reflexivity.
  - reflexivity.
  - vm_compute. reflexivity.
Defined.

(** ** Link classification *)

Lemma startswith_app p s :
  startswith p s = true -> s = p ++ skipn (length p) s.
Proof.
  revert s. induction p as [|a p IH]; intros s H; [reflexivity|].
  destruct s as [|b s]; simpl in H; [discriminate|].
  apply andb_true_iff in H as [Hab Hp]. apply Ascii.eqb_eq in Hab. subst b.
  simpl. f_equal. apply IH, Hp.
Qed.

Lemma startswith_prefix p q s :
  startswith (p ++ q) s = true -> startswith p s = true.
Proof.
  revert s. induction p as [|a p IH]; intros s H; [reflexivity|].
  destruct s as [|b s]; simpl in *; [discriminate|].
  apply andb_true_iff in H as [Hab Hp]. rewrite Hab. simpl. eauto.
Qed.

Lemma contains_prefix p q s :
  contains (p ++ q) s = true -> contains p s = true.
Proof.
  induction s as [|b s IH]; simpl; intros H.
  - rewrite orb_false_r in *. eapply startswith_prefix; eauto.
  - apply orb_true_iff in H as [H|H].
    + rewrite (startswith_prefix _ _ _ H). reflexivity.
    + rewrite (IH H). apply orb_true_r.
Qed.

(** A text that has the marker [FSLv2] has the marker [FSL]. *)
Lemma contains_FSLv2_FSL text :
  contains (py "FSLv2") text = true -> contains (py "FSL") text = true.
Proof. apply (contains_prefix (py "FSL") (py "v2")). Qed.

Ltac case_contains text :=
  repeat match goal with
  | |- context [contains ?p text] =>
      destruct (contains p text); cbn [negb andb orb option_map fst]
  end.

Lemma requests_first_match a :
  truthy (a_href a) = true ->
  requests_label a = List.find (marker_requests (a_text a)) priority.
Proof.
  destruct a as [text [[|c h]|]]; try discriminate. intros _.
  unfold requests_label, classify_requests, priority, marker_requests.
  cbn [a_text a_href List.find].
  case_contains text; try reflexivity.
  - destruct (pixel_search (c :: h)); reflexivity.
  - destruct (tme_search _ _); reflexivity.
Qed.

Lemma browser_first_match a :
  truthy (a_href a) = true ->
  browser_label a = List.find (marker_browser (a_text a)) priority.
Proof.
  destruct a as [text [[|c h]|]]; try discriminate. intros _.
  unfold browser_label, classify_browser, priority, marker_browser.
  cbn [a_text a_href List.find].
  case_contains text; try reflexivity.
  destruct (pixel_search (c :: h)); reflexivity.
Qed.

Lemma no_href_no_label a :
  truthy (a_href a) = false ->
  classify_requests a = None /\ classify_browser a = BSkip.
Proof. destruct a as [text [[|c h]|]]; simpl; try discriminate; auto. Qed.

(** C8. Labels are given by first match in the order FSLv2, FSL, 10Gbps,
    PixelServer, Telegram, on the requests path and on the browser path;
    an anchor whose text has both the marker FSL and the marker FSLv2 is
    labelled FSLv2 (whenever it has an address, else it gets no label) and
    never FSL; the assignment made is [links["FSLv2"] = href]. *)
Theorem classification_priority :
  forall text href,
    contains (py "FSL") text = true ->
    contains (py "FSLv2") text = true ->
    let a := Anchor text href in
    requests_label a = (if truthy href then Some FSLv2 else None)
    /\ browser_label a = (if truthy href then Some FSLv2 else None)
    /\ requests_label a <> Some FSL
    /\ browser_label a <> Some FSL
    /\ (forall links, requests_step links a =
          if truthy href then dict_set FSLv2 href links else links)
    /\ (forall b, truthy (a_href b) = true ->
          requests_label b = List.find (marker_requests (a_text b)) priority
          /\ browser_label b = List.find (marker_browser (a_text b)) priority).
Proof.
  intros text href _ H2 a. subst a.
  assert (R : classify_requests (Anchor text href)
              = if truthy href then option_map (fun h => (FSLv2, h)) href else None).
  { destruct href as [[|c h]|]; simpl; try reflexivity.
    unfold classify_requests. cbn [a_text a_href]. rewrite H2. reflexivity. }
  assert (B : classify_browser (Anchor text href)
              = if truthy href then
                  match href with Some h => BAssign FSLv2 h | None => BSkip end
                else BSkip).
  { destruct href as [[|c h]|]; simpl; try reflexivity.
    unfold classify_browser. cbn [a_text a_href]. rewrite H2. reflexivity. }
  unfold requests_label, browser_label, requests_step. rewrite R, B.
  split; [destruct href as [[|c h]|]; reflexivity|].
  split; [destruct href as [[|c h]|]; reflexivity|].
  split; [destruct href as [[|c h]|]; discriminate|].
  split; [destruct href as [[|c h]|]; discriminate|].
  split; [destruct href as [[|c h]|]; reflexivity|].
  intros b Hb. split.
  - exact (requests_first_match b Hb).
  - exact (browser_first_match b Hb).
Qed.

Lemma classification_priority_witness :
  requests_label (Anchor (py "Download [FSLv2 Server]") (Some (py "https://h.example/f")))
  = Some FSLv2.
Proof.
  apply (classification_priority (py "Download [FSLv2 Server]")
           (Some (py "https://h.example/f"))); reflexivity.
Defined.

(** ** The two classification loops compared *)

Lemma forallb_skipn {A} (f : A -> bool) n l :
  forallb f l = true -> forallb f (skipn n l) = true.
Proof.
  revert l. induction n as [|n IH]; intros [|x l] H; simpl in *; auto.
  apply andb_true_iff in H as [_ H]. auto.
Qed.

Lemma forallb_tail {A} (f : A -> bool) x l :
  forallb f (x :: l) = true -> forallb f l = true.
Proof. simpl. intros H. apply andb_true_iff in H as [_ H]. exact H. Qed.

Lemma span_all f s : forallb f s = true -> span f s = (s, []).
Proof.
  intros H. pose proof (span_app f s [] H I) as E. rewrite app_nil_r in E. exact E.
Qed.

Lemma plain_not_space s :
  forallb plain_ch s = true -> forallb (fun c => negb (stop_space c)) s = true.
Proof.
  induction s as [|c s IH]; simpl; [reflexivity|]. intros H.
  apply andb_true_iff in H as [Hc Hs]. rewrite (IH Hs), andb_true_r.
  unfold plain_ch, stop_space_quote, stop_space in *.
  destruct (is_space c); [discriminate|reflexivity].
Qed.

(** On an address without white space or quote, a match at the head runs
    to the end of the address under either excluded class. *)
Lemma tme_match_at_plain stop s :
  forallb (fun c => negb (stop c)) s = true ->
  tme_match_at stop s =
    if startswith tme_prefix s then
      match skipn (length tme_prefix) s with
      | [] => None
      | _ :: _ => Some s
      end
    else None.
Proof.
  intros H. unfold tme_match_at.
  destruct (startswith tme_prefix s) eqn:E; [|reflexivity].
  rewrite (span_all _ _ (forallb_skipn _ (length tme_prefix) _ H)). cbn [fst].
  destruct (skipn (length tme_prefix) s) eqn:Es; [reflexivity|].
  rewrite <- Es, <- (startswith_app _ _ E). reflexivity.
Qed.

Lemma tme_search_plain_eq s :
  forallb plain_ch s = true ->
  tme_search stop_space_quote s = tme_search stop_space s.
Proof.
  induction s as [|c s IH]; intros H.
  - reflexivity.
  - cbn [tme_search].
    rewrite (tme_match_at_plain stop_space_quote (c :: s) H).
    rewrite (tme_match_at_plain stop_space (c :: s) (plain_not_space _ H)).
    rewrite (IH (forallb_tail _ _ _ H)). reflexivity.
Qed.

Lemma tme_search_short stop s :
  (length s <= length tme_prefix)%nat -> tme_search stop s = None.
Proof.
  change (length tme_prefix) with 13%nat.
  induction s as [|c s IH]; intros L.
  - reflexivity.
  - cbn [tme_search]. rewrite IH by (simpl in L; lia).
    unfold tme_match_at.
    destruct (startswith tme_prefix (c :: s)) eqn:E; [|reflexivity].
    apply startswith_app in E.
    assert (Hl : skipn (length tme_prefix) (c :: s) = []).
    { apply skipn_all2. change (length tme_prefix) with 13%nat. exact L. }
    rewrite Hl. reflexivity.
Qed.

Lemma tme_head_plain s :
  forallb plain_ch s = true -> startswith tme_prefix s = true ->
  match tme_search stop_space_quote s with Some g => g | None => s end = s.
Proof.
  intros H E. destruct s as [|c s]; [reflexivity|].
  cbn [tme_search]. rewrite (tme_match_at_plain _ _ H), E.
  destruct (skipn (length tme_prefix) (c :: s)) eqn:Es; [|reflexivity].
  rewrite tme_search_short; [reflexivity|].
  assert (L : (length (skipn (length tme_prefix) (c :: s)) = 0)%nat) by (rewrite Es; reflexivity).
  rewrite length_skipn in L. change (length tme_prefix) with 13%nat in *.
  cbn [length] in L. lia.
Qed.

Lemma amp_sub_go_plain s : forall skip,
  forallb plain_ch s = true -> forallb plain_ch (amp_sub_go skip s) = true.
Proof.
  induction s as [|c s IH]; intros skip H; [reflexivity|].
  pose proof (forallb_tail _ _ _ H) as Hs.
  cbn [amp_sub_go]. destruct skip as [|k]; [|auto].
  destruct (amp_match_at (c :: s)) as [n|].
  - rewrite forallb_app, (IH _ Hs). reflexivity.
  - cbn [forallb] in *. apply andb_true_iff in H as [Hc _].
    rewrite Hc, (IH _ Hs). reflexivity.
Qed.

(** The two ways of rewriting a Telegram address meet on a plain address. *)
Lemma telegram_rewrite_agree h :
  forallb plain_ch h = true ->
  let h' := if contains (py "ampproject.org") h then amp_sub h else h in
  match tme_search stop_space_quote h' with Some g => g | None => h' end
  = (if negb (startswith tme_prefix h') then
       match tme_search stop_space h' with Some g => g | None => h' end
     else h').
Proof.
  intros H h'.
  assert (H' : forallb plain_ch h' = true).
  { subst h'. destruct (contains _ h); [apply amp_sub_go_plain|]; exact H. }
  destruct (startswith tme_prefix h') eqn:E; cbn [negb].
  - apply tme_head_plain; assumption.
  - rewrite (tme_search_plain_eq _ H'). reflexivity.
Qed.

(** C2 (the code against it). The browser loop is a copy of the requests
    loop that lost the second half of the FSL test: an anchor whose text
    has [FSL] but neither [FSLv2] nor [FSL Server] is filed under FSL by
    the loop of [extract_links_requests] and is not by the loop of
    [extract_buttons_with_browser], which goes on to the later tests
    and, when the text has no other marker, files nothing at all. *)
Theorem browser_loop_misses_bare_fsl :
  forall text href,
    href <> [] ->
    contains (py "FSL") text = true ->
    contains (py "FSLv2") text = false ->
    contains (py "FSL Server") text = false ->
    let a := Anchor text (Some href) in
    classify_requests a = Some (FSL, href)
    /\ fold_left requests_step [a] [] = [(FSL, Some href)]
    /\ browser_label a <> Some FSL
    /\ ~ same_classification a
    /\ (browser_label a = None ->
        forall net w, browser_loop net [a] [] w = (Ok [], w)).
Proof.
  intros text href Hne H1 H2 H3 a. subst a.
  destruct href as [|c h]; [contradiction|].
  assert (Hr : classify_requests (Anchor text (Some (c :: h))) = Some (FSL, c :: h)).
  { unfold classify_requests. cbn [a_text a_href]. rewrite H1, H2, H3. reflexivity. }
  assert (Hb : browser_label (Anchor text (Some (c :: h))) <> Some FSL).
  { unfold browser_label, classify_browser. cbn [a_text a_href]. rewrite H2, H3.
    destruct (contains (py "10Gbps") text); [discriminate|].
    destruct (contains (py "PixelServer") text).
    { destruct (pixel_search (c :: h)); discriminate. }
    destruct (contains (py "Telegram") text); discriminate. }
  split; [exact Hr|]. split.
  { cbn [fold_left]. unfold requests_step. rewrite Hr. reflexivity. }
  split; [exact Hb|]. split.
  - unfold same_classification. rewrite Hr. unfold browser_label in Hb.
    destruct (classify_browser (Anchor text (Some (c :: h)))) as [|l v|h'];
      [intros []| |intros []].
    intros [<- _]. apply Hb. reflexivity.
  - intros Hn net w. cbn [browser_loop]. unfold browser_label in Hn.
    destruct (classify_browser (Anchor text (Some (c :: h)))); try discriminate.
    reflexivity.
Qed.

Lemma browser_loop_misses_bare_fsl_witness :
  fold_left requests_step [anchor_fsl] [] = [(FSL, Some (py "https://hub.example/f1"))]
  /\ browser_loop demo_net [anchor_fsl] [] world0 = (Ok [], world0).
Proof.
  pose proof (browser_loop_misses_bare_fsl (py "Download [FSL]")
                (py "https://hub.example/f1")
                ltac:(discriminate) eq_refl eq_refl eq_refl)
    as (_ & H2 & _ & _ & H5).
  split; [exact H2|]. apply H5. reflexivity.
Defined.

(** The two loops differ on these anchors: one marked [FSL] (without
    [Server]) is labelled FSL by the requests path and gets no label on
    the browser path; a Telegram address with a quote is cut at the
    quote by the requests path and kept whole by the browser path. *)
Lemma same_classification_counterexample :
  ~ same_classification anchor_fsl /\ ~ same_classification anchor_quote.
Proof.
  split; vm_compute; intros H; try exact H; destruct H as [_ H]; discriminate H.
Qed.

(** Where the two loops agree.  For every anchor whose text settles the
    FSL label the same way on both paths (it has [FSLv2], or
    [FSL Server], or no [FSL] at all) and whose address, when the label
    is Telegram, has no white space and no quote, the browser path gives
    the label and the rewritten address of the requests path; for
    [10Gbps] it hands that same address to the second page. *)
Theorem same_classification_amended :
  forall a,
    fsl_settled (a_text a) = true ->
    (requests_label a = Some Telegram -> plain_href (a_href a) = true) ->
    same_classification a.
Proof.
  intros [text [[|c h]|]] Hf Hp; try exact I.
  unfold same_classification, requests_label, classify_requests,
    classify_browser in *.
  cbn [a_text a_href] in *. unfold fsl_settled in Hf.
  destruct (contains (py "FSLv2") text); [split; reflexivity|].
  destruct (contains (py "FSL Server") text); cbn [orb andb negb] in *;
    [split; reflexivity|].
  destruct (contains (py "FSL") text); cbn [orb andb negb] in *; [discriminate|].
  destruct (contains (py "10Gbps") text); [reflexivity|].
  destruct (contains (py "PixelServer") text).
  { destruct (pixel_search (c :: h)); split; reflexivity. }
  destruct (contains (py "Telegram") text); [|exact I].
  assert (Hplain : forallb plain_ch (c :: h) = true).
  { apply Hp. destruct (tme_search stop_space_quote _); reflexivity. }
  pose proof (telegram_rewrite_agree (c :: h) Hplain) as T. cbv zeta in T.
  destruct (tme_search stop_space_quote _); split; try reflexivity; exact T.
Qed.

Lemma same_classification_amended_witness :
  same_classification
    (Anchor (py "Telegram")
       (Some (py "https://cdn.ampproject.org/c/s/t.me/chan/5"))).
Proof.
  apply same_classification_amended; [reflexivity|].
  intros _. reflexivity.
Defined.

(** ** Redirect-chain decoding *)

Lemma pad4_length s : (length (pad4 s) mod 4 = 0)%nat.
Proof.
  unfold pad4. rewrite length_app, repeat_length.
  pose proof (Nat.mod_upper_bound (length s) 4 ltac:(lia)) as Hb.
  rewrite (Nat.div_mod_eq (length s) 4) at 1.
  set (r := (length s mod 4)%nat) in *. set (q := (length s / 4)%nat).
  assert (r = 0 \/ r = 1 \/ r = 2 \/ r = 3)%nat as [-> | [-> | [-> | ->]]] by lia.
  - replace (4 * q + 0 + (4 - 0) mod 4)%nat with (q * 4)%nat by (simpl; lia).
    apply Nat.Div0.mod_mul.
  - replace (4 * q + 1 + (4 - 1) mod 4)%nat with ((q + 1) * 4)%nat by (simpl; lia).
    apply Nat.Div0.mod_mul.
  - replace (4 * q + 2 + (4 - 2) mod 4)%nat with ((q + 1) * 4)%nat by (simpl; lia).
    apply Nat.Div0.mod_mul.
  - replace (4 * q + 3 + (4 - 3) mod 4)%nat with ((q + 1) * 4)%nat by (simpl; lia).
    apply Nat.Div0.mod_mul.
Qed.

Lemma pad4_multiple s : (length s mod 4 = 0)%nat -> pad4 s = s.
Proof. unfold pad4. intros ->. simpl. apply app_nil_r. Qed.

Lemma match_marker_spec s r :
  match_marker s = Some r -> exists mk, In mk markers /\ s = mk ++ r.
Proof.
  unfold match_marker, markers. intros H.
  destruct (startswith (py "/foo/") s) eqn:E1.
  { inversion H; subst. exists (py "/foo/"). split; [simpl; auto|].
    exact (startswith_app _ _ E1). }
  destruct (startswith (py "/re2/") s) eqn:E2.
  { inversion H; subst. exists (py "/re2/"). split; [simpl; auto|].
    exact (startswith_app _ _ E2). }
  destruct (startswith (py "?r=") s) eqn:E3.
  { inversion H; subst. exists (py "?r="). split; [simpl; auto|].
    exact (startswith_app _ _ E3). }
  destruct (startswith (py "&r=") s) eqn:E4.
  { inversion H; subst. exists (py "&r="). split; [simpl; auto 6|].
    exact (startswith_app _ _ E4). }
  cbn [orb] in H.
  destruct (startswith (py "id=") s) eqn:E5; [|discriminate].
  inversion H; subst. exists (py "id="). split; [simpl; auto 6|].
  exact (startswith_app _ _ E5).
Qed.

Lemma token_match_at_spec s tok :
  token_match_at s = Some tok ->
  exists mk post, In mk markers /\ s = mk ++ tok ++ post
    /\ tok <> [] /\ forallb is_tokch tok = true
    /\ match post with [] => True | c :: _ => is_tokch c = false end.
Proof.
  unfold token_match_at. intros H.
  destruct (match_marker s) as [r|] eqn:E; [|discriminate].
  destruct (span is_tokch r) as [t post] eqn:Es. cbn [fst] in H.
  destruct t as [|c t]; [discriminate|]. inversion H; subst.
  apply match_marker_spec in E as (mk & Hin & ->).
  pose proof (span_stop _ _ _ _ Es) as Hstop.
  apply span_spec in Es as [-> Hall].
  exists mk, post. repeat split; auto; discriminate.
Qed.

(** A token is what follows the leftmost marker that has a character of
    the token class after it. *)
Lemma token_search_spec h tok :
  token_search h = Some tok ->
  exists pre mk post, In mk markers /\ h = pre ++ mk ++ tok ++ post
    /\ tok <> [] /\ forallb is_tokch tok = true
    /\ match post with [] => True | c :: _ => is_tokch c = false end.
Proof.
  induction h as [|x h IH]; cbn [token_search]; intros H.
  - destruct (token_match_at []) eqn:E; [|discriminate]. vm_compute in E. discriminate.
  - destruct (token_match_at (x :: h)) as [t|] eqn:E.
    + inversion H; subst.
      apply token_match_at_spec in E as (mk & post & ? & -> & ?).
      exists [], mk, post. auto.
    + destruct (IH H) as (pre & mk & post & ? & -> & ?).
      exists (x :: pre), mk, post. auto.
Qed.

Lemma match_marker_complete mk r :
  In mk markers -> match_marker (mk ++ r) = Some r.
Proof.
  unfold markers. simpl. intros [<-|[<-|[<-|[<-|[<-|[]]]]]]; reflexivity.
Qed.

(** No token is found exactly when no marker is followed by a character
    of the token class. *)
Lemma token_search_none h :
  token_search h = None <->
  (forall pre mk c post,
     In mk markers -> is_tokch c = true -> h <> pre ++ mk ++ c :: post).
Proof.
  split.
  - intros Hn pre mk c post Hin Hc ->. revert Hn.
    induction pre as [|x pre IH]; cbn [app token_search].
    + destruct mk as [|m0 mk]; [unfold markers in Hin; simpl in Hin; intuition discriminate|].
      cbn [app token_search]. change (m0 :: mk ++ c :: post) with ((m0 :: mk) ++ c :: post).
      unfold token_match_at. rewrite (match_marker_complete _ _ Hin).
      cbn [span]. rewrite Hc. destruct (span is_tokch post). discriminate.
    + destruct (token_match_at _); [discriminate|]. exact IH.
  - intros Hno. destruct (token_search h) as [tok|] eqn:E; [|reflexivity].
    apply token_search_spec in E as (pre & mk & post & Hin & -> & Hne & Hall & _).
    destruct tok as [|c tok]; [congruence|].
    exfalso. apply (Hno pre mk c (tok ++ post) Hin); [|reflexivity].
    simpl in Hall. apply andb_true_iff in Hall as [Hc _]. exact Hc.
Qed.

(** The address [get_gamerxyt_requests] cuts out of a page body has its
    token right after [?r=], and that token is the one decoded. *)
Lemma token_search_gamerxyt tok :
  tok <> [] -> forallb is_tokch tok = true ->
  token_search (gamerxyt_prefix ++ tok) = Some tok.
Proof.
  intros Hne Hall. destruct tok as [|c tok]; [congruence|].
  pose proof Hall as Hall'. simpl in Hall'. apply andb_true_iff in Hall' as [Hc _].
  unfold gamerxyt_prefix. cbn [list_ascii_of_string app].
  repeat (cbn [token_search];
          lazymatch goal with
          | |- context [token_match_at (?x :: ?r)] =>
              let v := eval cbv in (Ascii.eqb x "?"%char) in
              lazymatch v with
              | true => idtac
              | false =>
                  replace (token_match_at (x :: r)) with (@None str)
                    by (unfold token_match_at, match_marker; reflexivity)
              end
          end).
  assert (E : token_match_at ("?"%char :: "r"%char :: "="%char :: c :: tok)
              = Some (c :: tok)).
  { unfold token_match_at.
    change (match_marker ("?"%char :: "r"%char :: "="%char :: c :: tok))
      with (Some (c :: tok)).
    cbv beta iota. rewrite (span_all _ _ Hall). reflexivity. }
  rewrite E. reflexivity.
Qed.

Lemma gamerxyt_search_spec s g :
  gamerxyt_search s = Some g ->
  exists tok, g = gamerxyt_prefix ++ tok /\ tok <> [] /\ forallb is_tokch tok = true.
Proof.
  induction s as [|x s IH]; cbn [gamerxyt_search]; intros H.
  - vm_compute in H. discriminate.
  - destruct (gamerxyt_match_at (x :: s)) as [g'|] eqn:E; [|exact (IH H)].
    inversion H; subst. unfold gamerxyt_match_at in E.
    destruct (startswith gamerxyt_prefix (x :: s)); [|discriminate].
    destruct (span is_tokch _) as [t r] eqn:Es. cbn [fst] in E.
    destruct t as [|c t]; [discriminate|]. inversion E; subst.
    apply span_spec in Es as [_ Hall].
    exists (c :: t). repeat split; auto; discriminate.
Qed.

Lemma normalize_telegram_unfold h :
  h <> [] ->
  normalize_telegram (Some h) =
    match token_search h with
    | None => Some (ustr_of h)
    | Some tok =>
        match b64decode (pad4 tok) with
        | Some bytes => Some (utf8_decode_ignore bytes)
        | None => Some (ustr_of h)
        end
    end.
Proof. destruct h as [|c h]; [congruence|]. intros _. reflexivity. Qed.

Lemma contains_nonempty p s : p <> [] -> contains p s = true -> s <> [].
Proof. intros Hp H ->. destruct p; [congruence|]. discriminate H. Qed.

(** One link that resolves over HTTP to an intermediate address: what
    the resolution loop leaves in [resolved]. *)
Lemma resolve_loop_single net w l link resp :
  link <> [] -> needs_resolution link = true ->
  http_get net (clock w) link = Some resp ->
  contains (py "gamerxyt.com/?r=") (r_url resp) = true ->
  fst (resolve_loop net [(l, Some link)] [] w) =
    Ok match normalize_telegram (Some (r_url resp)) with
       | Some ((_ :: _) as hubcloud) => [hubcloud]
       | _ => []
       end.
Proof.
  intros Hne Hneed Hget Hfin.
  destruct link as [|c link]; [congruence|].
  cbn [resolve_loop]. rewrite Hneed.
  unfold bind at 1. unfold get_gamerxyt_requests, try_except, bind, requests_get.
  rewrite Hget, Hfin. unfold ret at 1.
  assert (Ht : truthy (Some (r_url resp)) = true).
  { assert (Hp : py "gamerxyt.com/?r=" <> []) by discriminate.
    pose proof (contains_nonempty _ _ Hp Hfin).
    destruct (r_url resp); [congruence|reflexivity]. }
  unfold resolve_with_browser. rewrite Ht. cbn [negb andb].
  destruct (normalize_telegram (Some (r_url resp))) as [[|x u]|]; reflexivity.
Qed.

(** ** Base64: the decoder undoes the standard encoding *)

Lemma zrange_in n z : 0 <= z < Z.of_nat n -> In z (zrange n).
Proof.
  intros H. unfold zrange. apply in_map_iff. exists (Z.to_nat z).
  split; [lia|]. apply in_seq. lia.
Qed.

Lemma forallb_zrange f n z :
  forallb f (zrange n) = true -> 0 <= z < Z.of_nat n -> f z = true.
Proof.
  intros H Hz. rewrite forallb_forall in H. apply H, zrange_in, Hz.
Qed.

Lemma alphabet_ok v :
  0 <= v < 64 ->
  b64_value (b64_char v) = Some v
  /\ is_tokch (b64_char v) = true
  /\ Ascii.eqb (b64_char v) "="%char = false.
Proof.
  intros Hv.
  assert (C : check_alphabet = true) by (vm_compute; reflexivity).
  pose proof (forallb_zrange _ 64 v C ltac:(lia)) as H. cbv beta in H.
  destruct (b64_value (b64_char v)) as [v'|]; [|discriminate].
  apply andb_true_iff in H as [H H3]. apply andb_true_iff in H as [H1 H2].
  apply Z.eqb_eq in H1. apply negb_true_iff in H3. subst. auto.
Qed.

Lemma second_ok b0 x :
  0 <= b0 < 256 -> 0 <= x < 16 ->
  byte_of (Z.lor (Z.shiftl (b0 / 4) 2) (Z.shiftr ((b0 mod 4) * 16 + x) 4)) = b0
  /\ Z.land ((b0 mod 4) * 16 + x) 15 = x.
Proof.
  intros H0 Hx.
  assert (C : check_second = true) by (vm_compute; reflexivity).
  pose proof (forallb_zrange _ 256 b0 C ltac:(lia)) as H. cbv beta in H.
  pose proof (forallb_zrange _ 16 x H ltac:(lia)) as H'. cbv beta zeta in H'.
  apply andb_true_iff in H' as [H1 H2]. apply Z.eqb_eq in H1, H2. auto.
Qed.

Lemma third_ok b1 y :
  0 <= b1 < 256 -> 0 <= y < 4 ->
  byte_of (Z.lor (Z.shiftl (b1 / 16) 4) (Z.shiftr ((b1 mod 16) * 4 + y) 2)) = b1
  /\ Z.land ((b1 mod 16) * 4 + y) 3 = y.
Proof.
  intros H0 Hy.
  assert (C : check_third = true) by (vm_compute; reflexivity).
  pose proof (forallb_zrange _ 256 b1 C ltac:(lia)) as H. cbv beta in H.
  pose proof (forallb_zrange _ 4 y H ltac:(lia)) as H'. cbv beta zeta in H'.
  apply andb_true_iff in H' as [H1 H2]. apply Z.eqb_eq in H1, H2. auto.
Qed.

Lemma fourth_ok b2 :
  0 <= b2 < 256 ->
  byte_of (Z.lor (Z.shiftl (b2 / 64) 6) (b2 mod 64)) = b2.
Proof.
  intros H0.
  assert (C : check_fourth = true) by (vm_compute; reflexivity).
  pose proof (forallb_zrange _ 256 b2 C ltac:(lia)) as H. cbv beta in H.
  apply Z.eqb_eq in H. exact H.
Qed.

Lemma list_ind3 {A} (P : list A -> Prop) :
  P [] -> (forall a, P [a]) -> (forall a b, P [a; b]) ->
  (forall a b c r, P r -> P (a :: b :: c :: r)) ->
  forall l, P l.
Proof.
  intros H0 H1 H2 H3. fix IH 1. intros [|a [|b [|c r]]].
  - exact H0.
  - apply H1.
  - apply H2.
  - apply H3, IH.
Qed.

Lemma a2b_char q lc p out v s :
  0 <= v < 64 ->
  a2b_base64 q lc p out (b64_char v :: s) =
    if q =? 0 then a2b_base64 1 v 0 out s
    else if q =? 1 then
      a2b_base64 2 (Z.land v 15) 0
        (byte_of (Z.lor (Z.shiftl lc 2) (Z.shiftr v 4)) :: out) s
    else if q =? 2 then
      a2b_base64 3 (Z.land v 3) 0
        (byte_of (Z.lor (Z.shiftl lc 4) (Z.shiftr v 2)) :: out) s
    else a2b_base64 0 0 0 (byte_of (Z.lor (Z.shiftl lc 6) v) :: out) s.
Proof.
  intros Hv. destruct (alphabet_ok v Hv) as (Hval & _ & Hpad).
  cbn [a2b_base64]. rewrite Hpad, Hval. reflexivity.
Qed.

Lemma a2b_char0 lc p out v s :
  0 <= v < 64 -> a2b_base64 0 lc p out (b64_char v :: s) = a2b_base64 1 v 0 out s.
Proof. intros Hv. rewrite a2b_char by exact Hv. reflexivity. Qed.

Lemma a2b_char1 lc p out v s :
  0 <= v < 64 ->
  a2b_base64 1 lc p out (b64_char v :: s) =
    a2b_base64 2 (Z.land v 15) 0
      (byte_of (Z.lor (Z.shiftl lc 2) (Z.shiftr v 4)) :: out) s.
Proof. intros Hv. rewrite a2b_char by exact Hv. reflexivity. Qed.

Lemma a2b_char2 lc p out v s :
  0 <= v < 64 ->
  a2b_base64 2 lc p out (b64_char v :: s) =
    a2b_base64 3 (Z.land v 3) 0
      (byte_of (Z.lor (Z.shiftl lc 4) (Z.shiftr v 2)) :: out) s.
Proof. intros Hv. rewrite a2b_char by exact Hv. reflexivity. Qed.

Lemma a2b_char3 lc p out v s :
  0 <= v < 64 ->
  a2b_base64 3 lc p out (b64_char v :: s) =
    a2b_base64 0 0 0 (byte_of (Z.lor (Z.shiftl lc 6) v) :: out) s.
Proof. intros Hv. rewrite a2b_char by exact Hv. reflexivity. Qed.

Ltac byte_range :=
  match goal with
  | |- _ <= _ < _ => Z.div_mod_to_equations; lia
  end.

Lemma is_byte_range b : is_byte b = true -> 0 <= b < 256.
Proof. unfold is_byte. intros H. apply andb_true_iff in H as [H1 H2]. lia. Qed.

(** Decoding the encoding of [bs] gives [bs] back. *)
Lemma a2b_base64_encode bs : forall out,
  forallb is_byte bs = true ->
  a2b_base64 0 0 0 out (b64encode bs) = Some (rev out ++ bs).
Proof.
  induction bs as [|b0|b0 b1|b0 b1 b2 r IH] using list_ind3; intros out Hb.
  - cbn. rewrite app_nil_r. reflexivity.
  - cbn [forallb] in Hb. apply andb_true_iff in Hb as [H0 _].
    apply is_byte_range in H0. cbn [b64encode].
    rewrite a2b_char0 by byte_range. rewrite a2b_char1 by byte_range.
    replace ((b0 mod 4) * 16) with ((b0 mod 4) * 16 + 0) by lia.
    destruct (second_ok b0 0 H0 ltac:(lia)) as [-> ->].
    cbn. reflexivity.
  - cbn [forallb] in Hb. apply andb_true_iff in Hb as [H0 Hb].
    apply andb_true_iff in Hb as [H1 _].
    apply is_byte_range in H0, H1. cbn [b64encode].
    rewrite a2b_char0 by byte_range. rewrite a2b_char1 by byte_range.
    destruct (second_ok b0 (b1 / 16) H0 ltac:(byte_range)) as [-> ->].
    rewrite a2b_char2 by byte_range.
    replace ((b1 mod 16) * 4) with ((b1 mod 16) * 4 + 0) by lia.
    destruct (third_ok b1 0 H1 ltac:(lia)) as [-> ->].
    cbn. rewrite <- app_assoc. reflexivity.
  - cbn [forallb] in Hb. apply andb_true_iff in Hb as [H0 Hb].
    apply andb_true_iff in Hb as [H1 Hb]. apply andb_true_iff in Hb as [H2 Hr].
    apply is_byte_range in H0, H1, H2. cbn [b64encode].
    rewrite a2b_char0 by byte_range. rewrite a2b_char1 by byte_range.
    destruct (second_ok b0 (b1 / 16) H0 ltac:(byte_range)) as [-> ->].
    rewrite a2b_char2 by byte_range.
    destruct (third_ok b1 (b2 / 64) H1 ltac:(byte_range)) as [-> ->].
    rewrite a2b_char3 by byte_range.
    rewrite (fourth_ok b2 H2).
    rewrite (IH _ Hr). cbn [rev]. rewrite <- !app_assoc. reflexivity.
Qed.

Lemma b64encode_length bs : exists k, length (b64encode bs) = (4 * k)%nat.
Proof.
  induction bs as [|b0|b0 b1|b0 b1 b2 r [k IH]] using list_ind3.
  - exists 0%nat. reflexivity.
  - exists 1%nat. reflexivity.
  - exists 1%nat. reflexivity.
  - exists (S k). cbn [b64encode length]. rewrite IH. lia.
Qed.

Lemma pad4_b64encode bs : pad4 (b64encode bs) = b64encode bs.
Proof.
  apply pad4_multiple. destruct (b64encode_length bs) as [k ->].
  rewrite Nat.mul_comm. apply Nat.Div0.mod_mul.
Qed.

Lemma b64encode_tokch bs :
  forallb is_byte bs = true -> forallb is_tokch (b64encode bs) = true.
Proof.
  induction bs as [|b0|b0 b1|b0 b1 b2 r IH] using list_ind3; intros Hb.
  - reflexivity.
  - cbn [forallb] in Hb. apply andb_true_iff in Hb as [H0 _].
    apply is_byte_range in H0. cbn [b64encode forallb].
    rewrite (proj1 (proj2 (alphabet_ok (b0 / 4) ltac:(byte_range)))).
    rewrite (proj1 (proj2 (alphabet_ok ((b0 mod 4) * 16) ltac:(byte_range)))).
    reflexivity.
  - cbn [forallb] in Hb. apply andb_true_iff in Hb as [H0 Hb].
    apply andb_true_iff in Hb as [H1 _].
    apply is_byte_range in H0, H1. cbn [b64encode forallb].
    rewrite (proj1 (proj2 (alphabet_ok (b0 / 4) ltac:(byte_range)))).
    rewrite (proj1 (proj2 (alphabet_ok ((b0 mod 4) * 16 + b1 / 16) ltac:(byte_range)))).
    rewrite (proj1 (proj2 (alphabet_ok ((b1 mod 16) * 4) ltac:(byte_range)))).
    reflexivity.
  - cbn [forallb] in Hb. apply andb_true_iff in Hb as [H0 Hb].
    apply andb_true_iff in Hb as [H1 Hb]. apply andb_true_iff in Hb as [H2 Hr].
    apply is_byte_range in H0, H1, H2. cbn [b64encode forallb].
    rewrite (proj1 (proj2 (alphabet_ok (b0 / 4) ltac:(byte_range)))).
    rewrite (proj1 (proj2 (alphabet_ok ((b0 mod 4) * 16 + b1 / 16) ltac:(byte_range)))).
    rewrite (proj1 (proj2 (alphabet_ok ((b1 mod 16) * 4 + b2 / 64) ltac:(byte_range)))).
    rewrite (proj1 (proj2 (alphabet_ok (b2 mod 64) ltac:(byte_range)))).
    rewrite (IH Hr). reflexivity.
Qed.

Lemma b64encode_nonempty bs : bs <> [] -> b64encode bs <> [].
Proof. destruct bs as [|b0 [|b1 [|b2 r]]]; [congruence| | |]; discriminate. Qed.

Lemma code_range c : 0 <= code c < 256.
Proof.
  unfold code. pose proof (nat_ascii_bounded c). lia.
Qed.

Lemma ascii_bytes_are_bytes t : forallb is_byte (ascii_bytes t) = true.
Proof.
  induction t as [|c t IH]; [reflexivity|]. cbn [ascii_bytes map forallb].
  fold (ascii_bytes t). rewrite IH, andb_true_r.
  pose proof (code_range c). unfold is_byte.
  apply andb_true_iff. split; [apply Z.leb_le|apply Z.ltb_lt]; lia.
Qed.

Lemma code_to_N c : Z.to_N (code c) = N_of_ascii c.
Proof.
  unfold code, nat_of_ascii. rewrite <- (N2Z.id (N_of_ascii c)) at 2.
  f_equal. rewrite N_nat_Z. reflexivity.
Qed.

(** ASCII bytes decode to the text they are. *)
Lemma utf8_decode_ascii t :
  forallb is_ascii t = true -> utf8_decode_ignore (ascii_bytes t) = ustr_of t.
Proof.
  induction t as [|c t IH]; [reflexivity|]. cbn [forallb].
  intros H. apply andb_true_iff in H as [Hc Ht].
  cbn [ascii_bytes map utf8_decode_ignore]. fold (ascii_bytes t).
  unfold is_ascii in Hc. rewrite Hc, (IH Ht), code_to_N. reflexivity.
Qed.

(** An intermediate address whose [r] parameter is the base64 encoding of
    an ASCII address decodes to exactly that address. *)
Lemma normalize_telegram_roundtrip t :
  t <> [] -> forallb is_ascii t = true ->
  normalize_telegram (Some (gamerxyt_prefix ++ b64encode (ascii_bytes t)))
  = Some (ustr_of t).
Proof.
  intros Hne Ha.
  assert (Hb : ascii_bytes t <> []) by (destruct t; [congruence|discriminate]).
  rewrite normalize_telegram_unfold by (destruct t; discriminate).
  rewrite (token_search_gamerxyt _ (b64encode_nonempty _ Hb)
             (b64encode_tokch _ (ascii_bytes_are_bytes t))).
  rewrite pad4_b64encode. unfold b64decode.
  rewrite (a2b_base64_encode _ [] (ascii_bytes_are_bytes t)).
  cbn [rev app]. rewrite (utf8_decode_ascii _ Ha). reflexivity.
Qed.

Example example_token_is_encoding :
  b64encode (ascii_bytes example_target) = example_token.
Proof. vm_compute. reflexivity. Qed.

(** C7. For a link that resolves to an intermediate address, the token is
    what follows the leftmost of the markers [/foo/], [/re2/], [?r=],
    [&r=], [id=] that has a token character after it; it is padded with
    [=] to a length that is a multiple of 4 and base64-decoded, and the
    decoded text is the result; when no marker matches or the decoding
    fails the address is kept as it is.  An intermediate address whose
    [r] parameter is the base64 encoding of an ASCII address gives
    exactly that address: [https://gamerxyt.com/?r=aHR0cHM6Ly90Lm1lL2NoYW5uZWwvMTIz]
    gives exactly [https://t.me/channel/123], also as the content of
    [resolved] when a link resolves to it. *)
Theorem redirect_chain_decoding :
  normalize_telegram None = None
  /\ normalize_telegram (Some []) = None
  /\ (forall h, h <> [] ->
        normalize_telegram (Some h) =
          match token_search h with
          | None => Some (ustr_of h)
          | Some tok =>
              match b64decode (pad4 tok) with
              | Some bytes => Some (utf8_decode_ignore bytes)
              | None => Some (ustr_of h)
              end
          end)
  /\ (forall h tok, token_search h = Some tok ->
        exists pre mk post, In mk markers /\ h = pre ++ mk ++ tok ++ post
          /\ tok <> [] /\ forallb is_tokch tok = true
          /\ match post with [] => True | c :: _ => is_tokch c = false end)
  /\ (forall h, token_search h = None <->
        forall pre mk c post,
          In mk markers -> is_tokch c = true -> h <> pre ++ mk ++ c :: post)
  /\ (forall s, (length (pad4 s) mod 4 = 0)%nat
                /\ exists k, pad4 s = s ++ repeat "="%char k)
  /\ (forall tok, tok <> [] -> forallb is_tokch tok = true ->
        token_search (gamerxyt_prefix ++ tok) = Some tok)
  /\ (forall t, t <> [] -> forallb is_ascii t = true ->
        normalize_telegram (Some (gamerxyt_prefix ++ b64encode (ascii_bytes t)))
        = Some (ustr_of t))
  /\ normalize_telegram (Some example_href) = Some (ustr_of example_target)
  /\ normalize_telegram (Some (py "https://gamerxyt.com/?r=a"))
     = Some (ustr_of (py "https://gamerxyt.com/?r=a"))
  /\ (forall net w l link resp,
        link <> [] -> needs_resolution link = true ->
        http_get net (clock w) link = Some resp ->
        r_url resp = example_href ->
        fst (resolve_loop net [(l, Some link)] [] w) = Ok [ustr_of example_target]).
Proof.
  split; [reflexivity|]. split; [reflexivity|].
  split; [exact normalize_telegram_unfold|].
  split; [exact token_search_spec|].
  split; [exact token_search_none|].
  split; [intros s; split; [apply pad4_length|eexists; reflexivity]|].
  split; [exact token_search_gamerxyt|].
  split; [exact normalize_telegram_roundtrip|].
  split; [vm_compute; reflexivity|].
  split; [vm_compute; reflexivity|].
  intros net w l link resp Hne Hneed Hget Hurl.
  rewrite (resolve_loop_single net w l link resp Hne Hneed Hget)
    by (rewrite Hurl; vm_compute; reflexivity).
  rewrite Hurl. vm_compute. reflexivity.
Qed.

Lemma redirect_chain_decoding_witness :
  token_search (py "https://gamerxyt.com/?r=aHR0cHM6Ly90Lm1lL2NoYW5uZWwvMTIz")
  = Some example_token.
Proof.
  pose proof redirect_chain_decoding as (_ & _ & _ & _ & _ & _ & H & _).
  apply (H example_token).
  - vm_compute. discriminate.
  - vm_compute. reflexivity.
Defined.

(** ** [str] of an integer *)

(** A negative integer prints as a minus sign and its absolute value. *)
Lemma str_of_Z_opp n : 0 < n -> str_of_Z (- n) = "-"%char :: str_of_Z n.
Proof. intros H. destruct n as [|p|p]; try lia. reflexivity. Qed.

Lemma str_of_Z_samples :
  str_of_Z 0 = py "0" /\ str_of_Z 30 = py "30" /\ str_of_Z (-5) = py "-5"
  /\ str_of_Z 1610612736 = py "1610612736".
Proof. repeat split; reflexivity. Qed.

(** ** [strip] *)

Lemma lstrip_lstripped s : lstripped (lstrip s).
Proof.
  induction s as [|c s IH]; simpl; [exact I|].
  destruct (is_space c) eqn:E; [exact IH|]. simpl. exact E.
Qed.

Lemma lstripped_lstrip s : lstripped s -> lstrip s = s.
Proof. destruct s as [|c s]; simpl; [reflexivity|]. intros ->. reflexivity. Qed.

Lemma lstrip_idem s : lstrip (lstrip s) = lstrip s.
Proof. apply lstripped_lstrip, lstrip_lstripped. Qed.

Lemma lstrip_snoc a c :
  is_space c = false -> lstrip (a ++ [c]) = lstrip a ++ [c].
Proof.
  intros Hc. induction a as [|x a IH]; simpl.
  - rewrite Hc. reflexivity.
  - destruct (is_space x); [exact IH|reflexivity].
Qed.

Lemma rstrip_lstripped s : lstripped s -> lstripped (rstrip s).
Proof.
  destruct s as [|c s]; [intros _; exact I|]. simpl. intros Hc.
  unfold rstrip. cbn [rev]. rewrite (lstrip_snoc _ _ Hc), rev_app_distr.
  simpl. exact Hc.
Qed.

Lemma rstrip_idem s : rstrip (rstrip s) = rstrip s.
Proof. unfold rstrip. rewrite rev_involutive, lstrip_idem. reflexivity. Qed.

Lemma strip_idem s : strip (strip s) = strip s.
Proof.
  unfold strip.
  rewrite (lstripped_lstrip (rstrip (lstrip s)))
    by (apply rstrip_lstripped, lstrip_lstripped).
  apply rstrip_idem.
Qed.

Lemma lstrip_blank s : forallb is_space s = true -> lstrip s = [].
Proof.
  induction s as [|c s IH]; simpl; [reflexivity|]. intros H.
  apply andb_true_iff in H as [Hc Hs]. rewrite Hc. exact (IH Hs).
Qed.

Lemma forallb_rev {A} (f : A -> bool) l :
  forallb f (rev l) = true -> forallb f l = true.
Proof.
  rewrite !forallb_forall. intros H x Hx. apply H, in_rev. rewrite rev_involutive.
  exact Hx.
Qed.

Lemma forallb_rev_intro {A} (f : A -> bool) l :
  forallb f l = true -> forallb f (rev l) = true.
Proof. intros H. apply forallb_rev. rewrite rev_involutive. exact H. Qed.

(** [lstrip] takes a run of white space off the left end. *)
Lemma lstrip_split s :
  exists l, s = l ++ lstrip s /\ forallb is_space l = true.
Proof.
  induction s as [|c s (l & E & Hl)]; simpl; [exists []; auto|].
  destruct (is_space c) eqn:Ec; [|exists []; auto].
  exists (c :: l). simpl. rewrite Ec, <- E. auto.
Qed.

Lemma rstrip_split s :
  exists r, s = rstrip s ++ r /\ forallb is_space r = true.
Proof.
  unfold rstrip. destruct (lstrip_split (rev s)) as (l & E & Hl).
  exists (rev l). split; [|apply forallb_rev_intro, Hl].
  rewrite <- rev_app_distr, <- E, rev_involutive. reflexivity.
Qed.

Lemma lstrip_app_blank l s :
  forallb is_space l = true -> lstrip (l ++ s) = lstrip s.
Proof.
  induction l as [|c l IH]; simpl; [reflexivity|]. intros H.
  apply andb_true_iff in H as [Hc Hl]. rewrite Hc. exact (IH Hl).
Qed.

Lemma lstrip_app_r u r :
  forallb is_space r = true ->
  lstrip (u ++ r) = match lstrip u with [] => [] | _ :: _ => lstrip u ++ r end.
Proof.
  intros Hr. induction u as [|c u IH]; simpl; [apply lstrip_blank, Hr|].
  destruct (is_space c); [exact IH|reflexivity].
Qed.

Lemma rstrip_app_blank s r :
  forallb is_space r = true -> rstrip (s ++ r) = rstrip s.
Proof.
  intros Hr. unfold rstrip.
  rewrite rev_app_distr, (lstrip_app_blank _ _ (forallb_rev_intro _ _ Hr)).
  reflexivity.
Qed.

(** White space added at either end is stripped again. *)
Lemma strip_pad l u r :
  forallb is_space l = true -> forallb is_space r = true ->
  strip (l ++ u ++ r) = strip u.
Proof.
  intros Hl Hr. unfold strip.
  rewrite (lstrip_app_blank _ _ Hl), (lstrip_app_r _ _ Hr).
  destruct (lstrip u) as [|c t]; [reflexivity|]. apply rstrip_app_blank, Hr.
Qed.

(** [strip u] is [u] without its leading and trailing white space, and
    nothing else is. *)
Lemma strip_stripped_of u s : stripped_of u s <-> s = strip u.
Proof.
  split.
  - intros (l & r & -> & Hl & Hr & H1 & H2).
    rewrite (strip_pad _ _ _ Hl Hr). unfold strip, rstrip.
    rewrite (lstripped_lstrip s H1), (lstripped_lstrip (rev s) H2), rev_involutive.
    reflexivity.
  - intros ->. unfold strip.
    destruct (lstrip_split u) as (l & El & Hl).
    destruct (rstrip_split (lstrip u)) as (r & Er & Hr).
    exists l, r. rewrite <- Er. repeat split; auto.
    + apply rstrip_lstripped, lstrip_lstripped.
    + unfold rstrip. rewrite rev_involutive. apply lstrip_lstripped.
Qed.

(** ** Frames *)

Section Frames.

Context (R : world -> world -> Prop).
Hypothesis R_refl : forall w, R w w.
Hypothesis R_trans : forall a b c, R a b -> R b c -> R a c.

Lemma preserves_ret {A} (a : A) : preserves R (ret a).
Proof. intros w. apply R_refl. Qed.

Lemma preserves_raise {A} e : preserves R (@raise A e).
Proof. intros w. apply R_refl. Qed.

Lemma preserves_lift {A} (r : res A) : preserves R (lift r).
Proof. intros w. apply R_refl. Qed.

Lemma preserves_bind {A B} (m : M A) (k : A -> M B) :
  preserves R m -> (forall a, preserves R (k a)) -> preserves R (bind m k).
Proof.
  intros Hm Hk w. unfold bind. specialize (Hm w).
  destruct (m w) as [[a|e] w1]; simpl in *; [|exact Hm].
  eapply R_trans; [exact Hm|apply Hk].
Qed.

Lemma preserves_try_except {A} (m h : M A) :
  preserves R m -> preserves R h -> preserves R (try_except m h).
Proof.
  intros Hm Hh w. unfold try_except. specialize (Hm w).
  destruct (m w) as [[a|e] w1]; simpl in *; [exact Hm|].
  eapply R_trans; [exact Hm|apply Hh].
Qed.

Lemma preserves_attempt {A} (m : M A) :
  preserves R m -> preserves R (attempt m).
Proof.
  intros Hm w. unfold attempt. specialize (Hm w).
  destruct (m w) as [r w1]. exact Hm.
Qed.

Lemma preserves_try_finally {A} (m : M A) (f : M unit) :
  preserves R m -> preserves R f -> preserves R (try_finally m f).
Proof.
  intros Hm Hf w. unfold try_finally. specialize (Hm w).
  destruct (m w) as [r w1]. specialize (Hf w1). cbn [snd] in Hm.
  destruct (f w1) as [[a|e] w2]; cbn [snd] in *; eapply R_trans; eauto.
Qed.

End Frames.

(** ** The cache file is written by [save_cache] only *)

Lemma same_store_refl w : same_store w w.
Proof. split; reflexivity. Qed.

Lemma same_store_trans a b c : same_store a b -> same_store b c -> same_store a c.
Proof. intros [H1 H2] [H3 H4]. split; congruence. Qed.


Ltac frame_step R_refl R_trans :=
  first
    [ apply (preserves_bind _ R_trans); [|intros ?]
    | apply (preserves_try_except _ R_trans)
    | apply (preserves_try_finally _ R_trans)
    | apply (preserves_attempt _)
    | apply (preserves_ret _ R_refl)
    | apply (preserves_raise _ R_refl)
    | apply (preserves_lift _ R_refl) ].

Section StoreFrames.

Variable net : oracle.

Lemma store_head_request url : preserves same_store (head_request net url).
Proof. intros w. unfold head_request. destruct (http_head _ _ _); split; reflexivity. Qed.

Lemma store_requests_get url : preserves same_store (requests_get net url).
Proof. intros w. unfold requests_get. destruct (http_get _ _ _); split; reflexivity. Qed.

Lemma store_raise_for_status r : preserves same_store (raise_for_status r).
Proof. intros w. unfold raise_for_status. destruct (is_error_status _); split; reflexivity. Qed.

Lemma store_ensure : preserves same_store (ensure_playwright_started net).
Proof.
  intros w. unfold ensure_playwright_started.
  destruct (started w); [split; reflexivity|].
  destruct (launch _ _); split; reflexivity.
Qed.

Lemma store_new_page : preserves same_store (new_page net).
Proof. intros w. unfold new_page. destruct (page_opens _ _); split; reflexivity. Qed.

Lemma store_page_goto url : preserves same_store (page_goto net url).
Proof. intros w. unfold page_goto. destruct (navigate _ _ _); split; reflexivity. Qed.

Lemma store_page_close : preserves same_store (page_close net).
Proof. intros w. unfold page_close. destruct (page_closes _ _); split; reflexivity. Qed.

Lemma store_BeautifulSoup d : preserves same_store (BeautifulSoup d).
Proof. intros w. unfold BeautifulSoup. destruct (d_parses d); split; reflexivity. Qed.

Ltac store :=
  repeat first
    [ apply store_head_request | apply store_requests_get
    | apply store_raise_for_status | apply store_ensure | apply store_new_page
    | apply store_page_goto | apply store_page_close | apply store_BeautifulSoup
    | frame_step same_store_refl same_store_trans
    | match goal with
      | |- preserves _ (if ?b then _ else _) => destruct b
      | |- preserves _ (match ?x with _ => _ end) => destruct x
      end ].

Lemma store_extract_metadata url : preserves same_store (extract_metadata net url).
Proof. unfold extract_metadata. store. Qed.

Lemma store_extract_links url : preserves same_store (extract_links_requests net url).
Proof. unfold extract_links_requests. store. Qed.

Lemma store_gamerxyt_requests url : preserves same_store (get_gamerxyt_requests net url).
Proof. unfold get_gamerxyt_requests. store. Qed.

Lemma store_browser_loop bs : forall links,
  preserves same_store (browser_loop net bs links).
Proof.
  induction bs as [|b bs IH]; intros links; cbn [browser_loop]; [store|].
  destruct (classify_browser b); [apply IH|apply IH|].
  apply (preserves_bind _ same_store_trans); [apply store_new_page|]. intros _.
  apply (preserves_bind _ same_store_trans); [store|].
  intros p. apply IH.
Qed.

Lemma store_extract_buttons url :
  preserves same_store (extract_buttons_with_browser net url).
Proof.
  unfold extract_buttons_with_browser.
  apply (preserves_bind _ same_store_trans); [apply store_ensure|]. intros _.
  apply (preserves_bind _ same_store_trans); [apply store_new_page|]. intros _.
  apply (preserves_try_finally _ same_store_trans); [|apply store_page_close].
  apply (preserves_bind _ same_store_trans); [apply store_page_goto|]. intros p.
  destruct (p_has_btn p); [|store].
  apply (preserves_bind _ same_store_trans); [apply store_BeautifulSoup|]. intros d.
  apply store_browser_loop.
Qed.

Lemma store_gamerxyt_browser url :
  preserves same_store (get_gamerxyt_with_browser net url).
Proof. unfold get_gamerxyt_with_browser. store. Qed.

Lemma store_resolve_with_browser g url :
  preserves same_store (resolve_with_browser net g url).
Proof.
  intros w. unfold resolve_with_browser.
  destruct (negb (truthy g) && started w); [|apply same_store_refl].
  apply (preserves_try_except _ same_store_trans);
    [apply store_gamerxyt_browser|store].
Qed.

Lemma store_resolve_loop items : forall acc,
  preserves same_store (resolve_loop net items acc).
Proof.
  induction items as [|[l v] items IH]; intros acc; cbn [resolve_loop]; [store|].
  destruct v as [[|c u]|]; try apply IH.
  destruct (needs_resolution (c :: u)); [|apply IH].
  apply (preserves_bind _ same_store_trans); [apply store_gamerxyt_requests|].
  intros g. apply (preserves_bind _ same_store_trans);
    [apply store_resolve_with_browser|].
  intros g'. destruct (normalize_telegram g') as [[|x h]|]; apply IH.
Qed.

Lemma store_browser_fallback url links :
  preserves same_store (browser_fallback net url links).
Proof.
  unfold browser_fallback. destruct links; [|store].
  apply (preserves_try_except _ same_store_trans); [|store].
  apply (preserves_bind _ same_store_trans); [apply store_extract_buttons|].
  intros pl. destruct pl; store.
Qed.

Lemma store_assemble url head extracted links resolved :
  preserves same_store (assemble url head extracted links resolved).
Proof. unfold assemble. store. Qed.

End StoreFrames.

(** ** Caching *)

Lemma returns_bind {A B} (Q : B -> Prop) (m : M A) (k : A -> M B) :
  (forall a, returns Q (k a)) -> returns Q (bind m k).
Proof.
  intros Hk w b w'. unfold bind.
  destruct (m w) as [[a|e] w1]; [apply Hk|discriminate].
Qed.

Section Caching.

Variable net : oracle.

Lemma store_extract_fresh url : preserves same_store (extract_fresh net url).
Proof.
  unfold extract_fresh.
  apply (preserves_bind _ same_store_trans); [apply store_head_request|]. intros head.
  apply (preserves_bind _ same_store_trans);
    [apply preserves_attempt, store_extract_metadata|]. intros ex.
  apply (preserves_bind _ same_store_trans);
    [apply preserves_attempt, store_extract_links|]. intros ls.
  apply (preserves_bind _ same_store_trans);
    [apply (preserves_lift _ same_store_refl)|]. intros ex'.
  apply (preserves_bind _ same_store_trans);
    [apply (preserves_lift _ same_store_refl)|]. intros links.
  apply (preserves_bind _ same_store_trans); [apply store_browser_fallback|]. intros links'.
  apply (preserves_bind _ same_store_trans); [apply store_resolve_loop|]. intros res.
  apply store_assemble.
Qed.

Lemma extract_fresh_url url :
  returns (fun e => m_url (e_meta e) = url) (extract_fresh net url).
Proof.
  unfold extract_fresh. do 7 (apply returns_bind; intros ?).
  unfold assemble. apply returns_bind. intros sb w e w' H.
  inversion H. reflexivity.
Qed.

(** [process_single_url] past the test of the stripped address. *)
Lemma process_single_url_unfold u f w :
  strip u <> [] ->
  process_single_url net u f w
  = match (if f then Ok None else cache_lookup (strip u) (cache_of w)) with
    | Raise ex => (Raise ex, w)
    | Ok (Some v) => (Ok (strip u, v), w)
    | Ok None =>
        let '(x, w1) := extract_fresh net (strip u) w in
        match x with
        | Raise ex => (Raise ex, w1)
        | Ok e =>
            match cache_set (strip u) e (cache_of w) with
            | Raise ex => (Raise ex, w1)
            | Ok c' =>
                (Ok (strip u, Stored e),
                 if cache_writable w1
                 then World (Some c') true (started w1) (trace w1)
                 else w1)
            end
        end
    end.
Proof.
  unfold process_single_url. cbv zeta. generalize (strip u). intros url Hne.
  destruct url as [|c t]; [contradiction|].
  unfold bind, load_cache, save_cache, lift, ret. cbv beta iota.
  fold (cache_of w).
  assert (Hfresh :
    match extract_fresh net (c :: t) w with
    | (Ok a, w') =>
        match cache_set (c :: t) a (cache_of w) with
        | Ok a0 =>
            match (if cache_writable w'
                   then (Ok tt, World (Some a0) true (started w') (trace w'))
                   else (Ok tt, w')) with
            | (Ok _, w'0) => (Ok (c :: t, Stored a), w'0)
            | (Raise e, w'0) => (Raise e, w'0)
            end
        | Raise e => (Raise e, w')
        end
    | (Raise e, w') => (Raise e, w')
    end
    = (let '(x, w1) := extract_fresh net (c :: t) w in
       match x with
       | Raise ex => (Raise ex, w1)
       | Ok e =>
           match cache_set (c :: t) e (cache_of w) with
           | Raise ex => (Raise ex, w1)
           | Ok c' =>
               (Ok (c :: t, Stored e),
                if cache_writable w1
                then World (Some c') true (started w1) (trace w1)
                else w1)
           end
       end)).
  { destruct (extract_fresh net (c :: t) w) as [[e|ex] w1]; [|reflexivity].
    destruct (cache_set (c :: t) e (cache_of w)); [|reflexivity].
    destruct (cache_writable w1); reflexivity. }
  destruct f; [exact Hfresh|].
  destruct (cache_lookup (c :: t) (cache_of w)) as [[v|]|ex];
    [reflexivity|exact Hfresh|reflexivity].
Qed.

Lemma object_store_lookup w url :
  object_store w = true -> cache_lookup url (cache_of w) = Ok (loaded w !! url).
Proof.
  unfold object_store, cache_of, loaded.
  destruct (cache_file w) as [[c|l|s|]|]; try discriminate; reflexivity.
Qed.

Lemma object_store_set w url e :
  object_store w = true ->
  cache_set url e (cache_of w) = Ok (JObject (<[url := Stored e]> (loaded w))).
Proof.
  unfold object_store, cache_of, loaded.
  destruct (cache_file w) as [[c|l|s|]|]; try discriminate; reflexivity.
Qed.

Lemma other_store_set w url e :
  object_store w = false -> cache_set url e (cache_of w) = Raise TypeError.
Proof.
  unfold object_store, cache_of.
  destruct (cache_file w) as [[c|l|s|]|]; try discriminate; reflexivity.
Qed.

Lemma other_store_lookup w url :
  object_store w = false ->
  cache_lookup url (cache_of w) = Raise TypeError
  \/ cache_lookup url (cache_of w) = Ok None.
Proof.
  unfold object_store, cache_of.
  destruct (cache_file w) as [[c|l|s|]|]; try discriminate; intros _; cbn.
  - destruct (existsb _ _); auto.
  - destruct (contains _ _); auto.
  - auto.
Qed.

Lemma loaded_object_store w k v : loaded w !! k = Some v -> object_store w = true.
Proof.
  unfold loaded, object_store.
  destruct (cache_file w) as [[c|l|s|]|]; try reflexivity;
    rewrite lookup_empty; discriminate.
Qed.

(** The three ways [process_single_url] can go when the cache file is
    missing or holds an object. *)
Lemma process_single_url_cases u f w :
  object_store w = true ->
  let url := strip u in
  let r := process_single_url net u f w in
  (url = [] /\ r = (Raise (ValueError (py "Empty URL")), w))
  \/ (url <> [] /\ f = false
      /\ exists v, loaded w !! url = Some v /\ r = (Ok (url, v), w))
  \/ (url <> [] /\ (f = true \/ loaded w !! url = None)
      /\ r = (let '(x, w1) := extract_fresh net url w in
              match x with
              | Ok e => (Ok (url, Stored e),
                         if cache_writable w1
                         then World (Some (JObject (<[url := Stored e]> (loaded w))))
                                    true (started w1) (trace w1)
                         else w1)
              | Raise ex => (Raise ex, w1)
              end)).
Proof.
  intros Ho url r. subst r url.
  destruct (strip u) as [|c t] eqn:Es.
  { left. split; [reflexivity|]. unfold process_single_url. rewrite Es. reflexivity. }
  right.
  assert (Hne : strip u <> []) by (rewrite Es; discriminate).
  rewrite (process_single_url_unfold u f w Hne), Es.
  rewrite (object_store_lookup w _ Ho).
  assert (Hfresh :
    (let '(x, w1) := extract_fresh net (c :: t) w in
     match x with
     | Raise ex => (Raise ex, w1)
     | Ok e =>
         match cache_set (c :: t) e (cache_of w) with
         | Raise ex => (Raise ex, w1)
         | Ok c' =>
             (Ok (c :: t, Stored e),
              if cache_writable w1
              then World (Some c') true (started w1) (trace w1)
              else w1)
         end
     end)
    = (let '(x, w1) := extract_fresh net (c :: t) w in
       match x with
       | Ok e => (Ok (c :: t, Stored e),
                  if cache_writable w1
                  then World (Some (JObject (<[c :: t := Stored e]> (loaded w))))
                             true (started w1) (trace w1)
                  else w1)
       | Raise ex => (Raise ex, w1)
       end)).
  { destruct (extract_fresh net (c :: t) w) as [[e|ex] w1]; [|reflexivity].
    rewrite (object_store_set w _ e Ho). reflexivity. }
  destruct f.
  - right. split; [discriminate|]. split; [auto|]. exact Hfresh.
  - match goal with
    | |- context [match ?x with Some _ => _ | None => _ end] =>
        destruct x as [v|] eqn:El
    end.
    + left. split; [discriminate|]. split; [reflexivity|]. exists v.
      split; reflexivity.
    + right. split; [discriminate|]. split; [auto|]. exact Hfresh.
Qed.

(** With a cache file that holds something else than an object, no call
    returns: the [TypeError] of the lookup or of the assignment, or what
    the work raised before, leaves it; the file is left as it is. *)
Lemma process_single_url_other_store u f w :
  object_store w = false ->
  exists ex w',
    process_single_url net u f w = (Raise ex, w')
    /\ same_store w w'
    /\ (ex = ValueError (py "Empty URL") /\ w' = w
        \/ ex = TypeError
        \/ exists w1, extract_fresh net (strip u) w = (Raise ex, w1)).
Proof.
  intros Ho.
  destruct (strip u) as [|c t] eqn:Es.
  { exists (ValueError (py "Empty URL")), w. unfold process_single_url.
    rewrite Es. split; [reflexivity|]. split; [apply same_store_refl|auto]. }
  assert (Hne : strip u <> []) by (rewrite Es; discriminate).
  rewrite (process_single_url_unfold u f w Hne), Es.
  assert (Hfresh : exists ex w',
    (let '(x, w1) := extract_fresh net (c :: t) w in
     match x with
     | Raise ex => (Raise ex, w1)
     | Ok e =>
         match cache_set (c :: t) e (cache_of w) with
         | Raise ex => (Raise ex, w1)
         | Ok c' =>
             (Ok (c :: t, Stored e),
              if cache_writable w1
              then World (Some c') true (started w1) (trace w1)
              else w1)
         end
     end) = (Raise ex, w')
    /\ same_store w w'
    /\ (ex = ValueError (py "Empty URL") /\ w' = w
        \/ ex = TypeError
        \/ exists w1, extract_fresh net (c :: t) w = (Raise ex, w1))).
  { pose proof (store_extract_fresh (c :: t) w) as Hs.
    destruct (extract_fresh net (c :: t) w) as [[e|ex] w1]; cbn [snd] in Hs.
    - rewrite (other_store_set w _ e Ho). exists TypeError, w1. auto.
    - exists ex, w1. split; [reflexivity|]. split; [exact Hs|]. right. right.
      exists w1. reflexivity. }
  destruct f; [exact Hfresh|].
  destruct (other_store_lookup w (c :: t) Ho) as [-> | ->]; [|exact Hfresh].
  exists TypeError, w. split; [reflexivity|]. split; [apply same_store_refl|auto].
Qed.

(** What a call that returns has done. *)
Lemma process_single_url_returns u f w k v w' :
  process_single_url net u f w = (Ok (k, v), w') ->
  k = strip u
  /\ ((f = false /\ loaded w !! strip u = Some v /\ w' = w)
      \/ ((f = true \/ loaded w !! strip u = None)
          /\ (exists e, v = Stored e /\ m_url (e_meta e) = strip u)
          /\ (cache_writable w = true ->
              cache_file w' = Some (JObject (<[strip u := v]> (loaded w)))))).
Proof.
  intros H.
  destruct (object_store w) eqn:Ho.
  2:{ destruct (process_single_url_other_store u f w Ho) as (ex & w1 & E & _).
      rewrite H in E. discriminate. }
  destruct (process_single_url_cases u f w Ho)
    as [[_ E]|[(_ & Hf & e0 & Hl & E)|(_ & Hm & E)]];
    cbv zeta in E; rewrite H in E.
  - discriminate.
  - inversion E; subst. split; [reflexivity|]. left. auto.
  - pose proof (store_extract_fresh (strip u) w) as [_ Hw].
    pose proof (extract_fresh_url (strip u) w) as Hu.
    destruct (extract_fresh net (strip u) w) as [[e1|ex] w1]; [|discriminate].
    cbn [snd] in Hw. specialize (Hu e1 w1 eq_refl).
    inversion E; subst. split; [reflexivity|]. right.
    split; [exact Hm|]. split; [exists e1; auto|].
    intros Hwr. rewrite Hw, Hwr. reflexivity.
Qed.

(** A call that returns found the cache file missing or holding an
    object. *)
Lemma process_single_url_returns_object u f w k v w' :
  process_single_url net u f w = (Ok (k, v), w') -> object_store w = true.
Proof.
  intros H. destruct (object_store w) eqn:Ho; [reflexivity|].
  destruct (process_single_url_other_store u f w Ho) as (ex & w1 & E & _).
  rewrite H in E. discriminate.
Qed.

(** A hit: the stripped address is a key of the cache. *)
Lemma process_single_url_hit u w v :
  strip u <> [] -> loaded w !! strip u = Some v ->
  process_single_url net u false w = (Ok (strip u, v), w).
Proof.
  intros Hne Hl.
  rewrite (process_single_url_unfold u false w Hne).
  rewrite (object_store_lookup w _ (loaded_object_store w _ _ Hl)), Hl.
  reflexivity.
Qed.

(** C10. [process_single_url] works on the stripped address.  [strip u]
    is [u] without the white space at its two ends, and nothing else
    is; a call on [u] is the call on [strip u]; the stripped address is
    the key looked up in the cache (a call for which it is a key is a
    hit, whatever white space surrounds the address given), the key of
    the mapping returned, the [url] field of the [meta] of an entry the
    call builds and the key under which that entry is written; so the
    call on [u] with white space added at either end is the call on
    [u], with the same result and the same cache entry, as are the
    calls on any two inputs with the same stripped form. *)
Theorem process_single_url_strips :
  forall u f w,
    (forall s, stripped_of u s <-> s = strip u)
    /\ process_single_url net u f w = process_single_url net (strip u) f w
    /\ (forall v, strip u <> [] -> loaded w !! strip u = Some v ->
          process_single_url net u false w = (Ok (strip u, v), w))
    /\ (forall k v w', process_single_url net u f w = (Ok (k, v), w') ->
          k = strip u
          /\ ((f = false /\ loaded w !! strip u = Some v /\ w' = w)
              \/ ((f = true \/ loaded w !! strip u = None)
                  /\ (exists e, v = Stored e /\ m_url (e_meta e) = strip u)
                  /\ (cache_writable w = true ->
                      cache_file w'
                      = Some (JObject (<[strip u := v]> (loaded w)))))))
    /\ (forall l r, forallb is_space l = true -> forallb is_space r = true ->
          process_single_url net (l ++ u ++ r) f w = process_single_url net u f w)
    /\ (forall u2, strip u2 = strip u ->
          process_single_url net u2 f w = process_single_url net u f w).
Proof.
  intros u f w. split; [|split; [|split; [|split; [|split]]]].
  - intros s. apply strip_stripped_of.
  - unfold process_single_url. rewrite strip_idem. reflexivity.
  - intros v. apply process_single_url_hit.
  - intros k v w'. apply process_single_url_returns.
  - intros l r Hl Hr. unfold process_single_url.
    rewrite (strip_pad l u r Hl Hr). reflexivity.
  - intros u2 E. unfold process_single_url. rewrite E. reflexivity.
Qed.

(** The keys stay canonical whatever [process_single_url] does. *)
Lemma canonical_keys_preserved u f w :
  canonical_keys (loaded w) ->
  canonical_keys (loaded (snd (process_single_url net u f w))).
Proof.
  intros Hk.
  destruct (object_store w) eqn:Ho.
  2:{ destruct (process_single_url_other_store u f w Ho) as (ex & w1 & E & [Hf _] & _).
      rewrite E. cbn [snd]. unfold loaded in *. rewrite Hf. exact Hk. }
  destruct (process_single_url_cases u f w Ho)
    as [[_ E]|[(_ & _ & e0 & _ & E)|(Hne & _ & E)]];
    cbv zeta in E; rewrite E; clear E; try exact Hk.
  pose proof (store_extract_fresh (strip u) w) as [Hf Hw].
  destruct (extract_fresh net (strip u) w) as [[e1|ex] w1]; cbn [snd] in *.
  - destruct (cache_writable w1).
    + unfold loaded at 1. cbn [cache_file]. intros k e Hl.
      destruct (decide (strip u = k)) as [<-|Hd].
      * split; [apply strip_idem|exact Hne].
      * rewrite lookup_insert_ne in Hl by exact Hd. exact (Hk k e Hl).
    + unfold loaded in *. rewrite Hf. exact Hk.
  - unfold loaded in *. rewrite Hf. exact Hk.
Qed.

(** A call that returns, followed by a call for the same address: when
    the cache file can be written, or the first call was a hit, the
    second call returns the same and leaves the world as it is. *)
Lemma miss_then_hit u k v w w1 :
  cache_writable w = true \/ loaded w !! strip u <> None ->
  process_single_url net u false w = (Ok (k, v), w1) ->
  process_single_url net u false w1 = (Ok (k, v), w1).
Proof.
  intros Hwr H.
  assert (Hne : strip u <> []).
  { intros E0. unfold process_single_url in H. rewrite E0 in H. discriminate. }
  destruct (process_single_url_returns u false w k v w1 H)
    as [-> [(_ & Hl & ->)|([Hf|Hm] & _ & Hfile)]]; [exact H|discriminate|].
  destruct Hwr as [Hwr|Hh]; [|contradiction].
  specialize (Hfile Hwr).
  apply process_single_url_hit; [exact Hne|].
  unfold loaded. rewrite Hfile. apply lookup_insert_eq.
Qed.

(** C3, amended. For every address [u] whose stripped form is not empty
    and is a key of the cache, a call with [force_refresh = false]
    returns what is stored under that key, unchanged, and leaves the
    world as it was: no request is sent, no page is opened, nothing is
    written.  And of two successive calls with [force_refresh = false],
    the first of which returns, the second returns the same mapping and
    does nothing else, provided the first call was a hit or the cache
    file can be written. *)
Theorem cache_idempotence :
  forall u w,
    (forall v, strip u <> [] -> loaded w !! strip u = Some v ->
       process_single_url net u false w = (Ok (strip u, v), w)
       /\ new_events w (snd (process_single_url net u false w)) = [])
    /\ (forall k v w1,
          process_single_url net u false w = (Ok (k, v), w1) ->
          cache_writable w = true \/ loaded w !! strip u <> None ->
          process_single_url net u false w1 = (Ok (k, v), w1)
          /\ new_events w1 (snd (process_single_url net u false w1)) = []).
Proof.
  intros u w. split.
  - intros v Hne Hl. rewrite (process_single_url_hit u w v Hne Hl).
    split; [reflexivity|]. unfold new_events. apply skipn_all.
  - intros k v w1 H Hwr. rewrite (miss_then_hit u k v w w1 Hwr H).
    split; [reflexivity|]. unfold new_events. apply skipn_all.
Qed.

End Caching.

Example demo_run :
  fst (process_single_url demo_net (py "  https://hubcloud.example/drive/abc ") false world0)
  = Ok (demo_url, Stored demo_entry).
Proof. vm_compute. reflexivity. Qed.

Lemma process_single_url_strips_witness :
  process_single_url demo_net (py "  " ++ demo_url ++ py " ") false world0
  = process_single_url demo_net demo_url false world0.
Proof.
  apply (proj1 (proj2 (proj2 (proj2 (proj2
           (process_single_url_strips demo_net demo_url false world0)))))
           (py "  ") (py " ")); reflexivity.
Defined.

Lemma cache_idempotence_witness :
  process_single_url demo_net demo_url false world_cached
  = (Ok (demo_url, Stored demo_entry), world_cached).
Proof.
  apply (proj1 (cache_idempotence demo_net demo_url world_cached)
           (Stored demo_entry)).
  - vm_compute. discriminate.
  - replace (strip demo_url) with demo_url by (vm_compute; reflexivity).
    apply lookup_insert_eq.
Defined.

(** C3, as stated, fails.  With a cache file that cannot be written,
    the second of two calls with [force_refresh = false] sends the same
    four requests as the first (both return the same entry).  And an
    address that is a key of the cache is not found when it has white
    space around it: the key looked up is the stripped address; when it
    is empty, the call raises whatever the cache holds. *)
Lemma cache_idempotence_counterexample :
  (let r1 := process_single_url demo_net demo_url false world_readonly in
   let r2 := process_single_url demo_net demo_url false (snd r1) in
   fst r1 = Ok (demo_url, Stored demo_entry)
   /\ fst r2 = Ok (demo_url, Stored demo_entry)
   /\ new_events world_readonly (snd r1)
      = [EvHead demo_url; EvGet demo_url; EvGet demo_url; EvGet demo_redirector]
   /\ new_events (snd r1) (snd r2)
      = [EvHead demo_url; EvGet demo_url; EvGet demo_url; EvGet demo_redirector])
  /\ (loaded world_padded !! padded_url = Some (Foreign (py "1"))
      /\ new_events world_padded
           (snd (process_single_url demo_net padded_url false world_padded))
         = [EvHead demo_url; EvGet demo_url; EvGet demo_url;
            EvGet demo_redirector])
  /\ (loaded world_blank_key !! [] = Some (Foreign (py "1"))
      /\ process_single_url demo_net [] false world_blank_key
         = (Raise (ValueError (py "Empty URL")), world_blank_key)).
Proof.
  split; [|split].
  - vm_compute. repeat split; reflexivity.
  - split; [apply lookup_insert_eq|]. vm_compute. reflexivity.
  - split; [apply lookup_insert_eq|reflexivity].
Qed.

(** ** The resolution loop leaves the engine alone *)

Lemma engine_untouched_refl w : engine_untouched w w.
Proof. repeat split. Qed.

Lemma engine_untouched_trans a b c :
  engine_untouched a b -> engine_untouched b c -> engine_untouched a c.
Proof.
  intros (H1 & H2 & H2' & H3) (H4 & H5 & H5' & H6). repeat split; try congruence.
  intros Ha. rewrite H6, H3; congruence.
Qed.

Lemma launches_app t e :
  launches (t ++ [e]) = (launches t + if is_launch e then 1 else 0)%nat.
Proof.
  unfold launches. rewrite List.filter_app, length_app. simpl.
  destruct (is_launch e); reflexivity.
Qed.

Lemma engines_created_app t e :
  engines_created (t ++ [e])
  = (engines_created t + match e with EvLaunch true => 1 | _ => 0 end)%nat.
Proof.
  unfold engines_created. rewrite List.filter_app, length_app. simpl.
  destruct e as [| |[|]| | |]; reflexivity.
Qed.

Lemma navigations_app t e :
  navigations (t ++ [e]) = (navigations t + if is_navigate e then 1 else 0)%nat.
Proof.
  unfold navigations. rewrite List.filter_app, length_app. simpl.
  destruct (is_navigate e); reflexivity.
Qed.

Section EngineFrames.

Variable net : oracle.

Lemma engine_requests_get url : preserves engine_untouched (requests_get net url).
Proof.
  intros w. unfold requests_get.
  destruct (http_get _ _ _); cbn [snd]; unfold engine_untouched, log_event;
    cbn [started trace];
    rewrite launches_app, navigations_app, engines_created_app; simpl;
    repeat split; lia.
Qed.

Lemma engine_gamerxyt_requests url :
  preserves engine_untouched (get_gamerxyt_requests net url).
Proof.
  unfold get_gamerxyt_requests.
  apply (preserves_try_except _ engine_untouched_trans).
  - apply (preserves_bind _ engine_untouched_trans); [apply engine_requests_get|].
    intros resp. destruct (contains _ _); apply (preserves_ret _ engine_untouched_refl).
  - apply (preserves_ret _ engine_untouched_refl).
Qed.

(** With the engine running, [ensure_playwright_started] returns at once. *)
Lemma ensure_started_noop w :
  started w = true -> ensure_playwright_started net w = (Ok tt, w).
Proof. intros H. unfold ensure_playwright_started. rewrite H. reflexivity. Qed.

Lemma running_kept_refl w : running_kept w w.
Proof. intros H. auto. Qed.

Lemma running_kept_trans a b c :
  running_kept a b -> running_kept b c -> running_kept a c.
Proof.
  intros H1 H2 Ha. destruct (H1 Ha) as (Hb & L1 & E1).
  destruct (H2 Hb) as (Hc & L2 & E2). repeat split; congruence.
Qed.

(** Logging anything but an engine start. *)
Lemma running_kept_log e w :
  is_launch e = false -> running_kept w (log_event e w).
Proof.
  intros He Hw. unfold log_event. cbn [started trace].
  rewrite launches_app, engines_created_app, He.
  destruct e as [| |[|]| | |]; try discriminate; repeat split; auto; lia.
Qed.

Lemma running_ensure : preserves running_kept (ensure_playwright_started net).
Proof. intros w Hw. rewrite (ensure_started_noop w Hw). auto. Qed.

Lemma running_new_page : preserves running_kept (new_page net).
Proof.
  intros w. unfold new_page.
  destruct (page_opens _ _); apply running_kept_log; reflexivity.
Qed.

Lemma running_page_goto url : preserves running_kept (page_goto net url).
Proof.
  intros w. unfold page_goto.
  destruct (navigate _ _ _); apply running_kept_log; reflexivity.
Qed.

Lemma running_page_close : preserves running_kept (page_close net).
Proof.
  intros w. unfold page_close.
  destruct (page_closes _ _); apply running_kept_log; reflexivity.
Qed.

(** With the engine running, the browser step of the resolution leaves
    the flag set and starts nothing. *)
Lemma running_gamerxyt_browser url :
  preserves running_kept (get_gamerxyt_with_browser net url).
Proof.
  unfold get_gamerxyt_with_browser.
  apply (preserves_bind _ running_kept_trans); [apply running_ensure|]. intros _.
  apply (preserves_bind _ running_kept_trans); [apply running_new_page|]. intros _.
  apply (preserves_try_finally _ running_kept_trans); [|apply running_page_close].
  apply (preserves_try_except _ running_kept_trans);
    [|apply (preserves_ret _ running_kept_refl)].
  apply (preserves_bind _ running_kept_trans); [apply running_page_goto|]. intros p.
  destruct (negb (p_idle p)); [apply (preserves_raise _ running_kept_refl)|].
  destruct (contains _ (p_url p)); apply (preserves_ret _ running_kept_refl).
Qed.

Lemma engine_resolve_with_browser g url :
  preserves engine_untouched (resolve_with_browser net g url).
Proof.
  intros w. unfold resolve_with_browser.
  destruct (negb (truthy g)); cbn [andb]; [|apply engine_untouched_refl].
  destruct (started w) eqn:Hs; [|apply engine_untouched_refl].
  assert (H : running_kept w
                (snd (try_except (get_gamerxyt_with_browser net url) (ret None) w))).
  { apply (preserves_try_except _ running_kept_trans);
      [apply running_gamerxyt_browser|apply (preserves_ret _ running_kept_refl)]. }
  destruct (H Hs) as (H1 & H2 & H3).
  unfold engine_untouched. rewrite Hs. repeat split; auto. discriminate.
Qed.

Lemma engine_resolve_loop items : forall acc,
  preserves engine_untouched (resolve_loop net items acc).
Proof.
  induction items as [|[l v] items IH]; intros acc; cbn [resolve_loop];
    [apply (preserves_ret _ engine_untouched_refl)|].
  destruct v as [[|c u]|]; try apply IH.
  destruct (needs_resolution (c :: u)); [|apply IH].
  apply (preserves_bind _ engine_untouched_trans); [apply engine_gamerxyt_requests|].
  intros g. apply (preserves_bind _ engine_untouched_trans);
    [apply engine_resolve_with_browser|].
  intros g'. destruct (normalize_telegram g') as [[|x h]|]; apply IH.
Qed.

(** The browser step is taken only with the engine running. *)
Lemma resolve_with_browser_sleeping g url w :
  started w = false -> resolve_with_browser net g url w = (Ok g, w).
Proof.
  intros H. unfold resolve_with_browser. rewrite H, andb_false_r. reflexivity.
Qed.

(** C9. During the resolution of redirect chains the engine is never
    started: whatever the links and whatever the network answers, the
    loop keeps the [started] flag as it found it and attempts no engine
    start; with the engine sleeping it opens no browser page, the
    browser step handing back what the HTTP step found; the browser
    path is entered only with the flag already true. *)
Theorem resolution_never_starts_engine :
  forall items acc w,
    let w' := snd (resolve_loop net items acc w) in
    started w' = started w
    /\ launches (trace w') = launches (trace w)
    /\ engines_created (trace w') = engines_created (trace w)
    /\ (started w = false -> navigations (trace w') = navigations (trace w))
    /\ (forall g url w0, started w0 = false ->
          resolve_with_browser net g url w0 = (Ok g, w0)).
Proof.
  intros items acc w w'. subst w'.
  destruct (engine_resolve_loop items acc w) as (H1 & H2 & H3 & H4).
  repeat split; auto using resolve_with_browser_sleeping.
Qed.

End EngineFrames.

(** ** Soft and hard failure of the probes *)

Section Probes.

Variable net : oracle.

(** The head probe never raises; a failed request gives three [None]. *)
Lemma head_request_soft url w :
  exists d, fst (head_request net url w) = Ok d
    /\ (http_head net (clock w) url = None -> d = HeadDict None None None).
Proof.
  unfold head_request. destruct (http_head net (clock w) url).
  - eexists. split; [reflexivity|discriminate].
  - eexists. split; reflexivity.
Qed.

(** The links probe absorbs what its request raises: a failed request
    gives no link.  It raises only when the parser rejects the page. *)
Lemma extract_links_requests_soft url w :
  (metadata_probe_fails net (clock w) url ->
   fst (extract_links_requests net url w) = Ok [])
  /\ (forall e, fst (extract_links_requests net url w) = Raise e ->
        e = ParserError).
Proof.
  unfold extract_links_requests, try_except, bind, requests_get,
    raise_for_status, metadata_probe_fails, BeautifulSoup.
  destruct (http_get net (clock w) url) as [r|].
  - destruct (is_error_status (r_status r)); cbn.
    + split; [reflexivity|discriminate].
    + split; [discriminate|].
      destruct (d_parses (r_doc r)); cbn; [discriminate|congruence].
  - split; [reflexivity|discriminate].
Qed.

(** The metadata probe raises. *)
Lemma extract_metadata_raises url w :
  metadata_probe_fails net (clock w) url ->
  fst (extract_metadata net url w) = Raise RequestError.
Proof.
  unfold extract_metadata, bind, requests_get, raise_for_status,
    metadata_probe_fails.
  destruct (http_get net (clock w) url) as [r|]; [|reflexivity].
  intros ->. reflexivity.
Qed.

Lemma clock_head_request url w :
  clock (snd (head_request net url w)) = S (clock w).
Proof.
  unfold head_request. destruct (http_head _ _ _); cbn [snd];
    unfold clock, log_event; cbn [trace]; rewrite length_app; simpl; lia.
Qed.

Lemma extract_fresh_raises url w :
  metadata_probe_fails net (S (clock w)) url ->
  fst (extract_fresh net url w) = Raise RequestError.
Proof.
  intros Hf. unfold extract_fresh. unfold bind at 1.
  pose proof (clock_head_request url w) as Hc.
  destruct (head_request net url w) as [[d|e] w1] eqn:Eh.
  2:{ destruct (head_request_soft url w) as (d & Hd & _).
      rewrite Eh in Hd. discriminate. }
  cbn [snd] in Hc. rewrite <- Hc in Hf.
  unfold bind at 1. unfold attempt.
  pose proof (extract_metadata_raises url w1 Hf) as Hm.
  destruct (extract_metadata net url w1) as [rm w2]. cbn [fst] in Hm. subst rm.
  unfold bind at 1. unfold attempt.
  destruct (extract_links_requests net url w2) as [rl w3].
  reflexivity.
Qed.

(** What a probe raises leaves [process_single_url]. *)
Lemma process_single_url_raises u f w :
  strip u <> [] ->
  (f = true \/ cache_lookup (strip u) (cache_of w) = Ok None) ->
  metadata_probe_fails net (S (clock w)) (strip u) ->
  fst (process_single_url net u f w) = Raise RequestError.
Proof.
  intros Hne Hm Hf.
  rewrite (process_single_url_unfold net u f w Hne).
  assert (E : (if f then Ok None else cache_lookup (strip u) (cache_of w))
              = Ok None).
  { destruct f; [reflexivity|]. destruct Hm as [Hm|Hm]; [discriminate|exact Hm]. }
  rewrite E.
  pose proof (extract_fresh_raises (strip u) w Hf) as Hr.
  destruct (extract_fresh net (strip u) w) as [[e|ex] w1]; cbn [fst] in Hr;
    [discriminate|]. cbn [fst]. inversion Hr. reflexivity.
Qed.

End Probes.

(** C1 (the code against it). With the page request of the metadata probe
    failing, [process_single_url] does not return an entry with empty
    metadata: the exception of the probe leaves it, after the three
    requests have been sent and with nothing written to the cache. *)
Theorem metadata_probe_failure_escapes :
  process_single_url down_net demo_url false world0
  = (Raise RequestError,
     World None true false [EvHead demo_url; EvGet demo_url; EvGet demo_url]).
Proof. vm_compute. reflexivity. Qed.

Lemma resolution_never_starts_engine_witness :
  navigations (trace (snd (resolve_loop demo_net
                             [(Telegram, Some demo_redirector)] [] world0)))
  = navigations (trace world0).
Proof.
  pose proof (resolution_never_starts_engine demo_net
                [(Telegram, Some demo_redirector)] [] world0) as (_ & _ & _ & H & _).
  apply H. reflexivity.
Defined.

(** ** Engine lifecycle *)

Lemma in_insert_point (l : list Lifecycle.point) i p q :
  In q (<[i := p]> l) -> q = p \/ In q l.
Proof.
  revert i. induction l as [|x l IH]; intros [|i]; simpl; auto.
  - intros [<-|H]; auto.
  - intros [<-|H]; auto. destruct (IH i H); auto.
Qed.

Lemma step_returned_sees_started s i :
  returned_sees_started s -> returned_sees_started (Lifecycle.step s i).
Proof.
  unfold returned_sees_started, Lifecycle.step, Lifecycle.set_task. intros Hs.
  destruct (Lifecycle.s_tasks s !! i) as [[| |p|]|] eqn:E; try exact Hs.
  - destruct (Lifecycle.s_started s) eqn:Es; cbn; [reflexivity|].
    intros H. apply in_insert_point in H as [H|H]; [discriminate|auto].
  - cbn. intros H. apply in_insert_point in H as [H|H]; [discriminate|auto].
  - cbn. reflexivity.
Qed.

(** Whatever the schedule, a caller that has returned has seen
    [started = true]. *)
Lemma run_returned_sees_started schedule : forall s,
  returned_sees_started s -> returned_sees_started (Lifecycle.run schedule s).
Proof.
  unfold Lifecycle.run.
  induction schedule as [|i schedule IH]; intros s Hs; [exact Hs|].
  cbn [fold_left]. apply IH, step_returned_sees_started, Hs.
Qed.

Lemma init_returned_sees_started n : returned_sees_started (Lifecycle.init n).
Proof.
  unfold returned_sees_started, Lifecycle.init. cbn. intros H.
  apply repeat_spec in H. discriminate.
Qed.

(** One caller after the other: one engine. *)
Lemma serial_start_creates_one_engine :
  Lifecycle.s_browsers (Lifecycle.run serial_schedule (Lifecycle.init 2)) = 1%nat
  /\ Lifecycle.all_returned (Lifecycle.run serial_schedule (Lifecycle.init 2)) = true.
Proof. split; reflexivity. Qed.

(** C5 (the code against it). Two callers that both pass the test of the
    flag before either sets it start an engine each: both return with
    [started = true], and two browser instances exist, the first one no
    longer referenced by the state. *)
Theorem concurrent_start_creates_two_engines :
  Lifecycle.run racing_schedule (Lifecycle.init 2)
  = Lifecycle.Sys true (Some 2%nat) (Some 2%nat) 2 2
      [Lifecycle.Returned; Lifecycle.Returned]
  /\ Lifecycle.s_browsers (Lifecycle.run racing_schedule (Lifecycle.init 2)) = 2%nat
  /\ Lifecycle.all_returned (Lifecycle.run racing_schedule (Lifecycle.init 2)) = true.
Proof. repeat split; reflexivity. Qed.

(** ** Edge proxy *)

Section ProxyFacts.

Import Proxy.

Variable cfg : config.
Variable compute : tier.

Lemma turns_step t :
  t < MAX_BLOCK_WAIT cfg -> turns cfg t = S (turns cfg (t + 2)).
Proof.
  intros H. unfold turns.
  replace (MAX_BLOCK_WAIT cfg - t + 1) with ((MAX_BLOCK_WAIT cfg - (t + 2) + 1) + 1 * 2) by lia.
  rewrite Z.div_add by lia.
  rewrite <- Z2Nat.inj_succ; [f_equal; lia|].
  apply Z.div_pos; lia.
Qed.

(** The loop ends within [turns] turns: more fuel changes nothing. *)
Lemma poll_fuel_enough fuel : forall t n,
  (turns cfg t <= fuel)%nat ->
  poll cfg compute fuel t n = poll cfg compute (turns cfg t) t n.
Proof.
  induction fuel as [|fuel IH]; intros t n Hf.
  - replace (turns cfg t) with 0%nat by lia. reflexivity.
  - destruct (Z.ltb_spec t (MAX_BLOCK_WAIT cfg)) as [Hlt|Hge].
    + rewrite (turns_step t Hlt) in *. cbn [poll].
      apply Z.ltb_lt in Hlt. rewrite Hlt.
      assert (Hf' : (turns cfg (t + 2) <= fuel)%nat) by lia.
      destruct (compute n GetHealth) as [r2|]; [|apply IH; exact Hf'].
      destruct (status_code r2 =? 200); [|apply IH; exact Hf'].
      destruct (compute (S n) (GetExtract 30)) as [r3|]; [|apply IH; exact Hf'].
      destruct (json r3); [reflexivity|apply IH; exact Hf'].
    + cbn [poll]. apply Z.ltb_ge in Hge. rewrite Hge.
      destruct (turns cfg t); cbn [poll]; [reflexivity|]. rewrite Hge. reflexivity.
Qed.

(** The loop ends with the waking response or with the relay of a
    re-issued extraction. *)
Lemma poll_outcomes fuel : forall t n,
  poll cfg compute fuel t n = waking_response cfg
  \/ relays_reissued compute (poll cfg compute fuel t n).
Proof.
  induction fuel as [|fuel IH]; intros t n; cbn [poll]; [left; reflexivity|].
  destruct (t <? MAX_BLOCK_WAIT cfg); [|left; reflexivity].
  destruct (compute n GetHealth) as [r2|] eqn:E2; [|apply IH].
  destruct (status_code r2 =? 200) eqn:Es; [|apply IH].
  destruct (compute (S n) (GetExtract 30)) as [r3|] eqn:E3; [|apply IH].
  destruct (json r3) as [body|] eqn:Ej; [|apply IH].
  right. exists n, r2, r3, body. apply Z.eqb_eq in Es. auto.
Qed.

(** What the proxy hands on when the fast forward ends in one of the
    ways the handler provides for.  With the proxy configured, an
    address given and the fast forward ending in an answer, a connect
    error or a read timeout: without [wait] the client gets the relayed 200 answer or
    the 202 waking response, never an error; with [wait] it gets one of
    these two or, after a healthy poll, the answer to the re-issued
    extraction, relayed with the status the compute tier gave it,
    whatever that status is; errors of the wake call, of the health
    polls and of the re-issued request are never handed on. *)
Theorem proxy_normalizes_unavailability :
  forall url force wait,
    truthy (RAILWAY_URL cfg) = true -> truthy url = true ->
    fast_forward_handled compute ->
    let resp := proxy_get cfg compute url force wait in
    (exists body, resp = JSONResponse 200 (Relayed body) [])
    \/ resp = waking_response cfg
    \/ (wait = true /\ relays_reissued compute resp).
Proof.
  intros url force wait Hc Hu Hf resp. subst resp.
  unfold proxy_get. rewrite Hc, Hu. cbn [negb].
  unfold fast_forward_handled in Hf.
  assert (Haw : (if wait then poll cfg compute (turns cfg 0) 0 2 else waking_response cfg)
                = waking_response cfg
                \/ (wait = true
                    /\ relays_reissued compute
                         (if wait then poll cfg compute (turns cfg 0) 0 2
                          else waking_response cfg))).
  { destruct wait; [|left; reflexivity].
    destruct (poll_outcomes (turns cfg 0) 0 2); [left|right]; auto. }
  destruct (compute 0%nat (GetExtract 8)) as [r|[| |]].
  - destruct (status_code r =? 200) eqn:Es.
    + apply Z.eqb_eq in Es. specialize (Hf Es).
      destruct (json r) as [body|]; [|congruence]. left. eauto.
    + right. exact Haw.
  - right. exact Haw.
  - right. exact Haw.
  - contradiction.
Qed.

(** C4 (the code against it). The fast forward catches two exceptions of
    the HTTP client by name.  When it ends in any other one (a connect
    timeout, a read error, a protocol error), or in a 200 answer whose
    body is not JSON, the exception leaves the handler before the wake
    call and the client gets a server error, with [wait] and without:
    the unavailability is not turned into the 202 waking response, as
    it is for the wake call and the health polls, which catch every
    exception. *)
Theorem proxy_fast_forward_escapes :
  forall url force wait,
    truthy (RAILWAY_URL cfg) = true -> truthy url = true ->
    (compute 0%nat (GetExtract 8) = Failed OtherError
     \/ exists r, compute 0%nat (GetExtract 8) = Answered r
                  /\ status_code r = 200 /\ json r = None) ->
    (exists f, proxy_get cfg compute url force wait = Unhandled f)
    /\ proxy_get cfg compute url force wait <> waking_response cfg
    /\ surfaces_error (proxy_get cfg compute url force wait) = true.
Proof.
  intros url force wait Hc Hu H.
  assert (E : exists f, proxy_get cfg compute url force wait = Unhandled f).
  { unfold proxy_get. rewrite Hc, Hu. cbn [negb].
    destruct H as [-> | (r & -> & Hs & Hj)]; [eexists; reflexivity|].
    rewrite Hs, Hj. eexists. reflexivity. }
  destruct E as [f E]. rewrite E. split; [eexists; reflexivity|].
  split; [discriminate|reflexivity].
Qed.

End ProxyFacts.

(** In the [wait] path the proxy hands the client the status of the
    extraction re-issued after the first healthy poll, here a 500. *)
Lemma proxy_relays_5xx_counterexample :
  Proxy.proxy_get demo_cfg tier_500 (Some demo_url) false true
  = Proxy.JSONResponse 500 (Proxy.Relayed (py "[500]")) []
  /\ surfaces_error (Proxy.proxy_get demo_cfg tier_500 (Some demo_url) false true) = true.
Proof. split; vm_compute; reflexivity. Qed.

Lemma proxy_fast_forward_escapes_witness :
  surfaces_error (Proxy.proxy_get demo_cfg tier_timeout (Some demo_url) false true)
  = true.
Proof.
  apply (proxy_fast_forward_escapes demo_cfg tier_timeout (Some demo_url) false true).
  - reflexivity.
  - reflexivity.
  - left. reflexivity.
Defined.

Lemma proxy_normalizes_unavailability_witness :
  (exists body, Proxy.proxy_get demo_cfg tier_down (Some demo_url) false false
                = Proxy.JSONResponse 200 (Proxy.Relayed body) [])
  \/ Proxy.proxy_get demo_cfg tier_down (Some demo_url) false false
     = Proxy.waking_response demo_cfg
  \/ (false = true
      /\ relays_reissued tier_down
           (Proxy.proxy_get demo_cfg tier_down (Some demo_url) false false)).
Proof.
  apply (proxy_normalizes_unavailability demo_cfg tier_down (Some demo_url) false false).
  - reflexivity.
  - reflexivity.
  - exact I.
Defined.

(** * Further properties *)

(** ** Frames for every step that only logs or sets the flag *)

Section LogFrames.

Context (R : world -> world -> Prop).
Hypothesis R_refl : forall w, R w w.
Hypothesis R_trans : forall a b c, R a b -> R b c -> R a c.
Hypothesis R_log : forall e w, R w (log_event e w).
Hypothesis R_start : forall w, R w (set_started w).

Variable net : oracle.

Ltac lf :=
  repeat first
    [ apply (preserves_bind _ R_trans); [|intros ?]
    | apply (preserves_try_except _ R_trans)
    | apply (preserves_try_finally _ R_trans)
    | apply (preserves_attempt _)
    | apply (preserves_ret _ R_refl)
    | apply (preserves_raise _ R_refl)
    | apply (preserves_lift _ R_refl)
    | match goal with
      | |- preserves _ (if ?b then _ else _) => destruct b
      | |- preserves _ (match ?x with _ => _ end) => destruct x
      end ].

Lemma lf_head_request url : preserves R (head_request net url).
Proof. intros w. unfold head_request. destruct (http_head _ _ _); apply R_log. Qed.

Lemma lf_requests_get url : preserves R (requests_get net url).
Proof. intros w. unfold requests_get. destruct (http_get _ _ _); apply R_log. Qed.

Lemma lf_raise_for_status r : preserves R (raise_for_status r).
Proof. unfold raise_for_status. lf. Qed.

Lemma lf_ensure : preserves R (ensure_playwright_started net).
Proof.
  intros w. unfold ensure_playwright_started.
  destruct (started w); [apply R_refl|].
  destruct (launch _ _); cbn [snd]; [|apply R_log].
  eapply R_trans; [apply R_log|apply R_start].
Qed.

Lemma lf_new_page : preserves R (new_page net).
Proof. intros w. unfold new_page. destruct (page_opens _ _); apply R_log. Qed.

Lemma lf_page_goto url : preserves R (page_goto net url).
Proof. intros w. unfold page_goto. destruct (navigate _ _ _); apply R_log. Qed.

Lemma lf_page_close : preserves R (page_close net).
Proof. intros w. unfold page_close. destruct (page_closes _ _); apply R_log. Qed.

Lemma lf_BeautifulSoup d : preserves R (BeautifulSoup d).
Proof. unfold BeautifulSoup. lf. Qed.

Lemma lf_extract_metadata url : preserves R (extract_metadata net url).
Proof.
  unfold extract_metadata.
  apply (preserves_bind _ R_trans); [apply lf_requests_get|]. intros r.
  apply (preserves_bind _ R_trans); [apply lf_raise_for_status|]. intros _.
  apply (preserves_bind _ R_trans); [apply lf_BeautifulSoup|]. intros d. lf.
Qed.

Lemma lf_extract_links url : preserves R (extract_links_requests net url).
Proof.
  unfold extract_links_requests.
  apply (preserves_bind _ R_trans).
  - apply (preserves_try_except _ R_trans); [|lf].
    apply (preserves_bind _ R_trans); [apply lf_requests_get|]. intros r.
    apply (preserves_bind _ R_trans); [apply lf_raise_for_status|]. intros _. lf.
  - intros [r|]; [|lf].
    apply (preserves_bind _ R_trans); [apply lf_BeautifulSoup|]. intros d. lf.
Qed.

Lemma lf_gamerxyt_requests url : preserves R (get_gamerxyt_requests net url).
Proof.
  unfold get_gamerxyt_requests. apply (preserves_try_except _ R_trans); [|lf].
  apply (preserves_bind _ R_trans); [apply lf_requests_get|]. intros r. lf.
Qed.

Lemma lf_browser_loop bs : forall links, preserves R (browser_loop net bs links).
Proof.
  induction bs as [|b bs IH]; intros links; cbn [browser_loop]; [lf|].
  destruct (classify_browser b); [apply IH|apply IH|].
  apply (preserves_bind _ R_trans); [apply lf_new_page|]. intros _.
  apply (preserves_bind _ R_trans); [|intros p; apply IH].
  apply (preserves_try_finally _ R_trans); [|apply lf_page_close].
  apply (preserves_bind _ R_trans); [apply lf_page_goto|]. intros p. lf.
Qed.

Lemma lf_extract_buttons url : preserves R (extract_buttons_with_browser net url).
Proof.
  unfold extract_buttons_with_browser.
  apply (preserves_bind _ R_trans); [apply lf_ensure|]. intros _.
  apply (preserves_bind _ R_trans); [apply lf_new_page|]. intros _.
  apply (preserves_try_finally _ R_trans); [|apply lf_page_close].
  apply (preserves_bind _ R_trans); [apply lf_page_goto|]. intros p.
  destruct (p_has_btn p); [|lf].
  apply (preserves_bind _ R_trans); [apply lf_BeautifulSoup|]. intros d.
  apply lf_browser_loop.
Qed.

Lemma lf_gamerxyt_browser url : preserves R (get_gamerxyt_with_browser net url).
Proof.
  unfold get_gamerxyt_with_browser.
  apply (preserves_bind _ R_trans); [apply lf_ensure|]. intros _.
  apply (preserves_bind _ R_trans); [apply lf_new_page|]. intros _.
  apply (preserves_try_finally _ R_trans); [|apply lf_page_close].
  apply (preserves_try_except _ R_trans); [|lf].
  apply (preserves_bind _ R_trans); [apply lf_page_goto|]. intros p. lf.
Qed.

Lemma lf_resolve_with_browser g url : preserves R (resolve_with_browser net g url).
Proof.
  intros w. unfold resolve_with_browser.
  destruct (negb (truthy g) && started w); [|apply R_refl].
  apply (preserves_try_except _ R_trans); [apply lf_gamerxyt_browser|lf].
Qed.

Lemma lf_resolve_loop items : forall acc, preserves R (resolve_loop net items acc).
Proof.
  induction items as [|[l v] items IH]; intros acc; cbn [resolve_loop]; [lf|].
  destruct v as [[|c u]|]; try apply IH.
  destruct (needs_resolution (c :: u)); [|apply IH].
  apply (preserves_bind _ R_trans); [apply lf_gamerxyt_requests|]. intros g.
  apply (preserves_bind _ R_trans); [apply lf_resolve_with_browser|]. intros g'.
  destruct (normalize_telegram g') as [[|x h]|]; apply IH.
Qed.

Lemma lf_browser_fallback url links : preserves R (browser_fallback net url links).
Proof.
  unfold browser_fallback. destruct links; [|lf].
  apply (preserves_try_except _ R_trans); [|lf].
  apply (preserves_bind _ R_trans); [apply lf_extract_buttons|]. intros pl.
  destruct pl; lf.
Qed.

Lemma lf_assemble url head extracted links resolved :
  preserves R (assemble url head extracted links resolved).
Proof. unfold assemble. lf. Qed.

(** What follows the three probes. *)
Lemma lf_after_probes url head extracted links :
  preserves R
    (bind (lift extracted) (fun extracted =>
     bind (lift links) (fun links =>
     bind (browser_fallback net url links) (fun links =>
     bind (resolve_loop net links []) (fun resolved_list =>
     assemble url head extracted links resolved_list))))).
Proof.
  apply (preserves_bind _ R_trans); [apply (preserves_lift _ R_refl)|]. intros ex.
  apply (preserves_bind _ R_trans); [apply (preserves_lift _ R_refl)|]. intros ls.
  apply (preserves_bind _ R_trans); [apply lf_browser_fallback|]. intros l.
  apply (preserves_bind _ R_trans); [apply lf_resolve_loop|]. intros r.
  apply lf_assemble.
Qed.

Lemma lf_extract_fresh url : preserves R (extract_fresh net url).
Proof.
  unfold extract_fresh.
  apply (preserves_bind _ R_trans); [apply lf_head_request|]. intros head.
  apply (preserves_bind _ R_trans); [apply preserves_attempt, lf_extract_metadata|].
  intros ex.
  apply (preserves_bind _ R_trans); [apply preserves_attempt, lf_extract_links|].
  intros links.
  apply lf_after_probes.
Qed.

End LogFrames.

Lemma trace_extends_refl w : trace_extends w w.
Proof. exists []. rewrite app_nil_r. reflexivity. Qed.

Lemma trace_extends_trans a b c :
  trace_extends a b -> trace_extends b c -> trace_extends a c.
Proof.
  intros [e1 H1] [e2 H2]. exists (e1 ++ e2). rewrite H2, H1, app_assoc. reflexivity.
Qed.

Lemma trace_extends_log e w : trace_extends w (log_event e w).
Proof. exists [e]. reflexivity. Qed.

Lemma trace_extends_start w : trace_extends w (set_started w).
Proof. exists []. rewrite app_nil_r. reflexivity. Qed.

Lemma started_kept_refl w : started_kept w w.
Proof. intros H. exact H. Qed.

Lemma started_kept_trans a b c :
  started_kept a b -> started_kept b c -> started_kept a c.
Proof. unfold started_kept. auto. Qed.

Lemma started_kept_log e w : started_kept w (log_event e w).
Proof. intros H. exact H. Qed.

Lemma started_kept_start w : started_kept w (set_started w).
Proof. intros _. reflexivity. Qed.

(** ** Edge behaviour of [process_single_url] *)

Lemma strip_blank s : forallb is_space s = true -> strip s = [].
Proof. intros H. unfold strip. rewrite (lstrip_blank s H). reflexivity. Qed.

(** X1. An address made of white space only (the empty one included) is
    refused with [ValueError("Empty URL")] before anything else happens:
    the cache is not read into a result, no request is sent, the world
    is as it was. *)
Theorem blank_url_rejected :
  forall net u f w,
    forallb is_space u = true ->
    process_single_url net u f w = (Raise (ValueError (py "Empty URL")), w).
Proof.
  intros net u f w H. unfold process_single_url.
  rewrite (strip_blank u H). reflexivity.
Qed.

Lemma blank_url_rejected_witness :
  process_single_url demo_net [" "%char; ch 9; ch 10] true world_cached
  = (Raise (ValueError (py "Empty URL")), world_cached).
Proof. apply blank_url_rejected. reflexivity. Defined.

Section FreshFacts.

Variable net : oracle.

Lemma head_request_world url w :
  exists d, head_request net url w = (Ok d, log_event (EvHead url) w).
Proof. unfold head_request. destruct (http_head _ _ _); eexists; reflexivity. Qed.

Lemma extract_metadata_world url w :
  snd (extract_metadata net url w) = log_event (EvGet url) w.
Proof.
  unfold extract_metadata, bind, requests_get, raise_for_status, BeautifulSoup.
  destruct (http_get _ _ _) as [r|]; [|reflexivity].
  destruct (is_error_status _); [reflexivity|]. cbn.
  destruct (d_parses _); reflexivity.
Qed.

Lemma extract_links_world url w :
  snd (extract_links_requests net url w) = log_event (EvGet url) w.
Proof.
  unfold extract_links_requests, try_except, bind, requests_get, raise_for_status,
    BeautifulSoup.
  destruct (http_get _ _ _) as [r|]; [|reflexivity].
  destruct (is_error_status _); [reflexivity|]. cbn.
  destruct (d_parses _); reflexivity.
Qed.

(** On a miss the three probes are sent, whatever they answer (the
    model runs them one after the other). *)
Lemma extract_fresh_trace url w :
  exists rest,
    trace (snd (extract_fresh net url w))
    = trace w ++ [EvHead url; EvGet url; EvGet url] ++ rest.
Proof.
  unfold extract_fresh. unfold bind at 1.
  destruct (head_request_world url w) as [d ->].
  unfold bind at 1. unfold attempt.
  pose proof (extract_metadata_world url (log_event (EvHead url) w)) as Hm.
  destruct (extract_metadata net url (log_event (EvHead url) w)) as [rm w2].
  cbn [snd] in Hm. subst w2.
  unfold bind at 1. unfold attempt.
  pose proof (extract_links_world url
                (log_event (EvGet url) (log_event (EvHead url) w))) as Hl.
  destruct (extract_links_requests net url
              (log_event (EvGet url) (log_event (EvHead url) w))) as [l w3'].
  cbn [snd] in Hl. subst w3'.
  match goal with
  | |- context [snd (?m ?w3)] =>
      destruct (lf_after_probes trace_extends trace_extends_refl trace_extends_trans
                  trace_extends_log trace_extends_start net url d rm l w3)
        as [rest Hr]
  end.
  exists rest. rewrite Hr. unfold log_event. cbn [trace].
  rewrite <- !app_assoc. reflexivity.
Qed.

Lemma process_fresh_world u f w :
  strip u <> [] ->
  (f = true \/ (object_store w = true /\ loaded w !! strip u = None)) ->
  trace (snd (process_single_url net u f w))
  = trace (snd (extract_fresh net (strip u) w)).
Proof.
  intros Hne Hm.
  rewrite (process_single_url_unfold net u f w Hne).
  assert (E : (if f then Ok None else cache_lookup (strip u) (cache_of w))
              = Ok None).
  { destruct f; [reflexivity|]. destruct Hm as [Hm|[Ho Hm]]; [discriminate|].
    rewrite (object_store_lookup w _ Ho). f_equal. exact Hm. }
  rewrite E.
  destruct (extract_fresh net (strip u) w) as [[e|ex] w1]; cbn [snd]; [|reflexivity].
  destruct (cache_set (strip u) e (cache_of w)); cbn [snd]; [|reflexivity].
  destruct (cache_writable w1); reflexivity.
Qed.

(** X2. With [force_refresh] set, or on a miss (the cache file missing or
    holding an object without the stripped address), the call works
    afresh: the head request and the two page requests are sent for the
    stripped address before anything else (the three threads in whatever
    order), whatever any of them answers; when the call returns and the
    cache file can be written, the entry returned is the one the cache
    then holds for that address, a prior entry being replaced. *)
Theorem forced_refresh_is_fresh :
  forall u f w,
    strip u <> [] ->
    (f = true \/ (object_store w = true /\ loaded w !! strip u = None)) ->
    (exists probes rest,
        trace (snd (process_single_url net u f w)) = trace w ++ probes ++ rest
        /\ Permutation probes [EvHead (strip u); EvGet (strip u); EvGet (strip u)])
    /\ (forall k e w', process_single_url net u f w = (Ok (k, e), w') ->
          cache_writable w = true -> loaded w' !! strip u = Some e).
Proof.
  intros u f w Hne Hm. split.
  - rewrite (process_fresh_world u f w Hne Hm).
    destruct (extract_fresh_trace (strip u) w) as [rest Hr].
    exists [EvHead (strip u); EvGet (strip u); EvGet (strip u)], rest.
    split; [exact Hr|apply Permutation_refl].
  - intros k e w' H Hwr.
    destruct (process_single_url_returns net u f w k e w' H)
      as [_ [(Hf & Hl & _)|(_ & _ & Hfile)]].
    + destruct Hm as [->|[_ Hm]]; [discriminate|]. rewrite Hm in Hl. discriminate.
    + unfold loaded. rewrite (Hfile Hwr). apply lookup_insert_eq.
Qed.

(** X3. A cache file that cannot be written is left as it is and costs
    the caller nothing: when the extraction gives an entry (the cache
    file missing or holding an object), the call returns that entry, in
    the world the extraction left. *)
Theorem unwritable_cache_is_swallowed :
  forall u f w,
    cache_writable w = false ->
    cache_file (snd (process_single_url net u f w)) = cache_file w
    /\ (forall e w1,
          object_store w = true ->
          strip u <> [] -> (f = true \/ loaded w !! strip u = None) ->
          extract_fresh net (strip u) w = (Ok e, w1) ->
          process_single_url net u f w = (Ok (strip u, Stored e), w1)).
Proof.
  intros u f w Hwr.
  pose proof (store_extract_fresh net (strip u) w) as [Hf Hw].
  destruct (object_store w) eqn:Ho.
  2:{ destruct (process_single_url_other_store net u f w Ho)
        as (ex & w' & E & [Hs _] & _).
      rewrite E. split; [exact Hs|]. intros e w1 [=]. }
  destruct (process_single_url_cases net u f w Ho)
    as [[H0 E]|[(_ & Hf0 & e0 & Hl0 & E)|(Hne & Hm & E)]]; cbv zeta in E.
  - rewrite E. split; [reflexivity|]. intros e w1 _ Hne. contradiction.
  - rewrite E. split; [reflexivity|]. intros e w1 _ _ [->|Hm] _; [discriminate|].
    rewrite Hm in Hl0. discriminate.
  - rewrite E. destruct (extract_fresh net (strip u) w) as [[e|ex] w1];
      cbn [snd] in *.
    + rewrite Hw, Hwr. split; [exact Hf|]. intros e' w1' _ _ _ [= -> ->]. reflexivity.
    + split; [exact Hf|]. intros e' w1' _ _ _ [=].
Qed.

(** X4. The browser fallback never raises, whatever the browser does;
    links found over HTTP are kept and the browser is not touched; and
    when the engine sleeps and cannot be launched, there are no links and
    the engine still sleeps. *)
Theorem browser_fallback_absorbs :
  forall url links w,
    exists l, fst (browser_fallback net url links w) = Ok l
      /\ (links <> [] -> l = links /\ snd (browser_fallback net url links w) = w)
      /\ (links = [] -> started w = false -> launch net (clock w) = false ->
            l = [] /\ started (snd (browser_fallback net url links w)) = false).
Proof.
  intros url links w. unfold browser_fallback.
  destruct links as [|x links].
  - unfold try_except.
    destruct (bind (extract_buttons_with_browser net url) _ w) as [[l|e] w1] eqn:E.
    + exists l. split; [reflexivity|]. split; [congruence|].
      intros _ Hs Hl. revert E.
      unfold bind, extract_buttons_with_browser, bind, ensure_playwright_started.
      rewrite Hs, Hl. discriminate.
    + exists []. split; [reflexivity|]. split; [congruence|].
      intros _ Hs Hl. split; [reflexivity|]. revert E.
      unfold bind, extract_buttons_with_browser, bind, ensure_playwright_started.
      rewrite Hs, Hl. intros [= _ <-]. exact Hs.
  - exists (x :: links). split; [reflexivity|]. split; [auto|discriminate].
Qed.

(** X5. Whatever is done for an address, the engine flag is never taken
    back: a running engine is still marked running afterwards. *)
Theorem engine_flag_never_reset :
  forall u f w,
    started w = true -> started (snd (process_single_url net u f w)) = true.
Proof.
  intros u f w Hs.
  pose proof (lf_extract_fresh started_kept started_kept_refl started_kept_trans
                started_kept_log started_kept_start net (strip u) w Hs) as Hk.
  destruct (strip u) as [|c t] eqn:Es.
  { unfold process_single_url. rewrite Es. exact Hs. }
  assert (Hne : strip u <> []) by (rewrite Es; discriminate).
  rewrite (process_single_url_unfold net u f w Hne), Es.
  destruct (if f then Ok None else cache_lookup (c :: t) (cache_of w))
    as [[v|]|ex]; try exact Hs.
  destruct (extract_fresh net (c :: t) w) as [[e|ex] w1]; cbn [snd] in *;
    [|exact Hk].
  destruct (cache_set (c :: t) e (cache_of w)); [|exact Hk].
  destruct (cache_writable w1); exact Hk.
Qed.

(** One call keeps the keys canonical, so a run of calls does. *)
Lemma run_calls_canonical calls : forall w,
  canonical_keys (loaded w) -> canonical_keys (loaded (run_calls net calls w)).
Proof.
  unfold run_calls. induction calls as [|[u f] calls IH]; intros w H; [exact H|].
  cbn [fold_left fst snd]. apply IH, canonical_keys_preserved, H.
Qed.

End FreshFacts.

(** X6. From a missing cache file, whatever calls are made in whatever
    order and whatever the network answers, every key of the cache is a
    stripped, non-empty address. *)
Theorem cache_keys_stay_canonical :
  forall net calls w,
    cache_file w = None -> canonical_keys (loaded (run_calls net calls w)).
Proof.
  intros net calls w H. apply run_calls_canonical.
  unfold loaded. rewrite H. intros k e Hl. rewrite lookup_empty in Hl. discriminate.
Qed.

Lemma cache_keys_stay_canonical_witness :
  canonical_keys
    (loaded (run_calls demo_net
               [(py "  https://hubcloud.example/drive/abc ", false);
                (demo_url, true)] world0)).
Proof. apply cache_keys_stay_canonical. reflexivity. Defined.

(** X7. A first call without [force_refresh] that returns, the cache file
    being writable, makes the second call a hit: it returns the same key
    and entry and leaves the world as the first call left it, so that it
    sends nothing. *)
Theorem fresh_then_cached :
  forall net u k e w w1,
    cache_writable w = true ->
    process_single_url net u false w = (Ok (k, e), w1) ->
    process_single_url net u false w1 = (Ok (k, e), w1)
    /\ new_events w1 (snd (process_single_url net u false w1)) = [].
Proof.
  intros net u k e w w1 Hwr H.
  pose proof (miss_then_hit net u k e w w1 (or_introl Hwr) H) as E.
  split; [exact E|]. rewrite E. unfold new_events. apply skipn_all.
Qed.

Lemma fresh_then_cached_witness :
  process_single_url demo_net demo_url false
    (snd (process_single_url demo_net demo_url false world0))
  = (Ok (demo_url, Stored demo_entry),
     snd (process_single_url demo_net demo_url false world0)).
Proof.
  apply (fresh_then_cached demo_net demo_url demo_url (Stored demo_entry) world0).
  - reflexivity.
  - vm_compute. reflexivity.
Defined.

Lemma forced_refresh_is_fresh_witness :
  exists probes rest,
    trace (snd (process_single_url demo_net demo_url true world_cached))
    = trace world_cached ++ probes ++ rest
    /\ Permutation probes [EvHead (strip demo_url); EvGet (strip demo_url);
                           EvGet (strip demo_url)].
Proof.
  apply (forced_refresh_is_fresh demo_net demo_url true world_cached).
  - vm_compute. discriminate.
  - left. reflexivity.
Defined.

Lemma unwritable_cache_is_swallowed_witness :
  cache_file (snd (process_single_url demo_net demo_url false (World None false false [])))
  = None.
Proof.
  apply (unwritable_cache_is_swallowed demo_net demo_url false (World None false false [])).
  reflexivity.
Defined.

Lemma engine_flag_never_reset_witness :
  started (snd (process_single_url demo_net demo_url true (World None true true [])))
  = true.
Proof. apply engine_flag_never_reset. reflexivity. Defined.

Lemma browser_fallback_absorbs_witness :
  started (snd (browser_fallback down_net demo_url [] world0)) = false.
Proof.
  destruct (browser_fallback_absorbs down_net demo_url [] world0) as (l & _ & _ & H).
  apply H; reflexivity.
Defined.

(** ** Which exceptions leave the pipeline *)

Lemma ro_ret {A} P (a : A) : raises_only P (ret a).
Proof. intros w e w' H. discriminate. Qed.

Lemma ro_bind {A B} P (m : M A) (k : A -> M B) :
  raises_only P m -> (forall a, raises_only P (k a)) -> raises_only P (bind m k).
Proof.
  intros Hm Hk w e w'. unfold bind.
  destruct (m w) as [[a|e0] w1] eqn:E.
  - apply Hk.
  - intros [= <- <-]. eapply Hm, E.
Qed.

Lemma ro_bind_returns {A B} P (Q : A -> Prop) (m : M A) (k : A -> M B) :
  returns Q m -> raises_only P m -> (forall a, Q a -> raises_only P (k a)) ->
  raises_only P (bind m k).
Proof.
  intros Hq Hm Hk w e w'. unfold bind.
  destruct (m w) as [[a|e0] w1] eqn:E.
  - apply Hk. eapply Hq, E.
  - intros [= <- <-]. eapply Hm, E.
Qed.

Lemma ro_try_except {A} P (m h : M A) :
  raises_only P h -> raises_only P (try_except m h).
Proof.
  intros Hh w e w'. unfold try_except.
  destruct (m w) as [[a|e0] w1]; [discriminate|apply Hh].
Qed.

Lemma ro_attempt {A} P (m : M A) : raises_only P (attempt m).
Proof. intros w e w'. unfold attempt. destruct (m w). discriminate. Qed.

Lemma attempt_returns {A} P (m : M A) :
  raises_only P m ->
  returns (fun r => forall e, r = Raise e -> P e) (attempt m).
Proof.
  intros Hm w r w'. unfold attempt. destruct (m w) as [r0 w1] eqn:E.
  intros [= <- <-] e ->. eapply Hm, E.
Qed.

Lemma returns_any {A} (m : M A) : returns (fun _ => True) m.
Proof. intros w a w' _. exact I. Qed.

Lemma ro_weaken {A} (P : exn -> Prop) (m : M A) :
  raises_only no_exn m -> raises_only P m.
Proof. intros H w e w' E. destruct (H w e w' E). Qed.

Lemma parse_size_only_overflow text e :
  parse_size_from_text text = Raise e -> e = OverflowError.
Proof.
  unfold parse_size_from_text. destruct text as [|c t]; [discriminate|].
  destruct (size_search (c :: t)) as [[g1 g2]|]; [|discriminate].
  destruct (py_float (remove_commas g1)) as [v|]; [|discriminate].
  assert (H : forall x, match py_int x with Ok n => Ok (Some n) | Raise e0 => Raise e0 end
                        = Raise e -> e = OverflowError).
  { intros [m ex|]; simpl; [discriminate|]. intros [= <-]. reflexivity. }
  repeat match goal with
  | |- context [if ?b then _ else _] => destruct b
  end; try discriminate; apply H.
Qed.

Section Escapes.

Variable net : oracle.

Lemma ro_head_request url : raises_only no_exn (head_request net url).
Proof.
  intros w e w' H. destruct (head_request_world net url w) as [d E].
  rewrite E in H. discriminate.
Qed.

Lemma ro_extract_metadata url :
  raises_only (fun e => e = RequestError \/ e = ParserError)
    (extract_metadata net url).
Proof.
  intros w e w'.
  unfold extract_metadata, bind, requests_get, raise_for_status, BeautifulSoup.
  destruct (http_get _ _ _) as [r|]; [|intros [= <- _]; auto].
  destruct (is_error_status _); [intros [= <- _]; auto|]. cbn.
  destruct (d_parses _); cbn; [discriminate|intros [= <- _]; auto].
Qed.

Lemma ro_extract_links url :
  raises_only (fun e => e = ParserError) (extract_links_requests net url).
Proof.
  intros w e w' H.
  exact (proj2 (extract_links_requests_soft net url w) e (f_equal fst H)).
Qed.

Lemma ro_gamerxyt_requests url : raises_only no_exn (get_gamerxyt_requests net url).
Proof. unfold get_gamerxyt_requests. apply ro_try_except, ro_ret. Qed.

Lemma ro_resolve_with_browser g url :
  raises_only no_exn (resolve_with_browser net g url).
Proof.
  intros w e w'. unfold resolve_with_browser.
  destruct (negb (truthy g) && started w); [|discriminate].
  apply (ro_try_except no_exn (get_gamerxyt_with_browser net url) (ret None)), ro_ret.
Qed.

Lemma ro_resolve_loop items : forall acc,
  raises_only no_exn (resolve_loop net items acc).
Proof.
  induction items as [|[l v] items IH]; intros acc; cbn [resolve_loop];
    [apply ro_ret|].
  destruct v as [[|c u]|]; try apply IH.
  destruct (needs_resolution (c :: u)); [|apply IH].
  apply ro_bind; [apply ro_gamerxyt_requests|]. intros g.
  apply ro_bind; [apply ro_resolve_with_browser|]. intros g'.
  destruct (normalize_telegram g') as [[|x h]|]; apply IH.
Qed.

Lemma ro_browser_fallback url links :
  raises_only no_exn (browser_fallback net url links).
Proof.
  unfold browser_fallback. destruct links; [|apply ro_ret].
  apply ro_try_except, ro_ret.
Qed.

Lemma ro_assemble url head extracted links resolved :
  raises_only (fun e => e = OverflowError)
    (assemble url head extracted links resolved).
Proof.
  unfold assemble. apply ro_bind; [|intros sb; apply ro_ret].
  destruct (md_file_size extracted) as [|c t]; [apply ro_ret|].
  intros w e w' H. unfold lift in H.
  eapply parse_size_only_overflow. exact (f_equal fst H).
Qed.

Lemma ro_extract_fresh url :
  raises_only (fun e => e = RequestError \/ e = ParserError \/ e = OverflowError)
    (extract_fresh net url).
Proof.
  unfold extract_fresh.
  apply ro_bind; [apply ro_weaken, ro_head_request|]. intros head.
  apply (ro_bind_returns _
           (fun r => forall e, r = Raise e -> e = RequestError \/ e = ParserError));
    [apply attempt_returns, ro_extract_metadata|apply ro_attempt|].
  intros ex Hex.
  apply (ro_bind_returns _ (fun r => forall e, r = Raise e -> e = ParserError));
    [apply attempt_returns, ro_extract_links|apply ro_attempt|].
  intros ls Hls.
  apply ro_bind.
  { intros w e w' H. unfold lift in H.
    destruct (Hex e (f_equal fst H)); auto. }
  intros ex'.
  apply ro_bind.
  { intros w e w' H. unfold lift in H. right. left. apply Hls.
    exact (f_equal fst H). }
  intros links.
  apply ro_bind; [apply ro_weaken, ro_browser_fallback|]. intros links'.
  apply ro_bind; [apply ro_weaken, ro_resolve_loop|]. intros res.
  intros w e w' H. right. right. eapply ro_assemble, H.
Qed.

Lemma cache_lookup_raises url w ex :
  cache_lookup url (cache_of w) = Raise ex ->
  ex = TypeError /\ object_store w = false.
Proof.
  unfold cache_of, object_store.
  destruct (cache_file w) as [[c|l|s|]|]; cbn; try discriminate.
  - destruct (existsb _ _); [intros [= <-]; auto|discriminate].
  - destruct (contains _ _); [intros [= <-]; auto|discriminate].
  - intros [= <-]; auto.
Qed.

Lemma cache_set_raises url e w ex :
  cache_set url e (cache_of w) = Raise ex ->
  ex = TypeError /\ object_store w = false.
Proof.
  unfold cache_of, object_store.
  destruct (cache_file w) as [[c|l|s|]|]; cbn; try discriminate;
    intros [= <-]; auto.
Qed.

End Escapes.

Lemma lstrip_nil_blank s : lstrip s = [] -> forallb is_space s = true.
Proof.
  induction s as [|c s IH]; simpl; [reflexivity|].
  destruct (is_space c); [exact IH|discriminate].
Qed.

Lemma strip_nil_blank s : strip s = [] -> forallb is_space s = true.
Proof.
  unfold strip, rstrip. intros H.
  assert (Hl : lstrip (rev (lstrip s)) = []).
  { destruct (lstrip (rev (lstrip s))) as [|x r] eqn:E; [reflexivity|].
    simpl in H. destruct (rev r); discriminate. }
  pose proof (forallb_rev _ _ (lstrip_nil_blank _ Hl)) as Ht.
  pose proof (lstrip_lstripped s) as Hs.
  destruct (lstrip s) as [|c t] eqn:E; [apply lstrip_nil_blank, E|].
  simpl in Hs, Ht. rewrite Hs in Ht. discriminate.
Qed.

(** X8. An exception that leaves [process_single_url] is one of five:
    the [ValueError] for an address of white space only (then nothing
    was done); what the request of the metadata probe raised; the
    parser's rejection of the page of the metadata or of the links
    probe; the [OverflowError] of a size too large to be a float; or a
    [TypeError], which needs a cache file that holds something else than
    an object.  No failure of the browser, of the head probe, of the
    request of the links probe, of the redirect resolution or of the
    writing of the cache ever leaves it. *)
Theorem escaping_errors :
  forall net u f w e w',
    process_single_url net u f w = (Raise e, w') ->
    (e = ValueError (py "Empty URL") /\ forallb is_space u = true /\ w' = w)
    \/ e = RequestError
    \/ e = ParserError
    \/ e = OverflowError
    \/ (e = TypeError /\ object_store w = false).
Proof.
  intros net u f w e w' H.
  destruct (strip u) as [|c t] eqn:Es.
  { left. unfold process_single_url in H. rewrite Es in H.
    inversion H; subst. auto using strip_nil_blank. }
  right.
  assert (Hne : strip u <> []) by (rewrite Es; discriminate).
  rewrite (process_single_url_unfold net u f w Hne), Es in H.
  assert (Hfresh :
    (let '(x, w1) := extract_fresh net (c :: t) w in
     match x with
     | Raise ex => (Raise ex, w1)
     | Ok e0 =>
         match cache_set (c :: t) e0 (cache_of w) with
         | Raise ex => (Raise ex, w1)
         | Ok c' =>
             (Ok (c :: t, Stored e0),
              if cache_writable w1
              then World (Some c') true (started w1) (trace w1)
              else w1)
         end
     end) = (Raise e, w') ->
    e = RequestError \/ e = ParserError \/ e = OverflowError
    \/ (e = TypeError /\ object_store w = false)).
  { pose proof (ro_extract_fresh net (c :: t) w) as Hr.
    destruct (extract_fresh net (c :: t) w) as [[e1|ex] w1].
    - destruct (cache_set (c :: t) e1 (cache_of w)) as [c'|ex] eqn:Ec;
        [discriminate|].
      intros [= <- _]. right. right. right.
      exact (cache_set_raises _ _ _ _ Ec).
    - intros [= <- _]. destruct (Hr ex w1 eq_refl) as [Hx|[Hx|Hx]]; auto. }
  destruct f; [exact (Hfresh H)|].
  destruct (cache_lookup (c :: t) (cache_of w)) as [[v|]|ex] eqn:El.
  - discriminate.
  - exact (Hfresh H).
  - inversion H; subst. right. right. right.
    exact (cache_lookup_raises _ _ _ El).
Qed.

Lemma escaping_errors_witness :
  (RequestError = ValueError (py "Empty URL")
   /\ forallb is_space demo_url = true
   /\ World None true false [EvHead demo_url; EvGet demo_url; EvGet demo_url] = world0)
  \/ RequestError = RequestError
  \/ RequestError = ParserError
  \/ RequestError = OverflowError
  \/ (RequestError = TypeError /\ object_store world0 = false).
Proof.
  apply (escaping_errors down_net demo_url false world0).
  vm_compute. reflexivity.
Defined.

(** ** What the resolution steps give back *)

Lemma startswith_self p s : startswith p (p ++ s) = true.
Proof.
  induction p as [|a p IH]; [reflexivity|]. simpl.
  rewrite IH, andb_true_r. apply Ascii.eqb_refl.
Qed.

Lemma contains_app p pre s : contains p s = true -> contains p (pre ++ s) = true.
Proof.
  intros H. induction pre as [|x pre IH]; [exact H|].
  simpl. rewrite IH. apply orb_true_r.
Qed.

Lemma contains_self p s : contains p (p ++ s) = true.
Proof.
  destruct (p ++ s) as [|x r] eqn:E; simpl;
    rewrite <- E, startswith_self; reflexivity.
Qed.

Lemma gamerxyt_search_marker s g :
  gamerxyt_search s = Some g -> contains (py "gamerxyt.com/?r=") g = true.
Proof.
  intros H. apply gamerxyt_search_spec in H as (tok & -> & _).
  change gamerxyt_prefix with (py "https://" ++ py "gamerxyt.com/?r=").
  rewrite <- app_assoc. apply contains_app, contains_self.
Qed.

Section Resolution.

Variable net : oracle.

Lemma clock_log_event e w : clock (log_event e w) = S (clock w).
Proof. unfold clock, log_event. cbn [trace]. rewrite length_app. simpl. lia. Qed.

(** The browser step with the engine running, written out. *)
Lemma gamerxyt_with_browser_running url w :
  started w = true ->
  fst (get_gamerxyt_with_browser net url w)
  = if page_opens net (clock w) then
      if page_closes net (S (S (clock w))) then
        Ok (match navigate net (S (clock w))
                    (if contains (py "ampproject.org") url then amp_sub url
                     else url) with
            | Some p =>
                if p_idle p then
                  if contains (py "gamerxyt.com/?r=") (p_url p)
                  then Some (p_url p)
                  else gamerxyt_search (d_text (p_doc p))
                else None
            | None => None
            end)
      else Raise BrowserError
    else Raise BrowserError.
Proof.
  intros Hs. unfold get_gamerxyt_with_browser. unfold bind at 1.
  rewrite (ensure_started_noop net w Hs). unfold bind at 1. unfold new_page.
  destruct (page_opens net (clock w)); [|reflexivity].
  unfold try_finally, try_except, bind, page_goto, page_close.
  rewrite !clock_log_event.
  set (u := if contains (py "ampproject.org") url then amp_sub url else url).
  destruct (navigate net (S (clock w)) u) as [p|].
  - destruct (p_idle p); cbn [negb].
    + destruct (contains (py "gamerxyt.com/?r=") (p_url p));
        unfold ret; cbv beta iota zeta; rewrite !clock_log_event;
        destruct (page_closes net (S (S (clock w)))); reflexivity.
    + unfold ret, raise. cbv beta iota zeta. rewrite !clock_log_event.
      destruct (page_closes net (S (S (clock w)))); reflexivity.
  - unfold ret. cbv beta iota zeta. rewrite !clock_log_event.
    destruct (page_closes net (S (S (clock w)))); reflexivity.
Qed.

(** X9. The HTTP resolution step never raises; an address it gives back
    has the marker [gamerxyt.com/?r=] in it; a failed request gives
    [None].  The browser step, taken with the engine running, gives back
    addresses of the same kind; a failure of the navigation or of the
    wait is absorbed by its [try], and it raises exactly when the page
    cannot be opened (which comes before the [try]) or cannot be closed
    (in the [finally]). *)
Theorem gamerxyt_results_are_marked :
  forall url w,
    (exists g, fst (get_gamerxyt_requests net url w) = Ok g
       /\ (forall a, g = Some a -> contains (py "gamerxyt.com/?r=") a = true)
       /\ (http_get net (clock w) url = None -> g = None))
    /\ (started w = true ->
        match fst (get_gamerxyt_with_browser net url w) with
        | Ok g =>
            page_opens net (clock w) = true
            /\ page_closes net (S (S (clock w))) = true
            /\ (forall a, g = Some a -> contains (py "gamerxyt.com/?r=") a = true)
        | Raise e =>
            e = BrowserError
            /\ (page_opens net (clock w) = false
                \/ page_closes net (S (S (clock w))) = false)
        end).
Proof.
  intros url w. split.
  - unfold get_gamerxyt_requests, try_except, bind, requests_get.
    destruct (http_get net (clock w) url) as [r|].
    + destruct (contains (py "gamerxyt.com/?r=") (r_url r)) eqn:E.
      * eexists. split; [reflexivity|]. split; [|discriminate].
        intros a [= <-]. exact E.
      * eexists. split; [reflexivity|]. split; [|discriminate].
        intros a Ha. eapply gamerxyt_search_marker, Ha.
    + eexists. split; [reflexivity|]. split; [discriminate|reflexivity].
  - intros Hs. rewrite (gamerxyt_with_browser_running url w Hs).
    destruct (page_opens net (clock w)); [|auto].
    destruct (page_closes net (S (S (clock w)))); [|auto].
    split; [reflexivity|]. split; [reflexivity|].
    destruct (navigate net (S (clock w)) _) as [p|]; [|discriminate].
    destruct (p_idle p); [|discriminate].
    destruct (contains (py "gamerxyt.com/?r=") (p_url p)) eqn:E.
    + intros a [= <-]. exact E.
    + intros a Ha. eapply gamerxyt_search_marker, Ha.
Qed.

Lemma resolve_loop_result items : forall acc w,
  exists more,
    fst (resolve_loop net items acc w) = Ok (acc ++ more)
    /\ Forall (fun h => h <> []) more
    /\ (length more <= length items)%nat.
Proof.
  induction items as [|[l v] items IH]; intros acc w; cbn [resolve_loop].
  - exists []. rewrite app_nil_r. repeat split; auto.
  - assert (Hskip : forall w0, exists more,
               fst (resolve_loop net items acc w0) = Ok (acc ++ more)
               /\ Forall (fun h => h <> []) more
               /\ (length more <= length ((l, v) :: items))%nat).
    { intros w0. destruct (IH acc w0) as (more & H1 & H2 & H3).
      exists more. repeat split; auto. simpl. lia. }
    destruct v as [[|c u]|]; try apply Hskip.
    destruct (needs_resolution (c :: u)); [|apply Hskip].
    unfold bind at 1.
    destruct (get_gamerxyt_requests net (c :: u) w) as [[g|e] w1] eqn:E1.
    2:{ destruct (ro_gamerxyt_requests net (c :: u) w e w1 E1). }
    unfold bind at 1.
    destruct (resolve_with_browser net g (c :: u) w1) as [[g'|e] w2] eqn:E2.
    2:{ destruct (ro_resolve_with_browser net g (c :: u) w1 e w2 E2). }
    destruct (normalize_telegram g') as [[|x h]|]; try apply Hskip.
    destruct (IH (acc ++ [x :: h]) w2) as (more & H1 & H2 & H3).
    exists ((x :: h) :: more). rewrite <- app_assoc in H1. split; [exact H1|]. split.
    + constructor; [discriminate|exact H2].
    + simpl. lia.
Qed.

(** X10. The resolution loop never raises; it only appends to the list
    it is given, at most one address per link, and never an empty one. *)
Theorem resolved_entries_are_nonempty :
  forall items acc w,
    exists more,
      fst (resolve_loop net items acc w) = Ok (acc ++ more)
      /\ Forall (fun h => h <> []) more
      /\ (length more <= length items)%nat.
Proof. exact resolve_loop_result. Qed.

End Resolution.

(** ** The dict of links *)

Lemma label_eqb_eq a b : label_eqb a b = true <-> a = b.
Proof. destruct a, b; simpl; split; intros H; try discriminate; reflexivity. Qed.

Lemma label_eqb_refl a : label_eqb a a = true.
Proof. apply label_eqb_eq. reflexivity. Qed.

Lemma label_eqb_neq a b : a <> b -> label_eqb a b = false.
Proof.
  intros H. destruct (label_eqb a b) eqn:E; [|reflexivity].
  apply label_eqb_eq in E. contradiction.
Qed.

Lemma dict_get_set_eq k v d : dict_get k (dict_set k v d) = Some v.
Proof.
  induction d as [|[k' v'] d IH]; simpl.
  - rewrite label_eqb_refl. reflexivity.
  - destruct (label_eqb k k') eqn:E; simpl.
    + rewrite label_eqb_refl. reflexivity.
    + rewrite E. exact IH.
Qed.

Lemma dict_get_set_ne k k' v d :
  k' <> k -> dict_get k' (dict_set k v d) = dict_get k' d.
Proof.
  intros Hne. induction d as [|[k0 v0] d IH]; simpl.
  - rewrite (label_eqb_neq _ _ Hne). reflexivity.
  - destruct (label_eqb k k0) eqn:E; simpl.
    + apply label_eqb_eq in E. subst k0. rewrite (label_eqb_neq _ _ Hne). reflexivity.
    + destruct (label_eqb k' k0); [reflexivity|exact IH].
Qed.

Lemma dict_set_keys k v d :
  map fst (dict_set k v d)
  = if existsb (label_eqb k) (map fst d) then map fst d else map fst d ++ [k].
Proof.
  induction d as [|[k' v'] d IH]; simpl; [reflexivity|].
  destruct (label_eqb k k') eqn:E; simpl.
  - apply label_eqb_eq in E. subst. reflexivity.
  - rewrite IH. destruct (existsb (label_eqb k) (map fst d)); reflexivity.
Qed.

Lemma existsb_label_in k ks : existsb (label_eqb k) ks = false -> ~ In k ks.
Proof.
  intros H Hin. assert (existsb (label_eqb k) ks = true); [|congruence].
  apply existsb_exists. exists k. split; [exact Hin|apply label_eqb_refl].
Qed.

Lemma nodup_snoc {A} (x : A) l :
  List.NoDup l -> ~ In x l -> List.NoDup (l ++ [x]).
Proof.
  induction 1 as [|y l Hy Hl IH]; intros Hx; simpl.
  - constructor; [intros []|constructor].
  - constructor.
    + intros Hin. apply in_app_or in Hin as [Hin|[<-|[]]]; [contradiction|].
      apply Hx. left. reflexivity.
    + apply IH. intros Hin. apply Hx. right. exact Hin.
Qed.

Lemma dict_set_nodup k v d :
  List.NoDup (map fst d) -> List.NoDup (map fst (dict_set k v d)).
Proof.
  intros H. rewrite dict_set_keys.
  destruct (existsb (label_eqb k) (map fst d)) eqn:E; [exact H|].
  apply nodup_snoc; [exact H|]. exact (existsb_label_in _ _ E).
Qed.

Lemma requests_step_nodup links a :
  List.NoDup (map fst links) -> List.NoDup (map fst (requests_step links a)).
Proof.
  unfold requests_step. destruct (classify_requests a) as [[l v]|]; [|auto].
  apply dict_set_nodup.
Qed.

Lemma requests_loop_nodup bs : forall links,
  List.NoDup (map fst links) ->
  List.NoDup (map fst (fold_left requests_step bs links)).
Proof.
  induction bs as [|a bs IH]; intros links H; [exact H|].
  cbn [fold_left]. apply IH, requests_step_nodup, H.
Qed.

Lemma requests_loop_get l bs : forall links,
  dict_get l (fold_left requests_step bs links)
  = fold_left
      (fun acc a =>
         match classify_requests a with
         | Some (l', v) => if label_eqb l l' then Some (Some v) else acc
         | None => acc
         end) bs (dict_get l links).
Proof.
  induction bs as [|a bs IH]; intros links; [reflexivity|].
  cbn [fold_left]. rewrite IH. f_equal.
  unfold requests_step. destruct (classify_requests a) as [[l' v]|]; [|reflexivity].
  destruct (label_eqb l l') eqn:E.
  - apply label_eqb_eq in E. subst. apply dict_get_set_eq.
  - apply dict_get_set_ne. intros ->. rewrite label_eqb_refl in E. discriminate.
Qed.

(** X11. The links found over HTTP hold at most one address per label,
    and under each label the address of the last anchor that was given
    it: a later anchor replaces an earlier one of the same label and
    leaves the other labels alone. *)
Theorem links_last_seen_wins :
  forall net url w links,
    fst (extract_links_requests net url w) = Ok links ->
    List.NoDup (map fst links)
    /\ (http_get net (clock w) url = None -> links = [])
    /\ (forall r, http_get net (clock w) url = Some r ->
          is_error_status (r_status r) = false ->
          forall l, dict_get l links = last_assigned l (d_buttons (r_doc r))).
Proof.
  intros net url w links.
  unfold extract_links_requests, try_except, bind, requests_get, raise_for_status,
    BeautifulSoup.
  destruct (http_get net (clock w) url) as [r|].
  - destruct (is_error_status (r_status r)) eqn:Es; cbn.
    + intros [= <-].
      split; [constructor|]. split; [discriminate|]. intros r' [= <-]. congruence.
    + destruct (d_parses (r_doc r)); cbn; [|discriminate]. intros [= <-].
      split; [apply requests_loop_nodup; constructor|].
      split; [discriminate|]. intros r' [= <-] _ l.
      apply (requests_loop_get l (d_buttons (r_doc r)) []).
  - cbn. intros [= <-]. split; [constructor|]. split; [reflexivity|discriminate].
Qed.

Lemma links_last_seen_wins_witness :
  List.NoDup (map fst [(FSLv2, Some (py "https://fsl.example/f/1"));
                       (Telegram, Some demo_redirector)]).
Proof.
  apply (links_last_seen_wins demo_net demo_url world0). vm_compute. reflexivity.
Defined.

Lemma gamerxyt_results_are_marked_witness :
  match fst (get_gamerxyt_with_browser demo_net demo_redirector
               (World None true true [])) with
  | Ok g =>
      page_opens demo_net 0 = true /\ page_closes demo_net 2 = true
      /\ (forall a, g = Some a -> contains (py "gamerxyt.com/?r=") a = true)
  | Raise e =>
      e = BrowserError
      /\ (page_opens demo_net 0 = false \/ page_closes demo_net 2 = false)
  end.
Proof.
  apply (gamerxyt_results_are_marked demo_net demo_redirector (World None true true [])).
  reflexivity.
Defined.

(** ** The PixelServer rewrite *)

Lemma pixel_search_unfold s :
  pixel_search s =
    match pixel_at s with
    | (_ :: _) as g => Some g
    | [] => match s with [] => None | _ :: s' => pixel_search s' end
    end.
Proof. destruct s; reflexivity. Qed.

Lemma pixel_at_spec s g :
  pixel_at s = g -> g <> [] ->
  exists post, s = py "/u/" ++ g ++ post
    /\ forallb is_alnum g = true
    /\ match post with [] => True | c :: _ => is_alnum c = false end.
Proof.
  unfold pixel_at. destruct (startswith (py "/u/") s) eqn:E; [|congruence].
  intros Hg Hne. apply startswith_app in E.
  destruct (span is_alnum (skipn 3 s)) as [a b] eqn:Es. cbn [fst] in Hg. subst a.
  pose proof (span_stop _ _ _ _ Es) as Hstop.
  apply span_spec in Es as [Es Hall].
  exists b. split; [|split; assumption].
  rewrite E at 1. change (length (py "/u/")) with 3%nat. rewrite Es. reflexivity.
Qed.

Lemma pixel_search_spec h g :
  pixel_search h = Some g ->
  exists pre post, h = pre ++ py "/u/" ++ g ++ post
    /\ g <> [] /\ forallb is_alnum g = true
    /\ match post with [] => True | c :: _ => is_alnum c = false end.
Proof.
  induction h as [|x h IH]; rewrite pixel_search_unfold.
  - cbn. discriminate.
  - destruct (pixel_at (x :: h)) as [|y g'] eqn:E.
    + intros H. destruct (IH H) as (pre & post & -> & ?).
      exists (x :: pre), post. auto.
    + intros [= <-].
      destruct (pixel_at_spec _ _ E ltac:(discriminate)) as (post & Hs & Ha & Hp).
      exists [], post. rewrite Hs. repeat split; auto; discriminate.
Qed.

Lemma pixel_at_long s t :
  (4 <= length s)%nat -> pixel_at s = [] -> pixel_at (s ++ t) = [].
Proof.
  destruct s as [|a [|b [|c [|d s']]]]; simpl length; try lia. intros _.
  unfold pixel_at. cbn [app startswith list_ascii_of_string skipn span].
  destruct (Ascii.eqb "/" a && (Ascii.eqb "u" b && (Ascii.eqb "/" c && true)));
    [|reflexivity].
  destruct (is_alnum d); [|reflexivity].
  destruct (span is_alnum s'). discriminate.
Qed.

(** The first [/u/] token of an address is the one found. *)
Lemma pixel_search_first pre tok post :
  pixel_search (pre ++ py "/u/") = None ->
  tok <> [] -> forallb is_alnum tok = true ->
  match post with [] => True | c :: _ => is_alnum c = false end ->
  pixel_search (pre ++ py "/u/" ++ tok ++ post) = Some tok.
Proof.
  intros Hnone Hne Hall Hpost. induction pre as [|x pre IH].
  - rewrite pixel_search_unfold. unfold pixel_at.
    cbn [app list_ascii_of_string startswith skipn].
    rewrite !Ascii.eqb_refl. cbn [andb].
    change (drop 0 (tok ++ post)) with (tok ++ post).
    rewrite (span_app is_alnum tok post Hall Hpost). cbn [fst].
    destruct tok; [congruence|reflexivity].
  - rewrite pixel_search_unfold in Hnone. cbn [app] in Hnone.
    destruct (pixel_at (x :: pre ++ py "/u/")) as [|y g] eqn:E; [|discriminate].
    assert (E' : pixel_at ((x :: pre) ++ py "/u/" ++ tok ++ post) = []).
    { rewrite (app_assoc (x :: pre) (py "/u/") (tok ++ post)).
      apply pixel_at_long; [|exact E].
      cbn [app length]. rewrite length_app. simpl. lia. }
    cbn [app] in E'. cbn [app]. rewrite pixel_search_unfold, E'.
    apply IH, Hnone.
Qed.

Lemma requests_pixel text h :
  requests_label (Anchor text (Some h)) = Some PixelServer ->
  classify_requests (Anchor text (Some h))
  = Some (PixelServer,
          match pixel_search h with Some g => pixeldrain g | None => h end).
Proof.
  unfold requests_label, classify_requests. cbn [a_text a_href].
  destruct h as [|c h]; [discriminate|].
  repeat match goal with
  | |- context [contains ?p text] => destruct (contains p text);
                                      cbn [negb andb orb option_map fst]
  end; try discriminate.
  - destruct (pixel_search (c :: h)); reflexivity.
  - destruct (tme_search _ _); discriminate.
Qed.

Lemma browser_pixel text h :
  browser_label (Anchor text (Some h)) = Some PixelServer ->
  classify_browser (Anchor text (Some h))
  = BAssign PixelServer
      match pixel_search h with Some g => pixeldrain g | None => h end.
Proof.
  unfold browser_label, classify_browser. cbn [a_text a_href].
  destruct h as [|c h]; [discriminate|].
  repeat match goal with
  | |- context [contains ?p text] => destruct (contains p text);
                                      cbn [negb andb orb]
  end; try discriminate.
  destruct (pixel_search (c :: h)); reflexivity.
Qed.

(** X12. For an anchor labelled PixelServer, on either path: when the
    address has a [/u/] followed by letters or digits, the link stored is
    the direct-download address built on the first such run (taken up to
    the first character that is neither), and else the address as it
    is. *)
Theorem pixelserver_rewrite :
  forall text pre tok post,
    pixel_search (pre ++ py "/u/") = None ->
    tok <> [] -> forallb is_alnum tok = true ->
    match post with [] => True | c :: _ => is_alnum c = false end ->
    let href := pre ++ py "/u/" ++ tok ++ post in
    (requests_label (Anchor text (Some href)) = Some PixelServer ->
     classify_requests (Anchor text (Some href))
     = Some (PixelServer,
             py "https://pixeldrain.com/api/file/" ++ tok ++ py "?download"))
    /\ (browser_label (Anchor text (Some href)) = Some PixelServer ->
        classify_browser (Anchor text (Some href))
        = BAssign PixelServer
            (py "https://pixeldrain.com/api/file/" ++ tok ++ py "?download"))
    /\ (forall h, pixel_search h = None ->
          requests_label (Anchor text (Some h)) = Some PixelServer ->
          classify_requests (Anchor text (Some h)) = Some (PixelServer, h)).
Proof.
  intros text pre tok post Hnone Hne Hall Hpost href.
  pose proof (pixel_search_first pre tok post Hnone Hne Hall Hpost) as Hs.
  subst href. split; [|split].
  - intros Hl. pose proof (requests_pixel text _ Hl) as R. rewrite Hs in R. exact R.
  - intros Hl. pose proof (browser_pixel text _ Hl) as R. rewrite Hs in R. exact R.
  - intros h Hn Hl. pose proof (requests_pixel text h Hl) as R. rewrite Hn in R. exact R.
Qed.

Lemma pixelserver_rewrite_witness :
  classify_requests
    (Anchor (py "Download [PixelServer : 2]") (Some (py "https://pixeldrain.com/u/AbC123")))
  = Some (PixelServer, py "https://pixeldrain.com/api/file/AbC123?download").
Proof.
  apply (pixelserver_rewrite (py "Download [PixelServer : 2]")
           (py "https://pixeldrain.com") (py "AbC123") []).
  - vm_compute. reflexivity.
  - discriminate.
  - reflexivity.
  - exact I.
  - reflexivity.
Defined.

(** ** A parsed size is a natural number *)

Lemma round_q_nonneg p q : 0 <= p -> 0 < q -> fin_nonneg (round_q p q).
Proof.
  intros Hp Hq. unfold round_q, pow2. cbv zeta.
  destruct (p =? 0); [simpl; lia|].
  match goal with
  | |- context [Z.max ?a (-1074)] => generalize (Z.max a (-1074))
  end.
  intros u.
  set (num := if 0 <=? u then p else p * 2 ^ (- u)).
  set (den := if 0 <=? u then q * 2 ^ u else q).
  assert (Hnum : 0 <= num).
  { unfold num. destruct (0 <=? u); [lia|].
    apply Z.mul_nonneg_nonneg; [lia|]. apply Z.pow_nonneg. lia. }
  assert (Hden : 0 < den).
  { unfold den. destruct (Z.leb_spec 0 u); [|lia].
    apply Z.mul_pos_pos; [lia|]. apply Z.pow_pos_nonneg; lia. }
  assert (Hqt : 0 <= num / den) by (apply Z.div_pos; lia).
  destruct (_ && _); [exact I|]. simpl.
  destruct (2 * (num mod den) <? den); [lia|].
  destruct (den <? 2 * (num mod den)); [lia|].
  destruct (Z.even (num / den)); lia.
Qed.

Lemma fmul_nonneg a b : fin_nonneg a -> fin_nonneg b -> fin_nonneg (fmul a b).
Proof.
  destruct a as [m1 e1|], b as [m2 e2|]; simpl; auto. intros H1 H2.
  unfold pow2. destruct (Z.leb_spec 0 (e1 + e2)).
  - apply round_q_nonneg; [|lia].
    apply Z.mul_nonneg_nonneg; [apply Z.mul_nonneg_nonneg; lia|].
    apply Z.pow_nonneg. lia.
  - apply round_q_nonneg; [apply Z.mul_nonneg_nonneg; lia|].
    apply Z.pow_pos_nonneg; lia.
Qed.

Lemma py_int_nonneg v n : fin_nonneg v -> py_int v = Ok n -> 0 <= n.
Proof.
  destruct v as [m e|]; simpl; [|discriminate]. intros Hm [= <-].
  unfold pow2. destruct (Z.leb_spec 0 e).
  - apply Z.mul_nonneg_nonneg; [lia|]. apply Z.pow_nonneg. lia.
  - apply Z.div_pos; [lia|]. apply Z.pow_pos_nonneg; lia.
Qed.

Lemma py_float_nonneg s v : py_float s = Some v -> fin_nonneg v.
Proof.
  unfold py_float. destruct (span is_digit s) as [ip r] eqn:E1.
  apply span_spec in E1 as [_ Hip].
  destruct r as [|c r'].
  - destruct ip; [discriminate|]. intros [= <-].
    apply round_q_nonneg; [|lia]. exact (digits_val_nonneg _ 0 Hip ltac:(lia)).
  - destruct (Ascii.eqb c dot); [|discriminate].
    destruct (span is_digit r') as [fp r''] eqn:E2.
    apply span_spec in E2 as [_ Hfp].
    destruct r''; [|discriminate].
    destruct (ip ++ fp) as [|d ds] eqn:E3; [discriminate|]. intros [= <-].
    assert (Hds : forallb is_digit (d :: ds) = true).
    { rewrite <- E3, forallb_app, Hip, Hfp. reflexivity. }
    apply round_q_nonneg.
    + exact (digits_val_nonneg _ 0 Hds ltac:(lia)).
    + apply Z.pow_pos_nonneg; lia.
Qed.

(** X13. Whatever the text, [parse_size_from_text] gives [None], or a
    byte count that is not negative, or raises [OverflowError] (a number
    too large to be a float): nothing else. *)
Theorem parse_size_result_range :
  forall text,
    match parse_size_from_text text with
    | Ok None => True
    | Ok (Some n) => 0 <= n
    | Raise e => e = OverflowError
    end.
Proof.
  intros text.
  destruct (parse_size_from_text text) as [[n|]|e] eqn:E;
    [|exact I|exact (parse_size_only_overflow _ _ E)].
  revert E. unfold parse_size_from_text. destruct text as [|c t]; [discriminate|].
  destruct (size_search (c :: t)) as [[g1 g2]|]; [|discriminate].
  destruct (py_float (remove_commas g1)) as [v|] eqn:Ev; [|discriminate].
  apply py_float_nonneg in Ev.
  assert (Hk : fin_nonneg (float_of_Z 1024)) by (apply round_q_nonneg; lia).
  assert (H : forall x, fin_nonneg x ->
                match py_int x with Ok n0 => Ok (Some n0) | Raise e0 => Raise e0 end
                = Ok (Some n) -> 0 <= n).
  { intros x Hx Hr. destruct (py_int x) as [n0|] eqn:Ei; [|discriminate].
    inversion Hr; subst. eapply py_int_nonneg; eauto. }
  repeat match goal with
  | |- context [if ?b then _ else _] => destruct b
  end; try discriminate; apply H; auto using fmul_nonneg.
Qed.

(** ** Tokens that lost their padding *)

Lemma pad4_cons4 a b c d s : pad4 (a :: b :: c :: d :: s) = a :: b :: c :: d :: pad4 s.
Proof.
  unfold pad4. cbn [length].
  replace (S (S (S (S (length s))))) with (length s + 1 * 4)%nat by lia.
  rewrite Nat.Div0.mod_add. reflexivity.
Qed.

Lemma pad4_nopad bs : pad4 (b64encode_nopad bs) = b64encode bs.
Proof.
  induction bs as [|b0|b0 b1|b0 b1 b2 r IH] using list_ind3; try reflexivity.
  cbn [b64encode_nopad b64encode]. rewrite pad4_cons4, IH. reflexivity.
Qed.

Lemma b64encode_nopad_tokch bs :
  forallb is_byte bs = true -> forallb is_tokch (b64encode_nopad bs) = true.
Proof.
  intros H. pose proof (b64encode_tokch bs H) as Ht.
  rewrite <- pad4_nopad in Ht. unfold pad4 in Ht.
  rewrite forallb_app in Ht. apply andb_true_iff in Ht as [Ht _]. exact Ht.
Qed.

Lemma b64encode_nopad_nonempty bs : bs <> [] -> b64encode_nopad bs <> [].
Proof. destruct bs as [|b0 [|b1 [|b2 r]]]; [congruence| | |]; discriminate. Qed.

(** X14. The padding loop makes up for padding that was dropped: an
    intermediate address whose [r] parameter is the base64 encoding of an
    ASCII address with its trailing [=] left out decodes to exactly that
    address. *)
Theorem unpadded_token_decodes :
  forall t,
    t <> [] -> forallb is_ascii t = true ->
    normalize_telegram (Some (gamerxyt_prefix ++ b64encode_nopad (ascii_bytes t)))
    = Some (ustr_of t).
Proof.
  intros t Hne Ha.
  assert (Hb : ascii_bytes t <> []) by (destruct t; [congruence|discriminate]).
  rewrite normalize_telegram_unfold by (destruct t; discriminate).
  rewrite (token_search_gamerxyt _ (b64encode_nopad_nonempty _ Hb)
             (b64encode_nopad_tokch _ (ascii_bytes_are_bytes t))).
  unfold unquote. rewrite pad4_nopad. unfold b64decode.
  rewrite (a2b_base64_encode _ [] (ascii_bytes_are_bytes t)).
  cbn [rev app]. rewrite (utf8_decode_ascii _ Ha). reflexivity.
Qed.

Lemma unpadded_token_decodes_witness :
  normalize_telegram (Some (py "https://gamerxyt.com/?r=aHR0cHM6Ly90Lm1lL2M"))
  = Some (ustr_of (py "https://t.me/c")).
Proof.
  apply (unpadded_token_decodes (py "https://t.me/c")); [discriminate|reflexivity].
Defined.

(** ** Endpoints *)

(** X15. [api_hubcloud] answers in one of four ways: 400 when the address
    is missing or empty, the server being left as it was; 200 with the
    one-entry mapping, keyed by the stripped address; 202 "waking" when
    the work raised and the engine is not running, one engine start being
    scheduled; 500 when the work raised with the engine running, nothing
    being scheduled.  So a sleeping engine never shows a 500. *)
Theorem api_hubcloud_answers :
  forall net url force s,
    let a := fst (api_hubcloud net url force s) in
    let s' := snd (api_hubcloud net url force s) in
    (truthy url = false
     /\ a = HTTPException 400 (DetailText (py "Missing 'url' query parameter"))
     /\ s' = s)
    \/ (exists u e, url = Some u
          /\ a = JSONResponse 200 (BResult (strip u) e)
          /\ sv_tasks s' = sv_tasks s)
    \/ (truthy url = true
        /\ a = JSONResponse 202 (BStatus (py "waking") (Some waking_message))
        /\ started (sv_world s') = false
        /\ sv_tasks s' = S (sv_tasks s))
    \/ (exists ex, truthy url = true
          /\ a = HTTPException 500 (DetailOf ex)
          /\ started (sv_world s') = true
          /\ sv_tasks s' = sv_tasks s).
Proof.
  intros net url force s a s'. subst a s'. unfold api_hubcloud.
  destruct url as [[|c u]|]; [left; auto| |left; auto]. right.
  set (f := match force with Some b => b | None => false end).
  destruct (process_single_url net (c :: u) f (sv_world s)) as [[[k e]|ex] w'] eqn:E.
  - left. exists (c :: u), e.
    destruct (process_single_url_returns net _ _ _ _ _ _ E) as [-> _]. auto.
  - right. destruct (started w') eqn:Es; cbn [negb fst snd sv_world sv_tasks].
    + right. exists ex. auto.
    + left. auto.
Qed.

(** X16. An address of white space only is not answered 400: the
    [ValueError] of [process_single_url] is handled like any failure, so
    with the engine sleeping the answer is 202 "waking" and an engine
    start is scheduled, and with the engine running it is 500; the world
    is left as it was. *)
Theorem blank_url_is_not_a_400 :
  forall net u force s,
    u <> [] -> forallb is_space u = true ->
    api_hubcloud net (Some u) force s =
      if started (sv_world s)
      then (HTTPException 500 (DetailOf (ValueError (py "Empty URL"))), s)
      else (JSONResponse 202 (BStatus (py "waking") (Some waking_message)),
            Server (sv_world s) (S (sv_tasks s))).
Proof.
  intros net u force s Hne Hb. unfold api_hubcloud.
  destruct u as [|c u]; [congruence|].
  unfold process_single_url. rewrite (strip_blank _ Hb). unfold raise.
  destruct s as [w n]. cbn [sv_world sv_tasks].
  destruct (started w); reflexivity.
Qed.

Lemma blank_url_is_not_a_400_witness :
  api_hubcloud demo_net (Some (py "   ")) None (Server world0 0)
  = (JSONResponse 202 (BStatus (py "waking") (Some waking_message)),
     Server world0 1).
Proof.
  apply (blank_url_is_not_a_400 demo_net (py "   ") None (Server world0 0));
    [discriminate|reflexivity].
Defined.

(** X17. [/wake] always answers 202 and schedules one engine start; once
    that task has had its turn, [/health] answers 200 "ready" when the
    engine ran already or could be launched, and 503 "sleeping" when the
    launch failed. *)
Theorem wake_then_health :
  forall net s,
    let s1 := snd (wake_background s) in
    let s2 := run_task net s1 in
    fst (wake_background s) = JSONResponse 202 (BStatus (py "waking") None)
    /\ sv_tasks s2 = sv_tasks s
    /\ (started (sv_world s) = true \/ launch net (clock (sv_world s)) = true ->
        health s2 = JSONResponse 200 (BStatus (py "ready") None))
    /\ (started (sv_world s) = false -> launch net (clock (sv_world s)) = false ->
        health s2 = JSONResponse 503 (BStatus (py "sleeping") None)).
Proof.
  intros net [w n]. cbn [wake_background run_task sv_world sv_tasks fst snd].
  unfold health, ensure_playwright_started. cbn [sv_world].
  split; [reflexivity|]. split; [reflexivity|].
  destruct (started w) eqn:Es.
  - cbn [snd]. rewrite Es. split; [reflexivity|discriminate].
  - destruct (launch net (clock w)) eqn:El; cbn [snd].
    + split; [reflexivity|discriminate].
    + cbn [log_event started]. rewrite Es. split; [|reflexivity].
      intros [H|H]; discriminate.
Qed.

Lemma wake_then_health_witness :
  health (run_task demo_net (snd (wake_background (Server world0 0))))
  = JSONResponse 200 (BStatus (py "ready") None).
Proof.
  apply (wake_then_health demo_net (Server world0 0)). right. reflexivity.
Defined.

(** X18. Called by one caller at a time, [ensure_playwright_started] is
    idempotent: a call that returns leaves the flag set, and any number
    of further calls return at once and leave the world as it is (no
    second engine); a call that raises raises the browser's failure and
    leaves the flag unset, so that the next call tries again. *)
Theorem ensure_started_is_idempotent :
  forall net w,
    match ensure_playwright_started net w with
    | (Ok _, w') =>
        started w' = true
        /\ (engines_created (trace w') <= engines_created (trace w) + 1)%nat
        /\ forall n,
             Nat.iter n (fun x => snd (ensure_playwright_started net x)) w' = w'
    | (Raise e, w') =>
        e = BrowserError /\ started w = false /\ started w' = false
        /\ engines_created (trace w') = engines_created (trace w)
    end.
Proof.
  intros net w.
  assert (Hiter : forall w0, started w0 = true -> forall n,
            Nat.iter n (fun x => snd (ensure_playwright_started net x)) w0 = w0).
  { intros w0 H0 n. induction n as [|n IH]; [reflexivity|].
    rewrite Nat.iter_succ, IH, (ensure_started_noop net w0 H0). reflexivity. }
  unfold ensure_playwright_started at 1.
  destruct (started w) eqn:Es.
  - split; [exact Es|]. split; [lia|]. apply Hiter, Es.
  - destruct (launch net (clock w)).
    + split; [reflexivity|]. split; [|apply Hiter; reflexivity].
      unfold set_started, log_event. cbn [trace].
      rewrite engines_created_app. lia.
    + unfold log_event. cbn [started trace]. rewrite engines_created_app.
      repeat split; auto; lia.
Qed.

(** ** Any number of callers of [ensure_playwright_started] *)

Lemma unreturned_insert l : forall i q p,
  l !! i = Some q ->
  (unreturned (<[i := p]> l)
   + match q with Lifecycle.Returned => 0 | _ => 1 end
   = unreturned l + match p with Lifecycle.Returned => 0 | _ => 1 end)%nat.
Proof.
  unfold unreturned.
  induction l as [|x l IH]; intros i q p H; [discriminate|].
  destruct i as [|i].
  - cbn in H. injection H as ->. simpl.
    destruct q, p; simpl; lia.
  - cbn in H. specialize (IH i q p H). simpl.
    destruct x; simpl; lia.
Qed.

Lemma step_engine_invariant s i :
  engine_invariant s -> engine_invariant (Lifecycle.step s i).
Proof.
  unfold engine_invariant, Lifecycle.step, Lifecycle.set_task.
  intros (Hb & Ht & Hf).
  destruct (Lifecycle.s_tasks s !! i) as [[| |p|]|] eqn:E; auto.
  - destruct (Lifecycle.s_started s) eqn:Es; cbn;
      rewrite length_insert.
    + pose proof (unreturned_insert _ _ _ Lifecycle.Returned E) as H; unfold unreturned in *; cbn in H.
      split; [lia|]. split; [intros _; apply Ht; reflexivity|discriminate].
    + pose proof (unreturned_insert _ _ _ Lifecycle.AwaitStart E) as H; unfold unreturned in *; cbn in H.
      split; [lia|]. split; [discriminate|intros _; apply Hf; reflexivity].
  - cbn. rewrite length_insert.
    pose proof (unreturned_insert _ _ _
                  (Lifecycle.AwaitLaunch (S (Lifecycle.s_drivers s))) E) as H; unfold unreturned in *; cbn in H.
    split; [lia|]. split; [exact Ht|exact Hf].
  - cbn. rewrite length_insert.
    pose proof (unreturned_insert _ _ _ Lifecycle.Returned E) as H; unfold unreturned in *; cbn in H.
    split; [lia|]. split; [intros _; split; [reflexivity|lia]|discriminate].
Qed.

Lemma run_engine_invariant schedule : forall s,
  engine_invariant s -> engine_invariant (Lifecycle.run schedule s).
Proof.
  unfold Lifecycle.run.
  induction schedule as [|i schedule IH]; intros s Hs; [exact Hs|].
  cbn [fold_left]. apply IH, step_engine_invariant, Hs.
Qed.

Lemma unreturned_repeat_entry n :
  unreturned (repeat Lifecycle.AtEntry n) = n.
Proof. unfold unreturned. induction n as [|n IH]; cbn; [reflexivity|]. cbn in IH. lia. Qed.

Lemma init_engine_invariant n : engine_invariant (Lifecycle.init n).
Proof.
  unfold engine_invariant, Lifecycle.init.
  cbn [Lifecycle.s_tasks Lifecycle.s_started Lifecycle.s_browser Lifecycle.s_browsers].
  rewrite unreturned_repeat_entry, repeat_length.
  repeat split; try discriminate; lia.
Qed.

Lemma length_run_tasks schedule : forall s,
  length (Lifecycle.s_tasks (Lifecycle.run schedule s)) = length (Lifecycle.s_tasks s).
Proof.
  unfold Lifecycle.run.
  induction schedule as [|i schedule IH]; intros s; [reflexivity|].
  cbn [fold_left]. rewrite IH. unfold Lifecycle.step, Lifecycle.set_task.
  destruct (Lifecycle.s_tasks s !! i) as [[| |p|]|]; try reflexivity;
    try destruct (Lifecycle.s_started s); cbn; apply length_insert.
Qed.

(** X19. However [n] calls of [ensure_playwright_started] interleave, at
    most [n] browser engines are created; the flag is set exactly when an
    engine exists, the state then referring to the engine created last
    (any earlier one is no longer referenced); and once every caller has
    returned, an engine exists. *)
Theorem engines_bounded_by_callers :
  forall n schedule,
    let s := Lifecycle.run schedule (Lifecycle.init n) in
    (Lifecycle.s_browsers s <= n)%nat
    /\ (Lifecycle.s_started s = true <-> (1 <= Lifecycle.s_browsers s)%nat)
    /\ (Lifecycle.s_started s = true ->
        Lifecycle.s_browser s = Some (Lifecycle.s_browsers s))
    /\ (Lifecycle.all_returned s = true -> (1 <= n)%nat ->
        Lifecycle.s_started s = true).
Proof.
  intros n schedule s.
  pose proof (run_engine_invariant schedule _ (init_engine_invariant n))
    as (Hb & Ht & Hf).
  pose proof (length_run_tasks schedule (Lifecycle.init n)) as Hl.
  fold s in Hb, Ht, Hf, Hl. cbn [Lifecycle.init Lifecycle.s_tasks] in Hl.
  rewrite repeat_length in Hl.
  split; [lia|]. split; [|split].
  - split; [intros H; apply Ht, H|].
    intros H. destruct (Lifecycle.s_started s); [reflexivity|].
    specialize (Hf eq_refl). lia.
  - intros H. apply Ht, H.
  - intros Ha Hn.
    pose proof (run_returned_sees_started schedule _ (init_returned_sees_started n))
      as Hr.
    fold s in Hr. apply Hr.
    unfold Lifecycle.all_returned in Ha.
    destruct (Lifecycle.s_tasks s) as [|p l]; [cbn in Hl; lia|].
    cbn in Ha. destruct p; try discriminate. left. reflexivity.
Qed.

Lemma lookup_mid {A} (l1 l2 : list A) x : (l1 ++ x :: l2) !! length l1 = Some x.
Proof. induction l1 as [|a l1 IH]; [reflexivity|exact IH]. Qed.

Lemma insert_mid {A} (l1 l2 : list A) x y :
  <[length l1 := y]> (l1 ++ x :: l2) = l1 ++ y :: l2.
Proof. induction l1 as [|a l1 IH]; [reflexivity|]. cbn. f_equal. exact IH. Qed.

Lemma repeat_snoc {A} (x : A) k l : repeat x k ++ x :: l = repeat x (S k) ++ l.
Proof. induction k as [|k IH]; [reflexivity|]. cbn. f_equal. exact IH. Qed.

Lemma launch_seq_snoc k l :
  map Lifecycle.AwaitLaunch (seq 1 k) ++ Lifecycle.AwaitLaunch (S k) :: l
  = map Lifecycle.AwaitLaunch (seq 1 (S k)) ++ l.
Proof.
  rewrite seq_S, map_app. cbn [map]. rewrite <- List.app_assoc. reflexivity.
Qed.

(** One turn of the task that stands after [l1]. *)
Lemma step_at st pl bo d b l1 x l2 :
  Lifecycle.step (Lifecycle.Sys st pl bo d b (l1 ++ x :: l2)) (length l1)
  = match x with
    | Lifecycle.Returned => Lifecycle.Sys st pl bo d b (l1 ++ x :: l2)
    | Lifecycle.AtEntry =>
        Lifecycle.Sys st pl bo d b
          (l1 ++ (if st then Lifecycle.Returned else Lifecycle.AwaitStart) :: l2)
    | Lifecycle.AwaitStart =>
        Lifecycle.Sys st pl bo (S d) b (l1 ++ Lifecycle.AwaitLaunch (S d) :: l2)
    | Lifecycle.AwaitLaunch p =>
        Lifecycle.Sys true (Some p) (Some (S b)) d (S b)
          (l1 ++ Lifecycle.Returned :: l2)
    end.
Proof.
  unfold Lifecycle.step, Lifecycle.set_task. cbn [Lifecycle.s_tasks].
  rewrite lookup_mid.
  destruct x; cbn; try destruct st; rewrite ?insert_mid; reflexivity.
Qed.

(** The first sweep: every caller tests the flag and finds it unset. *)
Lemma sweep_entry m : forall k,
  Lifecycle.run (seq k m)
    (Lifecycle.Sys false None None 0 0
       (repeat Lifecycle.AwaitStart k ++ repeat Lifecycle.AtEntry m))
  = Lifecycle.Sys false None None 0 0 (repeat Lifecycle.AwaitStart (k + m)).
Proof.
  unfold Lifecycle.run.
  induction m as [|m IH]; intros k.
  - cbn. rewrite List.app_nil_r, Nat.add_0_r. reflexivity.
  - cbn [seq fold_left repeat].
    pose proof (step_at false None None 0 0 (repeat Lifecycle.AwaitStart k)
                  Lifecycle.AtEntry (repeat Lifecycle.AtEntry m)) as E.
    rewrite repeat_length in E. rewrite E, repeat_snoc, IH.
    f_equal. f_equal. lia.
Qed.

(** The second sweep: every caller starts a driver of its own. *)
Lemma sweep_start m : forall k,
  Lifecycle.run (seq k m)
    (Lifecycle.Sys false None None k 0
       (map Lifecycle.AwaitLaunch (seq 1 k) ++ repeat Lifecycle.AwaitStart m))
  = Lifecycle.Sys false None None (k + m) 0
      (map Lifecycle.AwaitLaunch (seq 1 (k + m))).
Proof.
  unfold Lifecycle.run.
  induction m as [|m IH]; intros k.
  - cbn. rewrite List.app_nil_r, Nat.add_0_r. reflexivity.
  - cbn [seq fold_left repeat].
    pose proof (step_at false None None k 0
                  (map Lifecycle.AwaitLaunch (seq 1 k))
                  Lifecycle.AwaitStart (repeat Lifecycle.AwaitStart m)) as E.
    rewrite length_map, length_seq in E. rewrite E, launch_seq_snoc, IH.
    replace (S k + m)%nat with (k + S m)%nat by lia. reflexivity.
Qed.

(** The third sweep: every caller launches a browser of its own. *)
Lemma sweep_launch m : forall k st pl bo d,
  Lifecycle.run (seq k (S m))
    (Lifecycle.Sys st pl bo d k
       (repeat Lifecycle.Returned k
        ++ map Lifecycle.AwaitLaunch (seq (S k) (S m))))
  = Lifecycle.Sys true (Some (k + S m)%nat) (Some (k + S m)%nat) d (k + S m)
      (repeat Lifecycle.Returned (k + S m)).
Proof.
  unfold Lifecycle.run.
  induction m as [|m IH]; intros k st pl bo d.
  - cbn [seq fold_left map].
    pose proof (step_at st pl bo d k (repeat Lifecycle.Returned k)
                  (Lifecycle.AwaitLaunch (S k)) []) as E.
    rewrite repeat_length in E. rewrite E, repeat_snoc, List.app_nil_r.
    replace (k + 1)%nat with (S k) by lia. reflexivity.
  - remember (S m) as m'. cbn [seq fold_left map]. subst m'.
    pose proof (step_at st pl bo d k (repeat Lifecycle.Returned k)
                  (Lifecycle.AwaitLaunch (S k))
                  (map Lifecycle.AwaitLaunch (seq (S (S k)) (S m)))) as E.
    rewrite repeat_length in E. rewrite E, repeat_snoc, IH.
    replace (S k + S m)%nat with (k + S (S m))%nat by lia. reflexivity.
Qed.

Lemma run_app s1 s2 s :
  Lifecycle.run (s1 ++ s2) s = Lifecycle.run s2 (Lifecycle.run s1 s).
Proof. unfold Lifecycle.run. apply fold_left_app. Qed.

Lemma all_returned_repeat n :
  forallb (fun p => match p with Lifecycle.Returned => true | _ => false end)
    (repeat Lifecycle.Returned n) = true.
Proof. induction n as [|n IH]; [reflexivity|exact IH]. Qed.

(** X20. The bound is reached: when [n >= 1] callers all pass the test of
    the flag before any of them sets it, every one of them starts a
    driver and launches a browser, so [n] engines exist when all have
    returned, and the state refers to the last one only. *)
Theorem racing_callers_create_n_engines :
  forall n, (1 <= n)%nat ->
    Lifecycle.run (all_racing n) (Lifecycle.init n)
    = Lifecycle.Sys true (Some n) (Some n) n n (repeat Lifecycle.Returned n).
Proof.
  intros n Hn. unfold all_racing, Lifecycle.init.
  rewrite !run_app.
  pose proof (sweep_entry n 0) as H1. cbn [repeat app Nat.add] in H1. rewrite H1.
  pose proof (sweep_start n 0) as H2. cbn [seq map app Nat.add] in H2. rewrite H2.
  destruct n as [|m]; [lia|].
  pose proof (sweep_launch m 0 false None None (S m)) as H3.
  cbn [repeat app Nat.add] in H3. exact H3.
Qed.

Lemma racing_callers_create_n_engines_witness :
  Lifecycle.s_browsers (Lifecycle.run (all_racing 3) (Lifecycle.init 3)) = 3%nat.
Proof.
  rewrite (racing_callers_create_n_engines 3); [reflexivity|lia].
Defined.

(** A caller that finds the flag set returns at once. *)
Lemma sweep_late m : forall k pl bo d b,
  Lifecycle.run (flat_map (fun i => [i; i; i]) (seq k m))
    (Lifecycle.Sys true pl bo d b
       (repeat Lifecycle.Returned k ++ repeat Lifecycle.AtEntry m))
  = Lifecycle.Sys true pl bo d b (repeat Lifecycle.Returned (k + m)).
Proof.
  unfold Lifecycle.run.
  induction m as [|m IH]; intros k pl bo d b.
  - cbn. rewrite List.app_nil_r, Nat.add_0_r. reflexivity.
  - cbn [seq flat_map app fold_left repeat].
    pose proof (step_at true pl bo d b (repeat Lifecycle.Returned k)
                  Lifecycle.AtEntry (repeat Lifecycle.AtEntry m)) as E.
    pose proof (step_at true pl bo d b (repeat Lifecycle.Returned k)
                  Lifecycle.Returned (repeat Lifecycle.AtEntry m)) as E'.
    rewrite repeat_length in E, E'. rewrite E, !E', repeat_snoc, IH.
    f_equal. f_equal. lia.
Qed.

(** X21. Called one after the other, [n >= 1] callers create one driver
    and one engine: the first one starts them, and every later one finds
    the flag set and returns at once. *)
Theorem serial_callers_create_one_engine :
  forall n, (1 <= n)%nat ->
    Lifecycle.run (one_by_one n) (Lifecycle.init n)
    = Lifecycle.Sys true (Some 1%nat) (Some 1%nat) 1 1 (repeat Lifecycle.Returned n).
Proof.
  intros n Hn. destruct n as [|m]; [lia|].
  unfold one_by_one, Lifecycle.init.
  cbn [seq flat_map repeat]. rewrite run_app.
  replace (Lifecycle.run [0; 0; 0]%nat
             (Lifecycle.Sys false None None 0 0
                (Lifecycle.AtEntry :: repeat Lifecycle.AtEntry m)))
    with (Lifecycle.Sys true (Some 1%nat) (Some 1%nat) 1 1
            (repeat Lifecycle.Returned 1 ++ repeat Lifecycle.AtEntry m))
    by reflexivity.
  apply (sweep_late m 1).
Qed.

Lemma serial_callers_create_one_engine_witness :
  Lifecycle.s_browsers (Lifecycle.run (one_by_one 4) (Lifecycle.init 4)) = 1%nat.
Proof.
  rewrite (serial_callers_create_one_engine 4); [reflexivity|lia].
Defined.

(** ** The blocking wait of the proxy *)

Section ProxyWait.

Import Proxy.

Variable cfg : config.

Lemma poll_skips_unhealthy compute k : forall t n,
  t + 2 * Z.of_nat k <= MAX_BLOCK_WAIT cfg + 1 ->
  (forall j, (j < k)%nat -> health_down (compute (n + j)%nat GetHealth)) ->
  poll cfg compute (turns cfg t) t n
  = poll cfg compute (turns cfg (t + 2 * Z.of_nat k)) (t + 2 * Z.of_nat k) (n + k)%nat.
Proof.
  induction k as [|k IH]; intros t n Ht Hd.
  - rewrite Z.add_0_r, Nat.add_0_r. reflexivity.
  - assert (Hlt : t < MAX_BLOCK_WAIT cfg) by lia.
    rewrite (turns_step cfg t Hlt). cbn [poll].
    apply Z.ltb_lt in Hlt. rewrite Hlt.
    pose proof (Hd 0%nat ltac:(lia)) as H0. rewrite Nat.add_0_r in H0.
    assert (Hnext : poll cfg compute (turns cfg (t + 2)) (t + 2) (S n)
                    = poll cfg compute (turns cfg (t + 2 * Z.of_nat (S k)))
                        (t + 2 * Z.of_nat (S k)) (n + S k)%nat).
    { rewrite (IH (t + 2) (S n)).
      - replace (t + 2 + 2 * Z.of_nat k) with (t + 2 * Z.of_nat (S k)) by lia.
        replace (S n + k)%nat with (n + S k)%nat by lia. reflexivity.
      - lia.
      - intros j Hj. replace (S n + j)%nat with (n + S j)%nat by lia.
        apply Hd. lia. }
    destruct (compute n GetHealth) as [r2|f]; [|exact Hnext].
    cbn in H0. apply Z.eqb_neq in H0. rewrite H0. exact Hnext.
Qed.

(** X22. With [wait] set and the compute tier unavailable at the fast
    forward, the proxy polls [/health] every other second; when the
    first [k] polls find the tier down and the next one, still within
    [MAX_BLOCK_WAIT], finds it ready, the extraction is sent again and
    its answer is what the client gets, with the tier's status. *)
Theorem proxy_waits_then_relays :
  forall compute url force k r2 r3 body,
    truthy (RAILWAY_URL cfg) = true -> truthy url = true ->
    fast_forward_unavailable compute ->
    2 * Z.of_nat k < MAX_BLOCK_WAIT cfg ->
    (forall j, (j < k)%nat -> health_down (compute (2 + j)%nat GetHealth)) ->
    compute (2 + k)%nat GetHealth = Answered r2 -> status_code r2 = 200 ->
    compute (3 + k)%nat (GetExtract 30) = Answered r3 -> json r3 = Some body ->
    proxy_get cfg compute url force true
    = JSONResponse (status_code r3) (Relayed body) [].
Proof.
  intros compute url force k r2 r3 body Hc Hu Hf Hk Hd H2 Hs H3 Hj.
  assert (Hp : poll cfg compute (turns cfg 0) 0 2
               = JSONResponse (status_code r3) (Relayed body) []).
  { rewrite (poll_skips_unhealthy compute k 0 2 ltac:(lia) Hd).
    rewrite Z.add_0_l.
    rewrite (turns_step cfg _ Hk). cbn [poll].
    apply Z.ltb_lt in Hk. rewrite Hk, H2, Hs, Z.eqb_refl.
    change (S (2 + k)) with (3 + k)%nat. rewrite H3, Hj. reflexivity. }
  unfold proxy_get. rewrite Hc, Hu. cbn [negb].
  unfold fast_forward_unavailable in Hf.
  destruct (compute 0%nat (GetExtract 8)) as [r|[| |]]; try exact Hp; [|contradiction].
  apply Z.eqb_neq in Hf. rewrite Hf. exact Hp.
Qed.

Lemma poll_never_healthy compute fuel : forall t n,
  (forall m, health_down (compute m GetHealth)) ->
  poll cfg compute fuel t n = waking_response cfg.
Proof.
  induction fuel as [|fuel IH]; intros t n Hd; [reflexivity|].
  cbn [poll]. destruct (t <? MAX_BLOCK_WAIT cfg); [|reflexivity].
  pose proof (Hd n) as H0.
  destruct (compute n GetHealth) as [r2|f]; [|apply IH, Hd].
  cbn in H0. apply Z.eqb_neq in H0. rewrite H0. apply IH, Hd.
Qed.

(** X23. When the compute tier is unavailable at the fast forward and,
    with [wait] set, no health poll finds it ready, the client gets the
    202 waking response, which names [SUGGESTED_RETRY_AFTER] in its
    message and in its [Retry-After] header; how the wake call ended
    plays no part. *)
Theorem proxy_answers_waking :
  forall compute url force wait,
    truthy (RAILWAY_URL cfg) = true -> truthy url = true ->
    fast_forward_unavailable compute ->
    (wait = true -> forall m, health_down (compute m GetHealth)) ->
    proxy_get cfg compute url force wait
    = JSONResponse 202
        (Waking (py "Railway is starting. Retry after "
                 ++ str_of_Z (SUGGESTED_RETRY_AFTER cfg) ++ py " seconds."))
        [(py "Retry-After", str_of_Z (SUGGESTED_RETRY_AFTER cfg))].
Proof.
  intros compute url force wait Hc Hu Hf Hd.
  change (JSONResponse 202 _ _) with (waking_response cfg).
  assert (Hp : (if wait then poll cfg compute (turns cfg 0) 0 2 else waking_response cfg)
               = waking_response cfg).
  { destruct wait; [|reflexivity]. apply poll_never_healthy, Hd. reflexivity. }
  unfold proxy_get. rewrite Hc, Hu. cbn [negb].
  unfold fast_forward_unavailable in Hf.
  destruct (compute 0%nat (GetExtract 8)) as [r|[| |]]; try exact Hp; [|contradiction].
  apply Z.eqb_neq in Hf. rewrite Hf. exact Hp.
Qed.

Lemma poll_agree c1 c2 fuel : forall t n,
  (forall m req, (n <= m < n + 2 * fuel)%nat -> c1 m req = c2 m req) ->
  poll cfg c1 fuel t n = poll cfg c2 fuel t n.
Proof.
  induction fuel as [|fuel IH]; intros t n Ha; [reflexivity|].
  cbn [poll]. destruct (t <? MAX_BLOCK_WAIT cfg); [|reflexivity].
  rewrite <- (Ha n GetHealth) by lia.
  assert (H1 : poll cfg c1 fuel (t + 2) (S n) = poll cfg c2 fuel (t + 2) (S n)).
  { apply IH. intros m req Hm. apply Ha. lia. }
  assert (H2 : poll cfg c1 fuel (t + 2) (S (S n)) = poll cfg c2 fuel (t + 2) (S (S n))).
  { apply IH. intros m req Hm. apply Ha. lia. }
  destruct (c1 n GetHealth) as [r2|f]; [|exact H1].
  destruct (status_code r2 =? 200); [|exact H1].
  rewrite <- (Ha (S n) (GetExtract 30)) by lia.
  destruct (c1 (S n) (GetExtract 30)) as [r3|f]; [|exact H2].
  destruct (json r3); [reflexivity|exact H2].
Qed.

(** X24. The blocking wait is bounded: the loop takes at most
    [ceil (MAX_BLOCK_WAIT / 2)] turns of at most two requests each, so
    the answer of the proxy depends on the first
    [2 + 2 * ceil (MAX_BLOCK_WAIT / 2)] requests only. *)
Theorem proxy_wait_is_bounded :
  forall c1 c2 url force wait,
    agree_before (2 + 2 * Z.to_nat ((MAX_BLOCK_WAIT cfg + 1) / 2)) c1 c2 ->
    proxy_get cfg c1 url force wait = proxy_get cfg c2 url force wait.
Proof.
  intros c1 c2 url force wait Ha. unfold agree_before in Ha.
  unfold proxy_get.
  destruct (negb (truthy (RAILWAY_URL cfg))); [reflexivity|].
  destruct (negb (truthy url)); [reflexivity|].
  rewrite <- (Ha 0%nat (GetExtract 8)) by lia.
  assert (Hp : poll cfg c1 (turns cfg 0) 0 2 = poll cfg c2 (turns cfg 0) 0 2).
  { apply poll_agree. intros m req Hm. apply Ha.
    unfold turns in Hm. rewrite Z.sub_0_r in Hm. lia. }
  rewrite Hp. reflexivity.
Qed.

(** X25. With [MAX_BLOCK_WAIT] at zero or below, [wait] changes nothing:
    no health poll is sent. *)
Theorem proxy_wait_without_budget :
  forall compute url force,
    MAX_BLOCK_WAIT cfg <= 0 ->
    proxy_get cfg compute url force true = proxy_get cfg compute url force false.
Proof.
  intros compute url force Hm. unfold proxy_get.
  assert (Hp : poll cfg compute (turns cfg 0) 0 2 = waking_response cfg).
  { destruct (turns cfg 0); [reflexivity|]. cbn [poll].
    apply Z.ltb_ge in Hm. rewrite Hm. reflexivity. }
  rewrite Hp. reflexivity.
Qed.

End ProxyWait.

Lemma proxy_waits_then_relays_witness :
  Proxy.proxy_get demo_cfg tier_slow (Some demo_url) false true
  = Proxy.JSONResponse 200 (Proxy.Relayed (py "[result]")) [].
Proof.
  apply (proxy_waits_then_relays demo_cfg tier_slow (Some demo_url) false 3%nat
           (Proxy.Reply 200 (Some (py "[200]")))
           (Proxy.Reply 200 (Some (py "[result]"))) (py "[result]"));
    try reflexivity; try exact I.
  intros j Hj. destruct j as [|[|[|j]]]; cbn; try discriminate; try exact I. lia.
Defined.

Lemma proxy_answers_waking_witness :
  Proxy.proxy_get demo_cfg tier_down (Some demo_url) false true
  = Proxy.waking_response demo_cfg.
Proof.
  apply (proxy_answers_waking demo_cfg tier_down (Some demo_url) false true);
    try reflexivity; try exact I; intros _ m; exact I.
Defined.

Lemma proxy_wait_is_bounded_witness :
  Proxy.proxy_get demo_cfg tier_500 (Some demo_url) false true
  = Proxy.proxy_get demo_cfg tier_500_cut (Some demo_url) false true.
Proof.
  apply (proxy_wait_is_bounded demo_cfg tier_500 tier_500_cut).
  intros n req Hn. unfold tier_500_cut.
  change (2 + 2 * Z.to_nat ((Proxy.MAX_BLOCK_WAIT demo_cfg + 1) / 2))%nat
    with 22%nat in Hn.
  apply Nat.ltb_lt in Hn. rewrite Hn. reflexivity.
Defined.

Lemma proxy_wait_without_budget_witness :
  Proxy.proxy_get (Proxy.Config (Some (py "https://compute.example")) 30 0)
    tier_500 (Some demo_url) false true
  = Proxy.waking_response (Proxy.Config (Some (py "https://compute.example")) 30 0).
Proof.
  rewrite (proxy_wait_without_budget
             (Proxy.Config (Some (py "https://compute.example")) 30 0)
             tier_500 (Some demo_url) false); [reflexivity|].
  cbn. lia.
Defined.
